(** * Collaboration Docs: saving, rolling back and roles in server.js

    A shallow embedding of the Express handlers of server.js, in the
    version whose rollback commits the old content instead of resetting
    the branch (documents, permissions, one git repository per document,
    the [gitLocks] map), and of the create handler of src/main.js.

    Layout:
    - [Model]    : the tables of the database, the document storage, and
                   git as the handlers drive it through simple-git;
    - [Lang]     : a free monad for the handlers, with exceptions,
                   try/catch, and synchronous calls told from awaited
                   ones; what each call does to the system;
    - [Server]   : the handlers, written after the source;
    - [Client]   : the create button of src/main.js;
    - [Sched]    : two requests taking turns on the event loop, the trace
                   of a run, the discipline of the save lock;
    - [Scenario] : the life of one document, for the examples;
    - [Requests] : the requests of [Server] as one type, and what their
                   handlers have in common;
    - [Db]       : the text of a statement in db.js;
    - [Editor]   : the debounced autosave and the colour of a cursor
                   label in src/main.js;
    - [Site]     : accounts, the list of documents and deleting;
    - then the lemmas, and the properties at the end. *)

From stdpp Require Import gmap strings list.
From Stdlib Require Import ZArith DecimalString DecimalNat.

Local Open Scope Z_scope.
Local Open Scope string_scope.

(* ===================================================================== *)
(** * The data model                                                      *)
(* ===================================================================== *)

Module Model.

(** A row of table [documents] (the id is the key of the table). *)
Record document_row := {
  name : string;
  path : string;
  fs_path : string;
  owner_id : Z
}.

(** The three tables.  [permissions] has UNIQUE(document_id, user_id) and
    is keyed by that pair; [users] has UNIQUE username and is keyed by it;
    [documents_seq] is the AUTOINCREMENT counter of [documents]. *)
Record database := {
  documents : gmap Z document_row;
  permissions : gmap (Z * Z) string;
  users : gmap string Z;
  documents_seq : Z
}.

(** A commit of a document repository: the snapshot [tree] maps file names
    to contents.  Hashes are opaque names; a new commit gets a name that no
    commit of the repository has. *)
Record commit := {
  hash : nat;
  message : string;
  tree : gmap string string
}.

(** The directory document_storage/doc_<id>: its files, and the git
    repository in it once [git init] has run ([commits] newest first). *)
Record repo := {
  git_dir : bool;
  worktree : gmap string string;
  index : gmap string string;
  commits : list commit
}.

(** What [git.status()] reports, as simple-git's StatusResult: the two
    lists the handlers look at. *)
Record status := {
  modified : list string;
  not_added : list string
}.

(** The state of the server process and of what it writes to.  [faults]
    is the schedule of I/O failures: every fallible call consumes one
    entry and fails when it is [true]. *)
Record world := {
  db : database;
  storage : gmap Z repo;
  gitLocks : gmap Z bool;
  faults : list bool
}.

Definition set_db (f : database -> database) (w : world) : world :=
  {| db := f (db w); storage := storage w; gitLocks := gitLocks w; faults := faults w |}.
Definition set_storage (f : gmap Z repo -> gmap Z repo) (w : world) : world :=
  {| db := db w; storage := f (storage w); gitLocks := gitLocks w; faults := faults w |}.
Definition set_gitLocks (f : gmap Z bool -> gmap Z bool) (w : world) : world :=
  {| db := db w; storage := storage w; gitLocks := f (gitLocks w); faults := faults w |}.
Definition set_faults (fs : list bool) (w : world) : world :=
  {| db := db w; storage := storage w; gitLocks := gitLocks w; faults := fs |}.

(** ** git, as far as the handlers use it *)

Definition empty_dir : repo :=
  {| git_dir := false; worktree := ∅; index := ∅; commits := [] |}.

Definition head_tree (r : repo) : gmap string string :=
  match commits r with
  | c :: _ => tree c
  | [] => ∅
  end.

Definition fresh_hash (r : repo) : nat := S (foldr Nat.max 0%nat (hash <$> commits r)).

Definition git_init (r : repo) : repo :=
  {| git_dir := true; worktree := worktree r; index := index r; commits := commits r |}.

Definition write_file (p content : string) (r : repo) : repo :=
  {| git_dir := git_dir r; worktree := <[p := content]> (worktree r);
     index := index r; commits := commits r |}.

(** [git add p]: stage the file as it is in the working tree; a path that
    is neither there nor in the index matches nothing and is an error. *)
Definition git_add (p : string) (r : repo) : option repo :=
  match worktree r !! p with
  | Some c => Some {| git_dir := git_dir r; worktree := worktree r;
                      index := <[p := c]> (index r); commits := commits r |}
  | None =>
      match index r !! p with
      | Some _ => Some {| git_dir := git_dir r; worktree := worktree r;
                          index := delete p (index r); commits := commits r |}
      | None => None
      end
  end.

(** ** Commit messages

    Text is the bytes git gets and gives.  White space is what git's own
    [isspace] takes for it: tab, line feed, carriage return and blank. *)
Definition git_space (a : Ascii.ascii) : bool :=
  let n := Ascii.nat_of_ascii a in
  Nat.eqb n 9 || Nat.eqb n 10 || Nat.eqb n 13 || Nat.eqb n 32.

(** A line without the white space at its end. *)
Fixpoint rtrim (s : string) : string :=
  match s with
  | EmptyString => EmptyString
  | String a s' =>
      match rtrim s' with
      | EmptyString => if git_space a then EmptyString else String a EmptyString
      | t => String a t
      end
  end.

Definition newline : string := String (Ascii.ascii_of_nat 10) EmptyString.

(** The lines of a text; what follows the last line feed is a line when
    it is not empty. *)
Fixpoint lines_of (s : string) : list string :=
  match s with
  | EmptyString => []
  | String a s' =>
      if bool_decide (a = Ascii.ascii_of_nat 10) then EmptyString :: lines_of s'
      else match lines_of s' with
           | [] => [String a EmptyString]
           | l :: ls => String a l :: ls
           end
  end.

(** What [git commit -m] makes of the lines of a message that is not
    edited (its cleanup mode whitespace): the white space at the end of
    every line goes, and so do the empty lines at the start and at the
    end, and all but one of several empty lines in a row.  [started]: a
    line has been kept; [pending]: an empty line waits for the next line
    that is kept. *)
Fixpoint stripspace (started pending : bool) (ls : list string) : list string :=
  match ls with
  | [] => []
  | l :: ls' =>
      match rtrim l with
      | EmptyString => stripspace started started ls'
      | t => ((if pending then [EmptyString; t] else [t]) ++ stripspace true false ls')%list
      end
  end.

(** The message as git stores it, without the line feed at its end. *)
Definition git_cleanup (msg : string) : string :=
  String.concat newline (stripspace false false (lines_of msg)).

(** The lines of the first paragraph of a message: empty lines at the
    start are skipped, and the paragraph ends at the next empty line. *)
Fixpoint subject_lines (started : bool) (ls : list string) : list string :=
  match ls with
  | [] => []
  | l :: ls' =>
      match rtrim l with
      | EmptyString => if started then [] else subject_lines false ls'
      | t => t :: subject_lines true ls'
      end
  end.

(** The subject of a message, git's %s: the lines of its first paragraph
    joined by blanks. *)
Definition subject (msg : string) : string :=
  String.concat " " (subject_lines false (lines_of msg)).

(** A text without a line feed. *)
Fixpoint one_line (s : string) : bool :=
  match s with
  | EmptyString => true
  | String a s' => negb (bool_decide (a = Ascii.ascii_of_nat 10)) && one_line s'
  end.

(** [git commit -m msg] records the index as a new head, with the message
    cleaned up.  When the index equals the head's snapshot there is
    nothing to commit: without --allow-empty git creates no commit,
    prints its notice on the standard output and exits with 1; simple-git
    takes a non-zero exit for an error only when the standard error is
    not empty, so the promise resolves, with an empty commit name.  The
    result is the new commit's name. *)
Definition git_commit (msg : string) (allow_empty : bool) (r : repo) : repo * option nat :=
  if allow_empty || negb (bool_decide (index r = head_tree r)) then
    let h := fresh_hash r in
    ({| git_dir := git_dir r; worktree := worktree r; index := index r;
        commits := {| hash := h; message := git_cleanup msg; tree := index r |} :: commits r |},
     Some h)
  else (r, None).

(** The two columns of [git status --porcelain] for a path, reduced to
    what simple-git's parser needs: [staged_code] compares the index with
    the head, [unstaged_code] the working tree with the index. *)
Inductive code := Unchanged | Added | Deleted | Modified | Untracked.

Definition staged_code (r : repo) (p : string) : code :=
  match head_tree r !! p, index r !! p with
  | None, None => Unchanged
  | None, Some _ => Added
  | Some _, None => Deleted
  | Some a, Some b => if bool_decide (a = b) then Unchanged else Modified
  end.

Definition unstaged_code (r : repo) (p : string) : code :=
  match index r !! p, worktree r !! p with
  | None, None => Unchanged
  | None, Some _ => Untracked
  | Some _, None => Deleted
  | Some a, Some b => if bool_decide (a = b) then Unchanged else Modified
  end.

(** simple-git files a path under [modified] for the status lines
    " M", "AM", "M " and "MM", and under [not_added] for "??". *)
Definition is_modified (r : repo) (p : string) : bool :=
  match staged_code r p, unstaged_code r p with
  | (Unchanged | Added | Modified), Modified => true
  | Modified, Unchanged => true
  | _, _ => false
  end.

Definition is_not_added (r : repo) (p : string) : bool :=
  match unstaged_code r p with
  | Untracked => true
  | _ => false
  end.

Definition known_paths (r : repo) : list string :=
  elements (dom (worktree r) ∪ dom (index r) ∪ dom (head_tree r)).

Definition git_status (r : repo) : status :=
  {| modified := filter (fun p => is_modified r p = true) (known_paths r);
     not_added := filter (fun p => is_not_added r p = true) (known_paths r) |}.

Definition find_commit (h : nat) (r : repo) : option commit :=
  list_find (fun c => hash c = h) (commits r) ≫= fun ic => Some ic.2.

(** [git show <hash>:<path>]: the file's content in that commit; fails for
    an unknown commit and for a path the commit does not have. *)
Definition git_show_file (h : nat) (p : string) (r : repo) : option string :=
  find_commit h r ≫= fun c => tree c !! p.

(** [git show <hash> --format=%s --no-patch]: the subject and a line
    feed. *)
Definition git_show_subject (h : nat) (r : repo) : option string :=
  find_commit h r ≫= fun c => Some (subject (message c) ++ newline).

(** A commit as [git.log()] lists it: simple-git asks for %s and gives the
    subject for the message. *)
Definition log_entry (c : commit) : commit :=
  {| hash := hash c; message := subject (message c); tree := tree c |}.

End Model.

(* ===================================================================== *)
(** * The handler language                                                *)
(* ===================================================================== *)

Module Lang.
Import Model.

(** The calls a handler makes to its collaborators.  The index is the type
    of what the call gives back.  A query that selects by a key gives the
    row or nothing; a commit is named by a [nat], where the request
    carries the hash as a string. *)
Inductive cmd : Type -> Type :=
(* db.query *)
| SelectDocument (id : Z) : cmd (option document_row)
| SelectPermission (documentId userId : Z) : cmd (option string)
| SelectUser (username : string) : cmd (option Z)
| InsertDocument (row : document_row) : cmd Z
| InsertPermission (documentId userId : Z) (role : string) : cmd unit
| UpsertPermission (documentId userId : Z) (role : string) : cmd unit
(* fs *)
| ExistsDir (id : Z) : cmd bool
| ExistsFile (id : Z) (p : string) : cmd bool
| MkdirSync (id : Z) : cmd unit
| WriteFileSync (id : Z) (p content : string) : cmd unit
| ReadFileSync (id : Z) (p : string) : cmd string
(* simple-git *)
| SimpleGit (id : Z) : cmd unit
| GitInit (id : Z) : cmd unit
| GitAddConfig (id : Z) (key value : string) : cmd unit
| GitAdd (id : Z) (p : string) : cmd unit
| GitCommit (id : Z) (msg : string) (allow_empty : bool) : cmd (option nat)
| GitStatus (id : Z) : cmd status
| GitLog (id : Z) : cmd (list commit)
| GitShowFile (id : Z) (h : nat) (p : string) : cmd string
| GitShowSubject (id : Z) (h : nat) : cmd string
(* the gitLocks map *)
| LocksGet (id : Z) : cmd bool
| LocksSet (id : Z) : cmd unit
| LocksDelete (id : Z) : cmd unit
(* socket.io *)
| IoEmit (event : string) (userId documentId : Z) : cmd unit.

(** The calls the source awaits: every db.query and every git command.
    The fs calls are the *Sync ones, the lock map is process memory. *)
Definition awaited {X} (c : cmd X) : bool :=
  match c with
  | SelectDocument _ | SelectPermission _ _ | SelectUser _
  | InsertDocument _ | InsertPermission _ _ _ | UpsertPermission _ _ _ => true
  | GitInit _ | GitAddConfig _ _ _ | GitAdd _ _ | GitCommit _ _ _
  | GitStatus _ | GitLog _ | GitShowFile _ _ _ | GitShowSubject _ _ => true
  | _ => false
  end.

Inductive result (X : Type) : Type :=
| Ok (x : X)
| Err (e : string).
Arguments Ok {X} x.
Arguments Err {X} e.

(** Handlers: a value, a thrown exception, or a call with what follows it
    for each way the call can end. *)
Inductive prog (A : Type) : Type :=
| Ret (a : A)
| Throw (e : string)
| Op {X : Type} (c : cmd X) (k : result X -> prog A).
Arguments Ret {A} a.
Arguments Throw {A} e.
Arguments Op {A X} c k.

Fixpoint bind {A B} (p : prog A) (f : A -> prog B) : prog B :=
  match p with
  | Ret a => f a
  | Throw e => Throw e
  | Op c k => Op c (fun r => bind (k r) f)
  end.

(** try { p } catch (err) { h err } *)
Fixpoint try_catch {A} (p : prog A) (h : string -> prog A) : prog A :=
  match p with
  | Ret a => Ret a
  | Throw e => h e
  | Op c k => Op c (fun r => try_catch (k r) h)
  end.

(** A call whose failure is thrown. *)
Definition call {X} (c : cmd X) : prog X :=
  Op c (fun r => match r with Ok x => Ret x | Err e => Throw e end).

Declare Scope prog_scope.
Delimit Scope prog_scope with prog.
Notation "x <- p ;; q" := (bind p (fun x => q))
  (at level 100, p at next level, right associativity) : prog_scope.
Notation "p ;; q" := (bind p (fun _ => q))
  (at level 100, right associativity) : prog_scope.

(** ** What the calls do *)

(** The next entry of the failure schedule; an exhausted schedule means no
    failure. *)
Definition pop_fault (w : world) : bool * world :=
  match faults w with
  | b :: fs => (b, set_faults fs w)
  | [] => (false, w)
  end.

(** A call that I/O can fail: it either fails with [e], having done
    nothing, or acts. *)
Definition fallible {X} (e : string) (w : world) (act : world -> result X * world)
  : result X * world :=
  let '(b, w') := pop_fault w in
  if b then (Err e, w') else act w'.

(** A git command runs in the directory of the document; the directory has
    to exist and to hold a repository. *)
Definition in_repo {X} (id : Z) (w : world) (act : repo -> result X * repo)
  : result X * world :=
  match storage w !! id with
  | Some r =>
      if git_dir r then
        let '(x, r') := act r in (x, set_storage (insert id r') w)
      else (Err "fatal: not a git repository", w)
  | None => (Err "ENOENT", w)
  end.

Definition of_option {X} (e : string) (o : option X) : result X :=
  match o with
  | Some x => Ok x
  | None => Err e
  end.

(** The truth value of [gitLocks.get(id)]. *)
Definition saving (w : world) (id : Z) : bool :=
  match gitLocks w !! id with
  | Some b => b
  | None => false
  end.

(** [fs_path TEXT UNIQUE NOT NULL] of table [documents]. *)
Definition fs_path_taken (d : database) (p : string) : bool :=
  bool_decide (Exists (fun kv => fs_path kv.2 = p) (map_to_list (documents d))).

(** [CHECK (role IN ('owner', 'writer', 'reader'))] of table
    [permissions]. *)
Definition role_allowed (role : string) : bool :=
  bool_decide (role = "owner") || bool_decide (role = "writer") || bool_decide (role = "reader").

(** The calls, one by one.  The queries are those of the handlers, against
    the schema of [initializeDatabase]; SQLite leaves the REFERENCES
    clauses unenforced, as db.js does not turn them on.  The upsert of
    the share handler names $3 twice and db.js makes a ? of each, so that
    the statement has four parameters for the three values it is given:
    the one of DO UPDATE SET role = ? stays NULL, and for a pair that has
    a row the update fails NOT NULL.  [existsSync] cannot fail,
    [simpleGit(docPath)] fails exactly when the directory is missing, git
    turns down a commit whose message is empty once it is cleaned up, and
    the lock map is a Map of the process. *)
Definition exec {X} (c : cmd X) (w : world) : result X * world :=
  match c in cmd X return result X * world with
  | SelectDocument id =>
      fallible "SQLITE_ERROR" w (fun w => (Ok (documents (db w) !! id), w))
  | SelectPermission documentId userId =>
      fallible "SQLITE_ERROR" w (fun w => (Ok (permissions (db w) !! (documentId, userId)), w))
  | SelectUser username =>
      fallible "SQLITE_ERROR" w (fun w => (Ok (users (db w) !! username), w))
  | InsertDocument row =>
      fallible "SQLITE_ERROR" w (fun w =>
        let d := db w in
        let id := documents_seq d + 1 in
        if fs_path_taken d (fs_path row) then
          (Err "SQLITE_CONSTRAINT: UNIQUE constraint failed: documents.fs_path", w)
        else if bool_decide (is_Some (documents d !! id)) then
          (Err "SQLITE_CONSTRAINT: UNIQUE constraint failed: documents.id", w)
        else
          (Ok id, set_db (fun d => {| documents := <[id := row]> (documents d);
                                      permissions := permissions d;
                                      users := users d;
                                      documents_seq := id |}) w))
  | InsertPermission documentId userId role =>
      fallible "SQLITE_ERROR" w (fun w =>
        let d := db w in
        if negb (role_allowed role) then
          (Err "SQLITE_CONSTRAINT: CHECK constraint failed: role", w)
        else if bool_decide (is_Some (permissions d !! (documentId, userId))) then
          (Err "SQLITE_CONSTRAINT: UNIQUE constraint failed: permissions", w)
        else
          (Ok (), set_db (fun d => {| documents := documents d;
                                      permissions := <[(documentId, userId) := role]> (permissions d);
                                      users := users d;
                                      documents_seq := documents_seq d |}) w))
  | UpsertPermission documentId userId role =>
      fallible "SQLITE_ERROR" w (fun w =>
        let d := db w in
        if negb (role_allowed role) then
          (Err "SQLITE_CONSTRAINT: CHECK constraint failed: role", w)
        else if bool_decide (is_Some (permissions d !! (documentId, userId))) then
          (Err "SQLITE_CONSTRAINT: NOT NULL constraint failed: permissions.role", w)
        else
          (Ok (), set_db (fun d => {| documents := documents d;
                                      permissions := <[(documentId, userId) := role]> (permissions d);
                                      users := users d;
                                      documents_seq := documents_seq d |}) w))
  | ExistsDir id => (Ok (bool_decide (is_Some (storage w !! id))), w)
  | ExistsFile id p =>
      (Ok (match storage w !! id with
           | Some r => bool_decide (is_Some (worktree r !! p))
           | None => false
           end), w)
  | MkdirSync id =>
      fallible "EIO" w (fun w =>
        match storage w !! id with
        | Some _ => (Ok (), w)
        | None => (Ok (), set_storage (insert id empty_dir) w)
        end)
  | WriteFileSync id p content =>
      fallible "EIO" w (fun w =>
        match storage w !! id with
        | Some r => (Ok (), set_storage (insert id (write_file p content r)) w)
        | None => (Err "ENOENT", w)
        end)
  | ReadFileSync id p =>
      fallible "EIO" w (fun w =>
        (of_option "ENOENT" (storage w !! id ≫= fun r => worktree r !! p), w))
  | SimpleGit id =>
      (if bool_decide (is_Some (storage w !! id)) then Ok ()
       else Err "Cannot use simple-git on a directory that does not exist", w)
  | GitInit id =>
      fallible "git error" w (fun w =>
        match storage w !! id with
        | Some r => (Ok (), set_storage (insert id (git_init r)) w)
        | None => (Err "ENOENT", w)
        end)
  | GitAddConfig id _ _ =>
      fallible "git error" w (fun w => in_repo id w (fun r => (Ok (), r)))
  | GitAdd id p =>
      fallible "git error" w (fun w => in_repo id w (fun r =>
        match git_add p r with
        | Some r' => (Ok (), r')
        | None => (Err "fatal: pathspec did not match any files", r)
        end))
  | GitCommit id msg allow_empty =>
      fallible "git error" w (fun w => in_repo id w (fun r =>
        let '(r', h) := git_commit msg allow_empty r in
        if bool_decide (is_Some h) && bool_decide (git_cleanup msg = "")
        then (Err "Aborting commit due to empty commit message.", r)
        else (Ok h, r')))
  | GitStatus id =>
      fallible "git error" w (fun w => in_repo id w (fun r => (Ok (git_status r), r)))
  | GitLog id =>
      fallible "git error" w (fun w => in_repo id w (fun r =>
        match commits r with
        | [] => (Err "fatal: your current branch does not have any commits yet", r)
        | cs => (Ok (log_entry <$> cs), r)
        end))
  | GitShowFile id h p =>
      fallible "git error" w (fun w => in_repo id w (fun r =>
        (of_option "fatal: invalid object name" (git_show_file h p r), r)))
  | GitShowSubject id h =>
      fallible "git error" w (fun w => in_repo id w (fun r =>
        (of_option "fatal: bad object" (git_show_subject h r), r)))
  | LocksGet id => (Ok (saving w id), w)
  | LocksSet id => (Ok (), set_gitLocks (insert id true) w)
  | LocksDelete id => (Ok (), set_gitLocks (delete id) w)
  | IoEmit _ _ _ => (Ok (), w)
  end.

(** A handler run from start to end with nothing else scheduled in
    between. *)
Fixpoint run {A} (p : prog A) (w : world) : result A * world :=
  match p with
  | Ret a => (Ok a, w)
  | Throw e => (Err e, w)
  | Op c k => let '(r, w') := exec c w in run (k r) w'
  end.

End Lang.

(* ===================================================================== *)
(** * The handlers of server.js                                           *)
(* ===================================================================== *)

Module Server.
Import Model Lang.
Local Open Scope prog_scope.

(** What a handler answers: [res.json(..)], [res.status(n).json(..)] or
    [res.status(n).send(..)]. *)
Inductive payload :=
| Success
| SuccessQueued
| Error (msg : string)
| Text (s : string)
| DocumentJson (id : Z) (row : document_row)
| ContentJson (content : string) (role : option string)
| HistoryJson (all : list commit).

Record response := { http_status : nat; body : payload }.

Definition json (b : payload) : response := {| http_status := 200; body := b |}.
Definition status_json (n : nat) (b : payload) : response := {| http_status := n; body := b |}.
Definition status_send (n : nat) (s : string) : response := {| http_status := n; body := Text s |}.

Definition forbidden_message : string :=
  "Forbidden: You do not have write permission for this document".

(** [const filename = 'document.md']: the file of every document, in its
    own repository. *)
Definition filename : string := "document.md".

(** Array.prototype.includes *)
Definition includes (p : string) (l : list string) : bool := bool_decide (p ∈ l).

(** ASCII text: no byte is 0 or above 127.  There a byte of the text is a
    character of the JavaScript string, and [trim] and [substring] below
    are the methods of String.prototype; the properties that rest on them
    are stated for ASCII text. *)
Fixpoint ascii_text (s : string) : bool :=
  match s with
  | EmptyString => true
  | String a s' =>
      let n := Ascii.nat_of_ascii a in
      Nat.ltb 0 n && Nat.ltb n 128 && ascii_text s'
  end.

(** Printable ASCII, from the blank to the tilde. *)
Fixpoint printable (s : string) : bool :=
  match s with
  | EmptyString => true
  | String a s' =>
      let n := Ascii.nat_of_ascii a in
      Nat.leb 32 n && Nat.leb n 126 && printable s'
  end.

(** String.prototype.trim, on ASCII text: its white space there. *)
Definition is_space (a : Ascii.ascii) : bool :=
  let n := Ascii.nat_of_ascii a in
  Nat.eqb n 32 || (Nat.leb 9 n && Nat.leb n 13).

Fixpoint trim_start (s : string) : string :=
  match s with
  | EmptyString => EmptyString
  | String a s' => if is_space a then trim_start s' else s
  end.

Fixpoint trim_end (s : string) : string :=
  match s with
  | EmptyString => EmptyString
  | String a s' =>
      match trim_end s' with
      | EmptyString => if is_space a then EmptyString else String a EmptyString
      | t => String a t
      end
  end.

Definition trim (s : string) : string := trim_end (trim_start s).

(** [initDocumentRepo] *)
Definition initDocumentRepo (docId : Z) : prog unit :=
  present <- call (ExistsDir docId) ;;
  (if negb present then call (MkdirSync docId) else Ret ()) ;;
  call (SimpleGit docId) ;;
  call (GitInit docId) ;;
  call (GitAddConfig docId "user.name" "Collaboration Docs Bot") ;;
  call (GitAddConfig docId "user.email" "bot@collaboration-docs.local") ;;
  Ret ().

(** POST /api/documents *)
Definition createDocument (name : string) (userId : Z) : prog response :=
  try_catch
    (let row := {| Model.name := name; path := "/"; fs_path := filename; owner_id := userId |} in
     docId <- call (InsertDocument row) ;;
     initDocumentRepo docId ;;
     call (WriteFileSync docId filename "") ;;
     call (GitAdd docId filename) ;;
     call (GitCommit docId ("Create document " ++ name) false) ;;
     call (InsertPermission docId userId "owner") ;;
     Ret (json (DocumentJson docId row)))
    (fun err => Ret (status_json 500 (Error err))).

(** [getUserDocumentRole]; [None] is JavaScript's null, and [==] compares
    two numbers. *)
Definition getUserDocumentRole (userId documentId : Z) : prog (option string) :=
  try_catch
    (ownerRes <- call (SelectDocument documentId) ;;
     match ownerRes with
     | None => Ret None
     | Some row =>
         if bool_decide (owner_id row = userId) then Ret (Some "owner")
         else
           permRes <- call (SelectPermission documentId userId) ;;
           match permRes with
           | Some role => Ret (Some role)
           | None => Ret None
           end
     end)
    (fun err => Ret None).

(** GET /api/documents/:id/content *)
Definition getContent (id userId : Z) : prog response :=
  try_catch
    (docRes <- call (SelectDocument id) ;;
     match docRes with
     | None => Ret (status_send 404 "Doc not found")
     | Some row =>
         role <- getUserDocumentRole userId id ;;
         let fsPath := fs_path row in
         present <- call (ExistsFile id fsPath) ;;
         content <- (if present then call (ReadFileSync id fsPath) else Ret "") ;;
         Ret (json (ContentJson content role))
     end)
    (fun err => Ret (status_json 500 (Error err))).

(** GET /api/documents/:id/history *)
Definition history (id : Z) : prog response :=
  try_catch
    (docRes <- call (SelectDocument id) ;;
     match docRes with
     | None => Ret (status_send 404 "Doc not found")
     | Some _ =>
         call (SimpleGit id) ;;
         log <- call (GitLog id) ;;
         Ret (json (HistoryJson log))
     end)
    (fun err => Ret (status_json 500 (Error err))).

(** POST /api/documents/:id/rollback, with [hash] from the body.  The
    subject that [git.show] gives is taken for ASCII text, on which [trim]
    and [String.substring] are the methods of the JavaScript string. *)
Definition rollback (id : Z) (hash : nat) : prog response :=
  try_catch
    (docRes <- call (SelectDocument id) ;;
     match docRes with
     | None => Ret (status_send 404 "Doc not found")
     | Some row =>
         let fsPath := fs_path row in
         call (SimpleGit id) ;;
         currentLog <- call (GitLog id) ;;
         fileContent <- try_catch (call (GitShowFile id hash fsPath))
                                  (fun showErr => Ret "") ;;
         present <- call (ExistsFile id fsPath) ;;
         currentContent <- (if present then call (ReadFileSync id fsPath) else Ret "") ;;
         call (WriteFileSync id fsPath fileContent) ;;
         commitMessage <-
           try_catch
             (commitInfo <- call (GitShowSubject id hash) ;;
              Ret ("Revert to: " ++ String.substring 0 50 (trim commitInfo)))
             (fun err => Ret "Revert to previous version") ;;
         call (GitAdd id fsPath) ;;
         status <- call (GitStatus id) ;;
         let hasChanges :=
           includes fsPath (modified status) ||
           includes fsPath (not_added status) ||
           negb (bool_decide (currentContent = fileContent)) in
         (if hasChanges
          then call (GitCommit id commitMessage false)
          else call (GitCommit id commitMessage true)) ;;
         Ret (json Success)
     end)
    (fun err => Ret (status_json 500 (Error err))).

(** POST /api/documents/:id/share *)
Definition share (id : Z) (username role : string) : prog response :=
  try_catch
    (userRes <- call (SelectUser username) ;;
     match userRes with
     | None => Ret (status_json 404 (Error "User not found"))
     | Some targetUserId =>
         docRes <- call (SelectDocument id) ;;
         call (UpsertPermission id targetUserId role) ;;
         call (IoEmit "document-shared" targetUserId id) ;;
         Ret (json Success)
     end)
    (fun err => Ret (status_json 500 (Error err))).

(** [!role || (role !== 'owner' && role !== 'writer')] *)
Definition may_not_write (role : option string) : bool :=
  match role with
  | None => true
  | Some r =>
      bool_decide (r = "") ||
      (negb (bool_decide (r = "owner")) && negb (bool_decide (r = "writer")))
  end.

(** POST /api/documents/:id/save, from [gitLocks.set(id, true)] on: the
    try block and its catch. *)
Definition save_locked (id : Z) (content : string) : prog response :=
  try_catch
    (docRes <- call (SelectDocument id) ;;
     match docRes with
     | None =>
         call (LocksDelete id) ;;
         Ret (status_send 404 "Doc not found")
     | Some row =>
         let fsPath := fs_path row in
         call (WriteFileSync id fsPath content) ;;
         call (SimpleGit id) ;;
         status <- call (GitStatus id) ;;
         (if includes fsPath (modified status) || includes fsPath (not_added status)
          then call (GitAdd id fsPath) ;;
               call (GitCommit id "Update document" false) ;;
               Ret ()
          else Ret ()) ;;
         call (LocksDelete id) ;;
         Ret (json Success)
     end)
    (fun err =>
       call (LocksDelete id) ;;
       Ret (status_json 500 (Error err))).

(** POST /api/documents/:id/save *)
Definition save (id : Z) (content : string) (userId : Z) : prog response :=
  role <- getUserDocumentRole userId id ;;
  if may_not_write role then
    Ret (status_json 403 (Error forbidden_message))
  else
    saving <- call (LocksGet id) ;;
    if saving then Ret (json SuccessQueued)
    else
      call (LocksSet id) ;;
      save_locked id content.

(** ** What the properties are stated with *)

(** What [getUserDocumentRole] computes when the database answers. *)
Definition role_of (d : database) (userId documentId : Z) : option string :=
  match documents d !! documentId with
  | None => None
  | Some row =>
      if bool_decide (owner_id row = userId) then Some "owner"
      else permissions d !! (documentId, userId)
  end.

(** The file [p] is the only one that can be staged: elsewhere the index
    is the head's snapshot.  The handlers stage nothing but the document's
    file. *)
Definition tidy (p : string) (r : repo) : Prop :=
  forall q, q <> p -> index r !! q = head_tree r !! q.

(** The repository of a document that was just created. *)
Definition created_repo (name : string) : repo :=
  {| git_dir := true;
     worktree := {[ filename := "" ]};
     index := {[ filename := "" ]};
     commits := [ {| hash := 1; message := git_cleanup ("Create document " ++ name);
                     tree := {[ filename := "" ]} |} ] |}.

(** A create request that is turned down: an answer that is an error, and
    neither the database nor the storage changed. *)
Definition create_refused (name : string) (userId : Z) (w : world) : Prop :=
  exists res w',
    run (createDocument name userId) w = (Ok res, w') /\
    http_status res <> 200%nat /\
    db w' = db w /\ storage w' = storage w.

(** ** One file per repository

    Every row of [documents] names the same file, and no repository stages
    another one: [uniform] holds of the empty system and the handlers keep
    it ([proper] is what their calls have in common). *)
Definition uniform (w : world) : Prop :=
  (forall i row, documents (db w) !! i = Some row -> fs_path row = filename) /\
  (forall i r, storage w !! i = Some r -> tidy filename r).

Definition proper_call {X} (c : cmd X) : Prop :=
  match c with
  | GitAdd _ p => p = filename
  | InsertDocument row => fs_path row = filename
  | _ => True
  end.

Definition uniform_answer {X} (c : cmd X) : result X -> Prop :=
  match c in cmd X return result X -> Prop with
  | SelectDocument _ =>
      fun r => match r with
               | Ok (Some row) => fs_path row = filename
               | _ => True
               end
  | _ => fun _ => True
  end.

Fixpoint proper {A} (p : prog A) : Prop :=
  match p with
  | Op c k => proper_call c /\ forall r, uniform_answer c r -> proper (k r)
  | _ => True
  end.

End Server.

(* ===================================================================== *)
(** * The client's create handler (src/main.js)                           *)
(* ===================================================================== *)

Module Client.
Import Model Lang Server.
Local Open Scope prog_scope.

(** What a toast of [showAlert] shows: a text of the page, or the body of
    an answer as the server sent it ([api] throws
    [new Error(await res.text())], the body unparsed). *)
Inductive toast :=
| Literal (s : string)
| RawBody (b : payload).

Record alert := { alert_message : toast; alert_type : string }.

(** The click handler of #create-doc-btn: [if (!name) return;], then the
    POST through [api], which throws when the answer is not ok. *)
Definition create_doc_btn (name : string) (userId : Z) : prog (option alert) :=
  if bool_decide (name = "") then Ret None
  else
    res <- createDocument name userId ;;
    if Nat.leb 200 (http_status res) && Nat.ltb (http_status res) 300
    then Ret (Some {| alert_message := Literal "Document created successfully";
                      alert_type := "success" |})
    else Ret (Some {| alert_message := RawBody (body res); alert_type := "error" |}).

End Client.

(* ===================================================================== *)
(** * Two requests on the event loop                                      *)
(* ===================================================================== *)

Module Sched.
Import Model Lang Server.

(** Node runs the handlers on one thread.  A handler gives up the event
    loop only at an [await]; when the awaited call completes, the handler
    runs on, with nothing in between, to its next [await] or to its end.
    Other requests run in the meantime.  A run of two requests is then a
    list of turns, and every call leaves an event in the trace of the
    run. *)

(** What a call did, for the record of a run. *)
Inductive event :=
| LockSeen (id : Z) (held : bool)
| LockTaken (id : Z)
| LockReleased (id : Z)
| FileWritten (id : Z)
| StatusRead (id : Z)
| Staged (id : Z)
| CommitRun (id : Z) (created : bool)
| Quiet.

Definition event_of {X} (c : cmd X) : result X -> event :=
  match c in cmd X return result X -> event with
  | LocksGet id => fun r => match r with Ok b => LockSeen id b | Err _ => Quiet end
  | LocksSet id => fun r => match r with Ok _ => LockTaken id | Err _ => Quiet end
  | LocksDelete id => fun r => match r with Ok _ => LockReleased id | Err _ => Quiet end
  | WriteFileSync id _ _ => fun r => match r with Ok _ => FileWritten id | Err _ => Quiet end
  | GitStatus id => fun r => match r with Ok _ => StatusRead id | Err _ => Quiet end
  | GitAdd id _ => fun r => match r with Ok _ => Staged id | Err _ => Quiet end
  | GitCommit id _ _ =>
      fun r => match r with Ok h => CommitRun id (bool_decide (is_Some h)) | Err _ => Quiet end
  | _ => fun _ => Quiet
  end.

(** The two requests in flight. *)
Inductive task_id := First | Second.

Global Instance task_id_eq_dec : EqDecision task_id.
Proof. solve_decision. Defined.

Definition trace := list (task_id * event).

(** A task that has the event loop keeps it through its synchronous calls
    and gives it up at the next awaited call, or when it ends. *)
Fixpoint run_sync {A} (t : task_id) (p : prog A) (w : world) : prog A * world * trace :=
  match p with
  | Op c k =>
      if awaited c then (p, w, [])
      else
        let '(r, w1) := exec c w in
        let '(p', w2, tr) := run_sync t (k r) w1 in
        (p', w2, (t, event_of c r) :: tr)
  | _ => (p, w, [])
  end.

(** One turn of a task: the call it was suspended on completes, and the
    task goes on to its next awaited call. *)
Definition resume {A} (t : task_id) (p : prog A) (w : world) : prog A * world * trace :=
  match p with
  | Op c k =>
      let '(r, w1) := exec c w in
      let '(p', w2, tr) := run_sync t (k r) w1 in
      (p', w2, (t, event_of c r) :: tr)
  | _ => (p, w, [])
  end.

Record config := {
  first : prog response;
  second : prog response;
  state : world
}.

Definition turn (t : task_id) (c : config) : config * trace :=
  match t with
  | First =>
      let '(p, w, tr) := resume First (first c) (state c) in
      ({| first := p; second := second c; state := w |}, tr)
  | Second =>
      let '(p, w, tr) := resume Second (second c) (state c) in
      ({| first := first c; second := p; state := w |}, tr)
  end.

(** The run of two requests under a schedule: whose turn it is, turn after
    turn. *)
Fixpoint interleave (sched : list task_id) (c : config) : config * trace :=
  match sched with
  | [] => (c, [])
  | t :: sched' =>
      let '(c1, tr1) := turn t c in
      let '(c2, tr2) := interleave sched' c1 in
      (c2, (tr1 ++ tr2)%list)
  end.

(** The answer of a request that has ended. *)
Definition answer (p : prog response) : option response :=
  match p with
  | Ret r => Some r
  | _ => None
  end.

Definition task (t : task_id) (c : config) : prog response :=
  match t with
  | First => first c
  | Second => second c
  end.

(** ** Phases and actions

    What one request does with the lock of document [id], as the phases it
    goes through: outside the lock; having just seen it free; holding it
    (with or without its commit run); having released it; or having seen it
    taken, which ends the request. *)
Inductive phase := Outside | Tested | Holding (committed : bool) | Leaving | Coalesced.

Inductive action := Nothing | Seen (held : bool) | Taken | Released | Touched | Commit.

Definition classify (id : Z) (e : event) : action :=
  match e with
  | LockSeen i held => if decide (i = id) then Seen held else Nothing
  | LockTaken i => if decide (i = id) then Taken else Nothing
  | LockReleased i => if decide (i = id) then Released else Nothing
  | FileWritten i | StatusRead i | Staged i => if decide (i = id) then Touched else Nothing
  | CommitRun i _ => if decide (i = id) then Commit else Nothing
  | Quiet => Nothing
  end.

(** ** Reading a trace *)

(** The lock of document [id] is used exclusively along a trace, from a
    moment at which [holder] has it: the lock is taken only when nobody has
    it, a test of the lock answers whether somebody has it, and the
    document's file and repository are touched by the holder only. *)
Fixpoint exclusive (id : Z) (holder : option task_id) (tr : trace) : bool :=
  match tr with
  | [] => true
  | (t, e) :: tr' =>
      match e with
      | LockSeen i held =>
          (if bool_decide (i = id) then bool_decide (held = bool_decide (is_Some holder)) else true)
          && exclusive id holder tr'
      | LockTaken i =>
          if bool_decide (i = id)
          then bool_decide (holder = None) && exclusive id (Some t) tr'
          else exclusive id holder tr'
      | LockReleased i =>
          if bool_decide (i = id)
          then bool_decide (holder = Some t) && exclusive id None tr'
          else exclusive id holder tr'
      | FileWritten i | StatusRead i | Staged i | CommitRun i _ =>
          (if bool_decide (i = id) then bool_decide (holder = Some t) else true)
          && exclusive id holder tr'
      | Quiet => exclusive id holder tr'
      end
  end.

(** One step of [exclusive], by what the event does to the lock. *)
Definition watched (h : option task_id) (t : task_id) (a : action) : bool * option task_id :=
  match a with
  | Nothing => (true, h)
  | Seen held => (bool_decide (held = bool_decide (is_Some h)), h)
  | Taken => (bool_decide (h = None), Some t)
  | Released => (bool_decide (h = Some t), None)
  | Touched | Commit => (bool_decide (h = Some t), h)
  end.

Definition touches (id : Z) (e : event) : bool :=
  match e with
  | FileWritten i | StatusRead i | Staged i | CommitRun i _ => bool_decide (i = id)
  | _ => false
  end.

(** The task did nothing to the document's file and repository. *)
Definition idle (id : Z) (t : task_id) (tr : trace) : bool :=
  forallb (fun te => negb (bool_decide (te.1 = t) && touches id te.2)) tr.

(** Some test of the lock found a save in flight. *)
Definition overlapped (id : Z) (tr : trace) : bool :=
  existsb (fun te => match te.2 with
                     | LockSeen i held => bool_decide (i = id) && held
                     | _ => false
                     end) tr.

(** The commits that the trace records as created in the repository of
    document [id]. *)
Fixpoint commits_created (id : Z) (tr : trace) : nat :=
  match tr with
  | [] => 0%nat
  | (_, CommitRun i true) :: tr' =>
      ((if bool_decide (i = id) then 1 else 0) + commits_created id tr')%nat
  | _ :: tr' => commits_created id tr'
  end.

Definition commits_of (w : world) (id : Z) : list commit :=
  match storage w !! id with
  | Some r => commits r
  | None => []
  end.

(** ** The discipline of the save lock *)

(** The moves of a request from a phase; [None] is a move out of the
    discipline. *)
Definition next (ph : phase) (a : action) : option phase :=
  match ph, a with
  | Outside, Nothing => Some Outside
  | Outside, Seen true => Some Coalesced
  | Outside, Seen false => Some Tested
  | Tested, Taken => Some (Holding false)
  | Holding b, (Nothing | Touched) => Some (Holding b)
  | Holding false, Commit => Some (Holding true)
  | Holding _, Released => Some Leaving
  | Leaving, Nothing => Some Leaving
  | _, _ => None
  end.

Definition holding (ph : phase) : bool :=
  match ph with
  | Holding _ => true
  | _ => false
  end.

(** The calls that can fail. *)
Definition can_fail {X} (c : cmd X) : bool :=
  match c with
  | LocksGet _ | LocksSet _ | LocksDelete _ | ExistsDir _ | ExistsFile _ _ | IoEmit _ _ _ => false
  | _ => true
  end.

(** A handler keeps the discipline from phase [ph] on when, whatever its
    calls give back, it moves through the phases only, never gives up the
    event loop between seeing the lock free and taking it, ends only
    outside the lock, and answers a request that found the lock taken with
    { success: true, queued: true }, at once. *)
Fixpoint disciplined (id : Z) (ph : phase) (p : prog response) : Prop :=
  match p with
  | Ret res =>
      match ph with
      | Outside | Leaving => body res <> SuccessQueued
      | Coalesced => res = json SuccessQueued
      | _ => False
      end
  | Throw _ => False
  | Op c k =>
      (ph = Tested -> awaited c = false) /\
      ph <> Coalesced /\
      (forall x, match next ph (classify id (event_of c (Ok x))) with
                 | Some ph' => disciplined id ph' (k (Ok x))
                 | None => False
                 end) /\
      (can_fail c = true ->
       forall e, match next ph Nothing with
                 | Some ph' => disciplined id ph' (k (Err e))
                 | None => False
                 end)
  end.

(** The phases of the two requests, and the check of a trace against the
    discipline: every event is a move of its task, a test of the lock
    answers whether the other task holds it, and the lock is taken only
    when the other task does not hold it. *)
Definition phases : Type := phase * phase.

Definition get (t : task_id) (m : phases) : phase :=
  match t with
  | First => m.1
  | Second => m.2
  end.

Definition set (t : task_id) (ph : phase) (m : phases) : phases :=
  match t with
  | First => (ph, m.2)
  | Second => (m.1, ph)
  end.

Definition other (t : task_id) : task_id :=
  match t with
  | First => Second
  | Second => First
  end.

Definition admits (a : action) (other_holds : bool) : bool :=
  match a with
  | Seen held => bool_decide (held = other_holds)
  | Taken => negb other_holds
  | _ => true
  end.

Fixpoint monitor (id : Z) (m : phases) (tr : trace) : option phases :=
  match tr with
  | [] => Some m
  | (t, e) :: tr' =>
      let a := classify id e in
      if admits a (holding (get (other t) m)) then
        match next (get t m) a with
        | Some ph' => monitor id (set t ph' m) tr'
        | None => None
        end
      else None
  end.

Definition holder (m : phases) : option task_id :=
  if holding m.1 then Some First
  else if holding m.2 then Some Second
  else None.

(** Phases in which a request has not touched the document. *)
Definition passive (ph : phase) : bool :=
  match ph with
  | Outside | Coalesced => true
  | _ => false
  end.

(** What a request in a phase can still add to the history, counting a
    coalesced request for the commit it gave up. *)
Definition potential (ph : phase) : nat :=
  match ph with
  | Holding true | Leaving => 0
  | _ => 1
  end.

(** ** The lock and the phases

    What the lock map must hold for the phases of the requests: for one
    request that runs alone ([alone]); for two requests while task [t] has
    the event loop ([inv]) and between two turns ([settled], [kept]). *)
Definition alone (id : Z) (ph : phase) (w : world) : Prop :=
  match ph with
  | Outside | Tested | Leaving => gitLocks w !! id = None
  | Holding _ => True
  | Coalesced => False
  end.

Definition inv (id : Z) (w : world) (m : phases) (t : task_id) : Prop :=
  get (other t) m <> Tested /\
  saving w id = holding (get t m) || holding (get (other t) m) /\
  holding (get t m) && holding (get (other t) m) = false /\
  (get t m = Tested -> saving w id = false).

Definition settled (id : Z) (w : world) (m : phases) : Prop :=
  m.1 <> Tested /\ m.2 <> Tested /\
  saving w id = holding m.1 || holding m.2 /\
  holding m.1 && holding m.2 = false.

Definition kept (id : Z) (m : phases) (c : config) : Prop :=
  settled id (state c) m /\ disciplined id m.1 (first c) /\ disciplined id m.2 (second c).

(** By how much an event lengthens the history of document [id]. *)
Definition grown (id : Z) (e : event) : nat :=
  match e with
  | CommitRun i true => if bool_decide (i = id) then 1 else 0
  | _ => 0
  end.

(** A trace without the calls that leave no mark. *)
Definition visible (tr : trace) : trace :=
  List.filter (fun te => match te.2 with Quiet => false | _ => true end) tr.

(** Whatever the schedule, the two requests add one commit at most to the
    history of document [id]. *)
Definition never_two_commits (id : Z) (start : config) : Prop :=
  forall sched, (commits_created id (interleave sched start).2 <= 1)%nat.

End Sched.

(* ===================================================================== *)
(** * A document's life, for the examples                                 *)
(* ===================================================================== *)

Module Scenario.
Import Model Lang Server Sched.

Definition hashes (w : world) (id : Z) : list nat := hash <$> commits_of w id.
Definition messages (w : world) (id : Z) : list string := message <$> commits_of w id.

(** The document's content in every commit of its history, newest first. *)
Definition contents (w : world) (id : Z) : list (option string) :=
  (fun c => tree c !! filename) <$> commits_of w id.

(** The document's content on disk. *)
Definition file (w : world) (id : Z) : option string :=
  storage w !! id ≫= fun r => worktree r !! filename.

(** Three users, no document yet, no I/O failure ahead. *)
Definition fresh : world :=
  {| db := {| documents := ∅; permissions := ∅;
              users := {[ "u1" := 1; "u2" := 2; "u3" := 3 ]};
              documents_seq := 0 |};
     storage := ∅; gitLocks := ∅; faults := [] |}.

(** u1 creates "Notes" (document 1, commit 1) and saves "Hello" (commit 2). *)
Definition created : world := (run (createDocument "Notes" 1) fresh).2.
Definition saved : world := (run (save 1 "Hello" 1) created).2.

(** u1 shares the document with u2, as a reader. *)
Definition shared : world := (run (share 1 "u2" "reader") saved).2.

(** u1 creates "Notes" and the last query of the request fails, the
    insert of the owner's grant (its ninth fallible call): the document
    has its row, with u1 for the owner, and no row of [permissions]. *)
Definition ungranted : world :=
  (run (createDocument "Notes" 1)
       (set_faults [false; false; false; false; false; false; false; false; true] fresh)).2.

(** u1 saves "Hello World", and [git.status()] fails once the file is
    written: the fourth fallible call of the request. *)
Definition unsaved : world :=
  (run (save 1 "Hello World" 1) (set_faults [false; false; false; true] saved)).2.

(** A save of u1 and a rollback to commit 1 in flight together; the
    rollback gets the event loop after the save has written the file. *)
Definition race_start : config :=
  {| first := save 1 "Hello World" 1; second := rollback 1 1; state := saved |}.
Definition race_schedule : list task_id :=
  [First; First; Second; Second; Second; Second; Second; Second; Second;
   First; First; First].

(** Two saves of u1 in flight together. *)
Definition twin_start : config :=
  {| first := save 1 "Hello World" 1; second := save 1 "Bye" 1; state := saved |}.
Definition twin_schedule : list task_id :=
  [First; Second; First; First; First; First; Second].

End Scenario.

(* ===================================================================== *)
(** * The requests, and what their handlers have in common                *)
(* ===================================================================== *)

Module Requests.
Import Model Lang Server Sched.

(** The requests served by the handlers of [Server]. *)
Inductive request :=
| PostDocument (name : string) (userId : Z)
| GetContent (id userId : Z)
| GetHistory (id : Z)
| PostRollback (id : Z) (hash : nat)
| PostShare (id : Z) (username role : string)
| PostSave (id : Z) (content : string) (userId : Z).

Definition handler (q : request) : prog response :=
  match q with
  | PostDocument name userId => createDocument name userId
  | GetContent id userId => getContent id userId
  | GetHistory id => history id
  | PostRollback id hash => rollback id hash
  | PostShare id username role => share id username role
  | PostSave id content userId => save id content userId
  end.

(** The database, the storage and the lock map of [w'] are those of [w]:
    the two states differ in the failures ahead at most. *)
Definition unchanged (w w' : world) : Prop :=
  db w' = db w /\ storage w' = storage w /\ gitLocks w' = gitLocks w.

(** ** Exceptions *)

(** No exception leaves the handler: a call that can fail is followed, on
    its failure, by a handler that catches. *)
Fixpoint catches {A} (p : prog A) : Prop :=
  match p with
  | Ret _ => True
  | Throw _ => False
  | Op c k =>
      (forall x, catches (k (Ok x))) /\
      (can_fail c = true -> forall e, catches (k (Err e)))
  end.

(** Every answer the handler can give has the property [P]. *)
Fixpoint always {A} (P : A -> Prop) (p : prog A) : Prop :=
  match p with
  | Ret a => P a
  | Throw _ => True
  | Op c k => forall r, always P (k r)
  end.

(** The status of an answer and its body go together. *)
Definition fits (res : response) : Prop :=
  match body res with
  | Success | SuccessQueued | DocumentJson _ _ | ContentJson _ _ | HistoryJson _ =>
      http_status res = 200%nat
  | Text s => http_status res = 404%nat /\ s = "Doc not found"
  | Error msg =>
      http_status res = 500%nat \/
      (http_status res = 404%nat /\ msg = "User not found") \/
      (http_status res = 403%nat /\ msg = forbidden_message)
  end.

(** ** The lock of another document *)

(** The handler does nothing with the lock, the file and the repository
    of document [id]. *)
Fixpoint foreign {A} (id : Z) (p : prog A) : Prop :=
  match p with
  | Op c k => forall r, classify id (event_of c r) = Nothing /\ foreign id (k r)
  | _ => True
  end.

(** The request is not about document [id]: a read, a share, or a save or
    a rollback of another document. *)
Definition elsewhere (id : Z) (q : request) : Prop :=
  match q with
  | PostSave id' _ _ | PostRollback id' _ => id' <> id
  | PostDocument _ _ => False
  | GetContent _ _ | GetHistory _ | PostShare _ _ _ => True
  end.

(** ** Reads *)

(** The calls that look and do not write. *)
Definition reading {X} (c : cmd X) : bool :=
  match c with
  | SelectDocument _ | SelectPermission _ _ | SelectUser _
  | ExistsDir _ | ExistsFile _ _ | ReadFileSync _ _
  | SimpleGit _ | GitStatus _ | GitLog _ | GitShowFile _ _ _ | GitShowSubject _ _
  | LocksGet _ => true
  | _ => false
  end.

Fixpoint reads_only {A} (p : prog A) : Prop :=
  match p with
  | Op c k => reading c = true /\ forall r, reads_only (k r)
  | _ => True
  end.

(** The call that takes the lock of document [id]. *)
Definition taking {X} (id : Z) (c : cmd X) : bool :=
  match c with
  | LocksSet i => bool_decide (i = id)
  | _ => false
  end.

(** Until it takes the lock of document [id], the handler only looks. *)
Fixpoint waiting {A} (id : Z) (p : prog A) : Prop :=
  match p with
  | Op c k => if taking id c then True else reading c = true /\ forall r, waiting id (k r)
  | _ => True
  end.

(** ** Commits *)

Definition committing {X} (c : cmd X) : bool :=
  match c with
  | GitCommit _ _ _ => true
  | _ => false
  end.

(** The handler runs [git commit] at most [n] times, whatever its calls
    give back. *)
Fixpoint commits_at_most {A} (n : nat) (p : prog A) : Prop :=
  match p with
  | Op c k =>
      if committing c then
        match n with
        | O => False
        | S m => forall r, commits_at_most m (k r)
        end
      else forall r, commits_at_most n (k r)
  | _ => True
  end.

(** How many commits a request may add. *)
Definition commit_budget (q : request) : nat :=
  match q with
  | PostDocument _ _ | PostRollback _ _ | PostSave _ _ _ => 1
  | _ => 0
  end.

(** ** The document's file *)

(** The calls that name a file name document.md. *)
Definition on_document {X} (c : cmd X) : Prop :=
  match c with
  | WriteFileSync _ p _ | GitAdd _ p => p = filename
  | InsertDocument row => fs_path row = filename
  | _ => True
  end.

Fixpoint keeps_to_document {A} (p : prog A) : Prop :=
  match p with
  | Op c k => on_document c /\ forall r, uniform_answer c r -> keeps_to_document (k r)
  | _ => True
  end.

(** A set of files with no other file than document.md. *)
Definition only_document (files : gmap string string) : Prop :=
  forall q, q <> filename -> files !! q = None.

(** A directory whose working tree, index and snapshots hold no other
    file than document.md. *)
Definition lone (r : repo) : Prop :=
  only_document (worktree r) /\ only_document (index r) /\
  Forall (fun c => only_document (tree c)) (commits r).

(** Every row names document.md, there is at most one row, and every
    directory of the storage is [lone]. *)
Definition single_file (w : world) : Prop :=
  (forall i row, documents (db w) !! i = Some row -> fs_path row = filename) /\
  (forall i j row row', documents (db w) !! i = Some row ->
                        documents (db w) !! j = Some row' -> i = j) /\
  (forall i r, storage w !! i = Some r -> lone r).

(** The system before the first request. *)
Definition empty_system (accounts : gmap string Z) : world :=
  {| db := {| documents := ∅; permissions := ∅; users := accounts; documents_seq := 0 |};
     storage := ∅; gitLocks := ∅; faults := [] |}.

End Requests.

(* ===================================================================== *)
(** * The text of a statement (db.js)                                     *)
(* ===================================================================== *)

Module Db.

(** [\d] *)
Definition is_digit (a : Ascii.ascii) : bool :=
  let n := Ascii.nat_of_ascii a in Nat.leb 48 n && Nat.leb n 57.

Definition dollar : Ascii.ascii := Ascii.ascii_of_nat 36.
Definition question_mark : Ascii.ascii := Ascii.ascii_of_nat 63.

Definition starts_with_digit (s : string) : bool :=
  match s with
  | String a _ => is_digit a
  | EmptyString => false
  end.

(** [text.replace(/\$\d+/g, '?')], as the scan of the regular expression
    goes: a dollar sign that a digit follows starts a match, the match
    takes the digits that follow, and the scan resumes behind them.
    [in_match] says that the scan is inside the digits of a match. *)
Fixpoint replace_parameters (in_match : bool) (text : string) : string :=
  match text with
  | EmptyString => EmptyString
  | String a rest =>
      if in_match && is_digit a then replace_parameters true rest
      else if bool_decide (a = dollar) && starts_with_digit rest
           then String question_mark (replace_parameters true rest)
           else String a (replace_parameters false rest)
  end.

(** [const sql = text.replace(/\$\d+/g, '?');] of [query]. *)
Definition sql (text : string) : string := replace_parameters false text.

(** A run of digits, as [\d+] matches one. *)
Fixpoint all_digits (s : string) : bool :=
  match s with
  | EmptyString => true
  | String a rest => is_digit a && all_digits rest
  end.

Definition digits (s : string) : Prop := s <> EmptyString /\ all_digits s = true.

(** The values a statement asks for once it is converted: its question
    marks, one value each, in order. *)
Fixpoint question_marks (s : string) : nat :=
  match s with
  | EmptyString => 0
  | String a rest => (if bool_decide (a = question_mark) then 1 else 0) + question_marks rest
  end.

(** The upsert of the share handler, and the three values the handler
    passes with it. *)
Definition share_statement : string :=
  "INSERT INTO permissions (document_id, user_id, role) VALUES ($1, $2, $3) ON CONFLICT (document_id, user_id) DO UPDATE SET role = $3".

End Db.

(* ===================================================================== *)
(** * The editor's helpers (src/main.js)                                  *)
(* ===================================================================== *)

Module Editor.

(** ** [debounce(func, wait)]

    The closure that [debounce] returns, with the timers it has set; time
    is in milliseconds.  The page calls the closure ([executedFunction])
    and the browser runs the timers that are due ([tick]). *)
Section Debounce.
Context {A : Type}.
Variable wait : nat.

(** A timer set by [setTimeout(later, wait)]: [later] holds the arguments
    of the call that set it. *)
Record timer := {
  timer_id : nat;
  due : nat;
  args : A
}.

(** The variable [timeout], the timers that are set, the id of the next
    timer, and the calls of [func] made so far, newest first, each with
    its time. *)
Record closure := {
  timeout : option nat;
  timers : list timer;
  next_id : nat;
  calls : list (nat * A)
}.

(** [clearTimeout(id)]; nothing happens for [undefined] and for a timer
    that is no longer set. *)
Definition clearTimeout (id : option nat) (ts : list timer) : list timer :=
  match id with
  | Some i => filter (fun t => timer_id t <> i) ts
  | None => ts
  end.

(** [executedFunction(...args)], called at time [now]. *)
Definition executedFunction (now : nat) (a : A) (s : closure) : closure :=
  let ts := clearTimeout (timeout s) (timers s) in
  {| timeout := Some (next_id s);
     timers := {| timer_id := next_id s; due := now + wait; args := a |} :: ts;
     next_id := S (next_id s);
     calls := calls s |}.

(** [later], run at time [now] for the timer [t], which is spent:
    [clearTimeout(timeout); func(...args);]. *)
Definition later (now : nat) (t : timer) (s : closure) : closure :=
  {| timeout := timeout s;
     timers := clearTimeout (timeout s)
                 (filter (fun t' => timer_id t' <> timer_id t) (timers s));
     next_id := next_id s;
     calls := (now, args t) :: calls s |}.

(** The browser runs the timers in the order in which they are due, and
    those due together in the order in which they were set. *)
Definition sooner (t1 t2 : timer) : timer :=
  if Nat.ltb (due t1) (due t2) ||
     (Nat.eqb (due t1) (due t2) && Nat.leb (timer_id t1) (timer_id t2))
  then t1 else t2.

Fixpoint next_due (now : nat) (ts : list timer) : option timer :=
  match ts with
  | [] => None
  | t :: ts' =>
      let rest := next_due now ts' in
      if Nat.leb (due t) now
      then Some (match rest with Some t' => sooner t t' | None => t end)
      else rest
  end.

Fixpoint run_timers (fuel now : nat) (s : closure) : closure :=
  match fuel with
  | O => s
  | S fuel' =>
      match next_due now (timers s) with
      | Some t => run_timers fuel' now (later now t s)
      | None => s
      end
  end.

(** The event loop at time [now]: every timer that is due runs. *)
Definition tick (now : nat) (s : closure) : closure :=
  run_timers (length (timers s)) now s.

(** What happens to the closure, in order. *)
Inductive event :=
| Invoke (now : nat) (a : A)
| Tick (now : nat).

Definition step (s : closure) (e : event) : closure :=
  match e with
  | Invoke now a => executedFunction now a s
  | Tick now => tick now s
  end.

Definition play (events : list event) (s : closure) : closure := foldl step s events.

(** The closure as [debounce] returns it. *)
Definition fresh_closure : closure :=
  {| timeout := None; timers := []; next_id := 0; calls := [] |}.

(** The timers that are set, by due time and arguments. *)
Definition pending (s : closure) : list (nat * A) :=
  (fun t => (due t, args t)) <$> timers s.

(** At most one timer is set, and [timeout] names it. *)
Definition one_timer (s : closure) : Prop :=
  timers s = [] \/ exists t, timers s = [t] /\ timeout s = Some (timer_id t).

End Debounce.

(** ** The colour of a cursor label *)

(** A number in a template literal. *)
Definition decimal (n : nat) : string := NilEmpty.string_of_uint (Nat.to_uint n).

(** [`hsl(${hue}, ${saturation}%, ${lightness}%)`] of [openDocument]. *)
Definition cursorColor (hue saturation lightness : nat) : string :=
  "hsl(" ++ decimal hue ++ ", " ++ decimal saturation ++ "%, " ++ decimal lightness ++ "%)".

(** The regular expression /hsl\(\d+,\s*\d+%,\s*(\d+)%\)/ of [render],
    piece by piece.  Every [\d+] is followed by a character that is no
    digit and every [\s*] by a digit, so taking as many characters as
    match is what the expression does. *)
Fixpoint literal (lit s : string) : option string :=
  match lit, s with
  | EmptyString, _ => Some s
  | String a lit', String b s' => if bool_decide (a = b) then literal lit' s' else None
  | String _ _, EmptyString => None
  end.

Fixpoint some_digits (s : string) : string * string :=
  match s with
  | String a s' =>
      if Db.is_digit a then let '(d, rest) := some_digits s' in (String a d, rest)
      else (EmptyString, s)
  | EmptyString => (EmptyString, EmptyString)
  end.

Fixpoint spaces (s : string) : string :=
  match s with
  | String a s' => if Server.is_space a then spaces s' else s
  | EmptyString => EmptyString
  end.

(** [\d+] *)
Definition number (s : string) : option (string * string) :=
  let '(d, rest) := some_digits s in
  if bool_decide (d = EmptyString) then None else Some (d, rest).

(** The expression at the start of [s]: the digits of its group. *)
Definition hsl_here (s : string) : option string :=
  s1 ← literal "hsl(" s;
  '(_, s2) ← number s1;
  s3 ← literal "," s2;
  '(_, s4) ← number (spaces s3);
  s5 ← literal "%," s4;
  '(lightness, s6) ← number (spaces s5);
  _ ← literal "%)" s6;
  Some lightness.

(** [bgColor.match(...)]: the first place where the expression matches. *)
Fixpoint hslMatch (s : string) : option string :=
  match hsl_here s with
  | Some lightness => Some lightness
  | None =>
      match s with
      | String _ s' => hslMatch s'
      | EmptyString => None
      end
  end.

(** [parseInt] of a run of digits. *)
Fixpoint parse_digits (acc : nat) (s : string) : nat :=
  match s with
  | String a s' =>
      if Db.is_digit a then parse_digits (10 * acc + (Ascii.nat_of_ascii a - 48)) s'
      else acc
  | EmptyString => acc
  end.

Definition parseInt (s : string) : nat := parse_digits 0 s.

(** The colour of the text of the label, in [render]; [color] is
    [user.color], [None] for null. *)
Definition textColor (color : option string) : string :=
  let bgColor := match color with
                 | Some c => if bool_decide (c = EmptyString) then "#8ab4f8" else c
                 | None => "#8ab4f8"
                 end in
  if String.prefix "hsl" bgColor then
    match hslMatch bgColor with
    | Some lightness => if Nat.ltb 60 (parseInt lightness) then "#000" else "#fff"
    | None => "#fff"
    end
  else "#fff".

End Editor.

(* ===================================================================== *)
(** * Accounts, the list of documents, and deleting (server.js)           *)
(* ===================================================================== *)

Module Site.
Import Model Lang Server.
Local Open Scope prog_scope.

(** The system with table [users] in full: [Model] keeps the id of every
    user name, which is what the share handler reads; the passwords and
    the AUTOINCREMENT counter of the table are here. *)
Record site := {
  world_of : world;
  passwords : gmap string string;
  users_seq : Z
}.

Definition with_world (w : world) (s : site) : site :=
  {| world_of := w; passwords := passwords s; users_seq := users_seq s |}.

(** What these handlers answer. *)
Inductive payload :=
| Plain (b : Server.payload)
| UserJson (id : Z) (username : string)
| DocumentsJson (rows : gmap Z (document_row * string)).

Record reply := { code : nat; content : payload }.

Definition json (b : payload) : reply := {| code := 200; content := b |}.
Definition status_json (n : nat) (b : payload) : reply := {| code := n; content := b |}.

(** ** Handlers over the whole system: a state and exception monad *)

Definition action (A : Type) : Type := site -> result A * site.

Definition ret {A} (a : A) : action A := fun s => (Ok a, s).

Definition bind {A B} (m : action A) (f : A -> action B) : action B :=
  fun s => match m s with
           | (Ok a, s') => f a s'
           | (Err e, s') => (Err e, s')
           end.

Definition try_catch {A} (m : action A) (h : string -> action A) : action A :=
  fun s => match m s with
           | (Ok a, s') => (Ok a, s')
           | (Err e, s') => h e s'
           end.

(** A handler of [Lang], run on the system. *)
Definition lift {A} (p : prog A) : action A :=
  fun s => let '(r, w) := run p (world_of s) in (r, with_world w s).

(** A call that I/O can fail, as [Lang.fallible]. *)
Definition failing {A} (e : string) (act : site -> result A * site) : action A :=
  fun s => let '(b, w) := pop_fault (world_of s) in
           if b then (Err e, with_world w s) else act (with_world w s).

Declare Scope action_scope.
Delimit Scope action_scope with action.
Notation "x <- m ;; f" := (bind m (fun x => f))
  (at level 100, m at next level, right associativity) : action_scope.
Notation "m ;; f" := (bind m (fun _ => f))
  (at level 100, right associativity) : action_scope.
Local Open Scope action_scope.

(** ** The queries *)

(** The largest id of table [users]. *)
Definition largest_id (accounts : gmap string Z) : Z :=
  map_fold (fun _ id m => Z.max id m) 0 accounts.

(** INSERT INTO users (username, password) VALUES ($1, $2) RETURNING id,
    username: [username] is UNIQUE, and AUTOINCREMENT gives an id above
    every id the table has and has had. *)
Definition insert_user (username password : string) : action Z :=
  failing "SQLITE_ERROR" (fun s =>
    let d := db (world_of s) in
    if bool_decide (is_Some (users d !! username)) then
      (Err "SQLITE_CONSTRAINT: UNIQUE constraint failed: users.username", s)
    else
      let id := Z.max (users_seq s) (largest_id (users d)) + 1 in
      (Ok id,
       {| world_of := set_db (fun d => {| documents := documents d;
                                          permissions := permissions d;
                                          users := <[username := id]> (users d);
                                          documents_seq := documents_seq d |}) (world_of s);
          passwords := <[username := password]> (passwords s);
          users_seq := id |})).

(** SELECT * FROM users WHERE username = $1: the id and the password. *)
Definition select_user (username : string) : action (option (Z * string)) :=
  failing "SQLITE_ERROR" (fun s =>
    (Ok (match users (db (world_of s)) !! username, passwords s !! username with
         | Some id, Some password => Some (id, password)
         | _, _ => None
         end), s)).

(** The UNION of the list handler: the documents the user owns, with
    'owner' for the role, and the documents of others that the user has a
    grant on, with the role of the grant.  A document is in the result
    once; the order of the rows is left open by the statement and not
    kept here. *)
Definition listed (d : database) (userId : Z) : gmap Z (document_row * string) :=
  map_imap (fun id row =>
              if bool_decide (owner_id row = userId) then Some (row, "owner")
              else (fun role => (row, role)) <$> permissions d !! (id, userId))
           (documents d).

Definition select_documents (userId : Z) : action (gmap Z (document_row * string)) :=
  failing "SQLITE_ERROR" (fun s => (Ok (listed (db (world_of s)) userId), s)).

(** DELETE FROM documents WHERE id = $1.  The rows of [permissions] stay:
    their ON DELETE CASCADE is a clause of a foreign key, and SQLite
    enforces foreign keys only where the connection turns them on. *)
Definition delete_document (id : Z) : action unit :=
  failing "SQLITE_ERROR" (fun s =>
    (Ok (), with_world (set_db (fun d => {| documents := delete id (documents d);
                                            permissions := permissions d;
                                            users := users d;
                                            documents_seq := documents_seq d |})
                               (world_of s)) s)).

(** [fs.rmSync(docPath, { recursive: true, force: true })] *)
Definition rmSync (id : Z) : action unit :=
  failing "EIO" (fun s => (Ok (), with_world (set_storage (delete id) (world_of s)) s)).

(** ** The handlers *)

(** POST /api/register *)
Definition register (username password : string) : action reply :=
  try_catch
    (id <- insert_user username password ;;
     ret (json (UserJson id username)))
    (fun err => ret (status_json 400 (Plain (Error "Username likely taken")))).

(** POST /api/login *)
Definition login (username password : string) : action reply :=
  try_catch
    (result <- select_user username ;;
     match result with
     | Some (id, stored) =>
         if bool_decide (stored = password) then ret (json (UserJson id username))
         else ret (status_json 401 (Plain (Error "Invalid credentials")))
     | None => ret (status_json 401 (Plain (Error "Invalid credentials")))
     end)
    (fun err => ret (status_json 500 (Plain (Error err)))).

(** GET /api/documents *)
Definition listDocuments (userId : Z) : action reply :=
  try_catch
    (rows <- select_documents userId ;;
     ret (json (DocumentsJson rows)))
    (fun err => ret (status_json 500 (Plain (Error err)))).

(** DELETE /api/documents/:id *)
Definition deleteDocument (id : Z) : action reply :=
  try_catch
    (docRes <- lift (call (SelectDocument id)) ;;
     match docRes with
     | None => ret (status_json 404 (Plain (Error "Doc not found")))
     | Some _ =>
         present <- lift (call (ExistsDir id)) ;;
         (if present then rmSync id else ret ()) ;;
         delete_document id ;;
         ret (json (Plain Success))
     end)
    (fun err => ret (status_json 500 (Plain (Error err)))).

(** The database, the passwords, the storage and the lock map of [s'] are
    those of [s]. *)
Definition same_data (s s' : site) : Prop :=
  db (world_of s') = db (world_of s) /\ storage (world_of s') = storage (world_of s) /\
  gitLocks (world_of s') = gitLocks (world_of s) /\
  passwords s' = passwords s /\ users_seq s' = users_seq s.

End Site.

Import Model Lang Server Client Sched.

(* ===================================================================== *)
(** * Facts about the calls                                               *)
(* ===================================================================== *)

(** A message that starts with a letter is not empty once cleaned up. *)
Lemma rtrim_cons a s : git_space a = false -> rtrim (String a s) <> "".
Proof. intros Ha. cbn [rtrim]. rewrite Ha. by destruct (rtrim s). Qed.

Lemma git_cleanup_cons a s : git_space a = false -> git_cleanup (String a s) <> "".
Proof.
  intros Ha. unfold git_cleanup. cbn [lines_of].
  assert (Hlf : bool_decide (a = Ascii.ascii_of_nat 10) = false).
  { apply bool_decide_eq_false_2. intros ->. discriminate. }
  rewrite Hlf.
  assert (exists l ls, match lines_of s with
                       | [] => [String a ""]
                       | l :: ls => String a l :: ls
                       end = String a l :: ls) as (l & ls & ->)
    by (destruct (lines_of s); eauto).
  cbn [stripspace]. pose proof (rtrim_cons a l Ha) as Hne.
  destruct (rtrim (String a l)) as [|b t]; [done|].
  cbn [app String.concat]. by destruct (stripspace true false ls).
Qed.

Ltac named_commit :=
  rewrite (bool_decide_eq_false_2 (git_cleanup _ = "")) by (by apply git_cleanup_cons);
  rewrite andb_false_r.

Lemma pop_fault_gitLocks w b w1 : pop_fault w = (b, w1) -> gitLocks w1 = gitLocks w.
Proof. unfold pop_fault. destruct (faults w); intros [= <- <-]; reflexivity. Qed.

Ltac exec_cases He :=
  unfold fallible, in_repo, of_option in He;
  try match type of He with
      | context [pop_fault ?w] => destruct (pop_fault w) as [[] ?] eqn:?
      end;
  cbv beta zeta in He;
  repeat match type of He with
         | (let '(_, _) := ?x in _) = _ => destruct x eqn:?
         | (match ?x with _ => _ end) = _ => destruct x eqn:?
         | (if ?x then _ else _) = _ => destruct x eqn:?
         end;
  injection He as <- <-.

Lemma exec_gitLocks X (c : cmd X) w r w' :
  exec c w = (r, w') ->
  gitLocks w' = match c with
                | LocksSet i => <[i := true]> (gitLocks w)
                | LocksDelete i => delete i (gitLocks w)
                | _ => gitLocks w
                end.
Proof.
  destruct c; cbn [exec]; intros He; exec_cases He;
    cbn [gitLocks set_db set_storage set_gitLocks set_faults];
    try (erewrite pop_fault_gitLocks by eassumption); exact eq_refl.
Qed.

Lemma exec_err X (c : cmd X) w e w' : exec c w = (Err e, w') -> can_fail c = true.
Proof. destruct c; cbn [exec can_fail]; try reflexivity; intros [=]. Qed.

Lemma event_of_err X (c : cmd X) e : event_of c (Err e) = Quiet.
Proof. destruct c; reflexivity. Qed.

(* ===================================================================== *)
(** * The save lock                                                      *)
(* ===================================================================== *)

(** ** The save handler keeps the discipline *)

Section Discipline.
Variable id : Z.

Lemma exec_seen X (c : cmd X) w r w' held :
  exec c w = (r, w') -> classify id (event_of c r) = Seen held -> held = saving w id.
Proof.
  destruct c; cbn [event_of classify]; intros He Hc; try discriminate;
    try (destruct r; cbn [classify] in Hc; try discriminate; repeat case_decide; discriminate).
  cbn [exec] in He. injection He as <- <-. cbn [classify] in Hc.
  case_decide; [|discriminate]. subst. congruence.
Qed.

Lemma exec_lookup X (c : cmd X) w r w' :
  exec c w = (r, w') ->
  gitLocks w' !! id = match classify id (event_of c r) with
                      | Taken => Some true
                      | Released => None
                      | _ => gitLocks w !! id
                      end.
Proof.
  intros He. rewrite (exec_gitLocks _ _ _ _ _ He).
  destruct c; cbn [event_of classify];
    try (destruct r as [x|e]; cbn [classify]; repeat case_decide; exact eq_refl);
    cbn [exec] in He; injection He as <- <-; cbn [classify]; case_decide; subst.
  - by rewrite lookup_insert_eq.
  - by rewrite lookup_insert_ne.
  - by rewrite lookup_delete_eq.
  - by rewrite lookup_delete_ne.
Qed.

Lemma exec_saving X (c : cmd X) w r w' :
  exec c w = (r, w') ->
  saving w' id = match classify id (event_of c r) with
                 | Taken => true
                 | Released => false
                 | _ => saving w id
                 end.
Proof.
  intros He. unfold saving. rewrite (exec_lookup _ _ _ _ _ He).
  by destruct (classify id (event_of c r)).
Qed.

Lemma classify_seen b : classify id (LockSeen id b) = Seen b.
Proof. unfold classify. by rewrite decide_True. Qed.
Lemma classify_taken : classify id (LockTaken id) = Taken.
Proof. unfold classify. by rewrite decide_True. Qed.
Lemma classify_released : classify id (LockReleased id) = Released.
Proof. unfold classify. by rewrite decide_True. Qed.
Lemma classify_written : classify id (FileWritten id) = Touched.
Proof. unfold classify. by rewrite decide_True. Qed.
Lemma classify_status : classify id (StatusRead id) = Touched.
Proof. unfold classify. by rewrite decide_True. Qed.
Lemma classify_staged : classify id (Staged id) = Touched.
Proof. unfold classify. by rewrite decide_True. Qed.
Lemma classify_commit b : classify id (CommitRun id b) = Commit.
Proof. unfold classify. by rewrite decide_True. Qed.

Ltac discipline_step :=
  first
    [ progress (cbn [disciplined bind try_catch call event_of next awaited can_fail
                     body json status_json status_send])
    | progress (rewrite ?classify_seen, ?classify_taken, ?classify_released,
                 ?classify_written, ?classify_status, ?classify_staged, ?classify_commit)
    | split
    | intros ?
    | progress (cbn [classify])
    | discriminate
    | exact eq_refl
    | exact I
    | match goal with
      | |- context [match ?x with _ => _ end] => is_var x; destruct x
      | |- context [if ?x then _ else _] => destruct x
      end ].

Lemma save_locked_disciplined content :
  disciplined id (Holding false) (save_locked id content).
Proof.
  unfold save_locked. 
  repeat discipline_step.
Qed.

Lemma save_disciplined content userId :
  disciplined id Outside (save id content userId).
Proof.
  unfold save, getUserDocumentRole. 
  repeat discipline_step; try apply save_locked_disciplined.
Qed.

Lemma alone_step X (c : cmd X) w r w1 ph ph' :
  alone id ph w -> exec c w = (r, w1) ->
  next ph (classify id (event_of c r)) = Some ph' -> alone id ph' w1.
Proof.
  intros Hal He Hn.
  pose proof (exec_lookup _ _ _ _ _ He) as Hl.
  pose proof (fun h => exec_seen X c w r w1 h He) as Hs.
  destruct ph as [| |[]| |], (classify id (event_of c r)) as [|[]| | | |];
    cbn [next] in Hn; try discriminate; injection Hn as <-; cbn [alone] in *;
    try exact I; try congruence.
  specialize (Hs true eq_refl). unfold saving in Hs. rewrite Hal in Hs. discriminate.
Qed.

Lemma run_disciplined (p : prog response) :
  forall ph w, disciplined id ph p -> alone id ph w ->
  exists res w', run p w = (Ok res, w') /\ gitLocks w' !! id = None /\ body res <> SuccessQueued.
Proof.
  induction p as [res|e|X c k IH]; intros ph w Hd Hal.
  - exists res, w. cbn [disciplined] in Hd.
    destruct ph; cbn [alone] in Hal; try contradiction; auto.
  - destruct Hd.
  - cbn [disciplined] in Hd. destruct Hd as (_ & _ & Hok & Herr).
    cbn [run]. destruct (exec c w) as [r w1] eqn:He.
    destruct r as [x|e].
    + specialize (Hok x).
      destruct (next ph (classify id (event_of c (Ok x)))) as [ph'|] eqn:Hn; [|contradiction].
      eapply IH; [exact Hok|]. eapply alone_step; eauto.
    + specialize (Herr (exec_err _ _ _ _ _ He) e).
      destruct (next ph Nothing) as [ph'|] eqn:Hn; [|contradiction].
      eapply IH; [exact Herr|]. eapply alone_step; eauto.
      rewrite event_of_err. exact Hn.
Qed.
End Discipline.

(** ** Two disciplined requests: the monitor accepts every run *)

Section Concurrent.
Variable id : Z.

Lemma get_set_same t ph m : get t (set t ph m) = ph.
Proof. by destruct t, m. Qed.

Lemma get_set_other t ph m : get (other t) (set t ph m) = get (other t) m.
Proof. by destruct t, m. Qed.

Lemma set_get t m : set t (get t m) m = m.
Proof. by destruct t, m. Qed.

Lemma inv_step X (c : cmd X) w r w1 m t ph' :
  inv id w m t -> exec c w = (r, w1) ->
  next (get t m) (classify id (event_of c r)) = Some ph' ->
  admits (classify id (event_of c r)) (holding (get (other t) m)) = true /\
  inv id w1 (set t ph' m) t.
Proof.
  intros (Ho & Hs & Hb & Ht) He Hn. unfold inv.
  rewrite get_set_same, get_set_other.
  pose proof (exec_saving id _ _ _ _ _ He) as Hl.
  pose proof (fun h => exec_seen id X c w r w1 h He) as Hseen.
  destruct (get t m) as [| |[]| |], (classify id (event_of c r)) as [|[]| | | |];
    cbn [next] in Hn; try discriminate; injection Hn as <-;
    cbn [holding admits orb andb negb] in *;
    try specialize (Hseen _ eq_refl);
    try specialize (Ht eq_refl);
    destruct (holding (get (other t) m)); 
    repeat split; try congruence; try discriminate;
    try (apply bool_decide_eq_true_2; congruence).
Qed.

Lemma monitor_app m tr1 tr2 :
  monitor id m (tr1 ++ tr2)%list = monitor id m tr1 ≫= fun m' => monitor id m' tr2.
Proof.
  revert m. induction tr1 as [|[t e] tr1 IH]; intros m; [done|].
  cbn [app monitor]. destruct (admits _ _); [|done].
  destruct (next _ _); [|done]. apply IH.
Qed.

Lemma run_sync_monitored t (p : prog response) :
  forall m w p' w' tr,
    disciplined id (get t m) p -> inv id w m t ->
    run_sync t p w = (p', w', tr) ->
    exists m', monitor id m tr = Some m' /\
               get (other t) m' = get (other t) m /\
               disciplined id (get t m') p' /\
               inv id w' m' t /\
               get t m' <> Tested.
Proof.
  induction p as [res|e|X c k IH]; intros m w p' w' tr Hd Hi Hr.
  - injection Hr as <- <- <-. exists m.
    split; [done|]. split; [done|]. split; [done|]. split; [done|].
    intros E. rewrite E in Hd. exact Hd.
  - destruct Hd.
  - cbn [run_sync] in Hr. destruct (awaited c) eqn:Ha.
    + injection Hr as <- <- <-. exists m.
      split; [done|]. split; [done|]. split; [done|]. split; [done|].
      intros E. cbn [disciplined] in Hd. destruct Hd as (Hs & _). specialize (Hs E). congruence.
    + destruct (exec c w) as [r w1] eqn:He.
      destruct (run_sync t (k r) w1) as [[p1 w2] tr1] eqn:Hr1.
      injection Hr as <- <- <-.
      cbn [disciplined] in Hd. destruct Hd as (_ & _ & Hok & Herr).
      assert (exists ph', next (get t m) (classify id (event_of c r)) = Some ph' /\
                          disciplined id ph' (k r)) as (ph' & Hn & Hd').
      { destruct r as [x|e].
        - specialize (Hok x). destruct (next _ _) as [ph'|]; [|contradiction]. eauto.
        - specialize (Herr (exec_err _ _ _ _ _ He) e). rewrite event_of_err.
          cbn [classify]. destruct (next _ _) as [ph'|]; [|contradiction]. eauto. }
      destruct (inv_step _ _ _ _ _ _ _ _ Hi He Hn) as (Had & Hi').
      destruct (IH r (set t ph' m) w1 p1 w2 tr1) as (m' & Hm & Hoth & Hd2 & Hi2 & Hnt); auto.
      { by rewrite get_set_same. }
      exists m'. cbn [monitor]. rewrite Had, Hn.
      split; [done|]. split; [by rewrite Hoth, get_set_other|]. done.
Qed.

Lemma resume_monitored t (p : prog response) m w p' w' tr :
  disciplined id (get t m) p -> inv id w m t ->
  resume t p w = (p', w', tr) ->
  exists m', monitor id m tr = Some m' /\
             get (other t) m' = get (other t) m /\
             disciplined id (get t m') p' /\
             inv id w' m' t /\
             get t m' <> Tested.
Proof.
  intros Hd Hi Hr. destruct p as [res|e|X c k].
  - eapply run_sync_monitored; eauto.
  - destruct Hd.
  - cbn [resume] in Hr.
    destruct (exec c w) as [r w1] eqn:He.
    destruct (run_sync t (k r) w1) as [[p1 w2] tr1] eqn:Hr1.
    injection Hr as <- <- <-.
    cbn [disciplined] in Hd. destruct Hd as (_ & _ & Hok & Herr).
    assert (exists ph', next (get t m) (classify id (event_of c r)) = Some ph' /\
                        disciplined id ph' (k r)) as (ph' & Hn & Hd').
    { destruct r as [x|e].
      - specialize (Hok x). destruct (next _ _) as [ph'|]; [|contradiction]. eauto.
      - specialize (Herr (exec_err _ _ _ _ _ He) e). rewrite event_of_err.
        cbn [classify]. destruct (next _ _) as [ph'|]; [|contradiction]. eauto. }
    destruct (inv_step _ _ _ _ _ _ _ _ Hi He Hn) as (Had & Hi').
    destruct (run_sync_monitored t (k r) (set t ph' m) w1 p1 w2 tr1) as (m' & Hm & Hoth & Hd2 & Hi2 & Hnt); auto.
    { by rewrite get_set_same. }
    exists m'. cbn [monitor]. rewrite Had, Hn.
    split; [done|]. split; [by rewrite Hoth, get_set_other|]. done.
Qed.

Lemma settled_inv w m t : settled id w m -> inv id w m t.
Proof.
  intros (H1 & H2 & Hs & Hb). destruct t; unfold inv; cbn [get other]; repeat split; auto.
  - contradiction.
  - by rewrite orb_comm.
  - by rewrite andb_comm.
  - contradiction.
Qed.

Lemma inv_settled w m t : inv id w m t -> get t m <> Tested -> settled id w m.
Proof.
  intros (Ho & Hs & Hb & _) Ht. destruct t; unfold settled; cbn [get other] in *; repeat split; auto.
  - by rewrite orb_comm.
  - by rewrite andb_comm.
Qed.

Lemma turn_monitored t c m c' tr :
  kept id m c -> turn t c = (c', tr) ->
  exists m', monitor id m tr = Some m' /\ kept id m' c'.
Proof.
  intros (Hs & Hd1 & Hd2) Ht. destruct t; cbn [turn] in Ht.
  - destruct (resume First (first c) (state c)) as [[p w] tr1] eqn:Hr.
    injection Ht as <- <-.
    destruct (resume_monitored First _ m _ _ _ _ Hd1 (settled_inv _ _ First Hs) Hr)
      as (m' & Hm & Hoth & Hd & Hi & Hnt).
    exists m'. split; [exact Hm|]. split; [|split]; cbn [first second state].
    + eapply inv_settled; eauto.
    + exact Hd.
    + cbn [get other] in Hoth. by rewrite Hoth.
  - destruct (resume Second (second c) (state c)) as [[p w] tr1] eqn:Hr.
    injection Ht as <- <-.
    destruct (resume_monitored Second _ m _ _ _ _ Hd2 (settled_inv _ _ Second Hs) Hr)
      as (m' & Hm & Hoth & Hd & Hi & Hnt).
    exists m'. split; [exact Hm|]. split; [|split]; cbn [first second state].
    + eapply inv_settled; eauto.
    + cbn [get other] in Hoth. by rewrite Hoth.
    + exact Hd.
Qed.

Lemma interleave_monitored sched :
  forall c m c' tr,
    kept id m c -> interleave sched c = (c', tr) ->
    exists m', monitor id m tr = Some m' /\ kept id m' c'.
Proof.
  induction sched as [|t sched IH]; intros c m c' tr Hk Hi.
  - injection Hi as <- <-. by exists m.
  - cbn [interleave] in Hi.
    destruct (turn t c) as [c1 tr1] eqn:Ht.
    destruct (interleave sched c1) as [c2 tr2] eqn:Hi2.
    injection Hi as <- <-.
    destruct (turn_monitored _ _ _ _ _ Hk Ht) as (m1 & Hm1 & Hk1).
    destruct (IH _ _ _ _ Hk1 Hi2) as (m2 & Hm2 & Hk2).
    exists m2. split; [|exact Hk2].
    rewrite monitor_app, Hm1. exact Hm2.
Qed.
End Concurrent.

(** ** What the monitor's acceptance says of a trace *)

Section Traces.
Variable id : Z.

Lemma exclusive_cons h t e tr :
  exclusive id h ((t, e) :: tr) =
  (watched h t (classify id e)).1 && exclusive id (watched h t (classify id e)).2 tr.
Proof.
  destruct e; cbn [exclusive classify]; try done;
    case_decide; subst;
    rewrite ?bool_decide_eq_true_2 by done; rewrite ?bool_decide_eq_false_2 by done; done.
Qed.

Lemma monitor_exclusive tr :
  forall m m', monitor id m tr = Some m' ->
               holding m.1 && holding m.2 = false ->
               exclusive id (holder m) tr = true.
Proof.
  induction tr as [|[t e] tr IH]; intros m m' Hm Hb; [done|].
  rewrite exclusive_cons. cbn [monitor] in Hm.
  destruct (admits _ _) eqn:Had; [|discriminate].
  destruct (next _ _) as [ph'|] eqn:Hn; [|discriminate].
  specialize (IH _ _ Hm). clear Hm.
  destruct m as [p1 p2].
  destruct t, p1 as [| |[]| |], p2 as [| |[]| |], (classify id e) as [|[]| | | |];
    cbn [get set other fst snd next admits holding negb andb] in *;
    try discriminate; injection Hn as <-;
    exact (IH eq_refl).
Qed.

Lemma monitor_cons m t e tr m' :
  monitor id m ((t, e) :: tr) = Some m' ->
  exists ph', next (get t m) (classify id e) = Some ph' /\
              admits (classify id e) (holding (get (other t) m)) = true /\
              monitor id (set t ph' m) tr = Some m'.
Proof.
  cbn [monitor]. destruct (admits _ _); [|discriminate].
  destruct (next _ _) as [ph'|]; [|discriminate]. eauto.
Qed.

Lemma get_set_cases t t' ph m :
  get t (set t' ph m) = if decide (t = t') then ph else get t m.
Proof. by destruct t, t', m. Qed.

Lemma monitor_coalesced tr :
  forall m m' t, monitor id m tr = Some m' -> get t m = Coalesced -> get t m' = Coalesced.
Proof.
  induction tr as [|[t' e] tr IH]; intros m m' t Hm Hc.
  - by injection Hm as <-.
  - apply monitor_cons in Hm as (ph' & Hn & _ & Hm).
    apply (IH _ _ _ Hm). rewrite get_set_cases. case_decide; [|done].
    subst. rewrite Hc in Hn. discriminate.
Qed.

Lemma monitor_seen tr :
  forall m m' t, monitor id m tr = Some m' ->
                 (t, LockSeen id true) ∈ tr -> get t m' = Coalesced.
Proof.
  induction tr as [|[t' e] tr IH]; intros m m' t Hm Hin.
  - by apply elem_of_nil in Hin.
  - apply monitor_cons in Hm as (ph' & Hn & _ & Hm).
    apply elem_of_cons in Hin as [[= <- <-]|Hin]; [|eauto].
    apply (monitor_coalesced _ _ _ _ Hm). rewrite get_set_same.
    unfold classify in Hn. rewrite decide_True in Hn by done.
    destruct (get t m) as [| |[]| |]; cbn [next] in Hn; congruence.
Qed.

Lemma overlapped_seen tr :
  overlapped id tr = true -> exists t, (t, LockSeen id true) ∈ tr.
Proof.
  unfold overlapped. intros H. apply existsb_exists in H as ([t e] & Hin & He).
  exists t. cbn [snd] in He. destruct e; try discriminate.
  apply andb_prop in He as [Hi Hh]. apply bool_decide_eq_true_1 in Hi. subst.
  by apply list_elem_of_In in Hin.
Qed.

Lemma monitor_active tr :
  forall m m' t, monitor id m tr = Some m' -> passive (get t m) = false -> passive (get t m') = false.
Proof.
  induction tr as [|[t' e] tr IH]; intros m m' t Hm Hp.
  - by injection Hm as <-.
  - apply monitor_cons in Hm as (ph' & Hn & _ & Hm).
    apply (IH _ _ _ Hm). rewrite get_set_cases. case_decide; [|done]. subst.
    destruct (get t' m) as [| |[]| |], (classify id e) as [|[]| | | |];
      cbn [next passive] in *; try discriminate; by injection Hn as <-.
Qed.

Lemma touches_classify e :
  touches id e = true -> classify id e = Touched \/ classify id e = Commit.
Proof.
  destruct e; cbn [touches classify]; try discriminate;
    intros H%bool_decide_eq_true_1; subst; rewrite decide_True by done; auto.
Qed.

Lemma monitor_idle tr :
  forall m m' t, monitor id m tr = Some m' -> passive (get t m') = true -> idle id t tr = true.
Proof.
  induction tr as [|[t' e] tr IH]; intros m m' t Hm Hp; [done|].
  apply monitor_cons in Hm as (ph' & Hn & _ & Hm).
  unfold idle in *. cbn [forallb fst snd]. rewrite (IH _ _ _ Hm Hp), andb_true_r.
  apply negb_true_iff, andb_false_iff.
  destruct (decide (t' = t)) as [->|Hne]; [right|left; by apply bool_decide_eq_false_2].
  destruct (touches id e) eqn:Ht; [|done]. exfalso.
  assert (passive (get t (set t ph' m)) = false) as Ha.
  { rewrite get_set_same.
    apply touches_classify in Ht as [Hc|Hc]; rewrite Hc in Hn;
      destruct (get t m) as [| |[]| |]; cbn [next] in Hn; try discriminate;
      by injection Hn as <-. }
  pose proof (monitor_active _ _ _ _ Hm Ha). congruence.
Qed.

Lemma monitor_potential tr :
  forall m m', monitor id m tr = Some m' ->
               (commits_created id tr + potential m'.1 + potential m'.2
                <= potential m.1 + potential m.2)%nat.
Proof.
  induction tr as [|[t e] tr IH]; intros m m' Hm.
  - injection Hm as <-. cbn [commits_created]. lia.
  - apply monitor_cons in Hm as (ph' & Hn & _ & Hm). specialize (IH _ _ Hm).
    assert (forall created, e = CommitRun id created -> classify id e = Commit) as Hcl.
    { intros b ->. cbn [classify]. by rewrite decide_True. }
    assert (commits_created id ((t, e) :: tr)
            <= (match classify id e with Commit => 1 | _ => 0 end) + commits_created id tr)%nat
      as Hcount.
    { destruct e as [| | | | | |i []|]; cbn [commits_created classify]; try lia.
      case_bool_decide; subst; [rewrite decide_True by done|rewrite decide_False by done]; lia. }
    destruct m as [p1 p2].
    destruct t, p1 as [| |[]| |], p2 as [| |[]| |], (classify id e) as [|[]| | | |];
      cbn [get set other fst snd next potential] in *; try discriminate;
      injection Hn as <-; cbn [potential] in IH; lia.
Qed.
End Traces.

(** ** The history grows by the commits of the trace *)

Section History.
Variable id : Z.

Lemma pop_fault_storage w b w1 : pop_fault w = (b, w1) -> storage w1 = storage w.
Proof. unfold pop_fault. destruct (faults w); intros [= <- <-]; reflexivity. Qed.

Lemma pop_fault_db w b w1 : pop_fault w = (b, w1) -> db w1 = db w.
Proof. unfold pop_fault. destruct (faults w); intros [= <- <-]; reflexivity. Qed.

Lemma fallible_cases X e w (act : world -> result X * world) r w1 :
  fallible e w act = (r, w1) ->
  exists b w0, pop_fault w = (b, w0) /\
               if b then r = Err e /\ w1 = w0 else act w0 = (r, w1).
Proof.
  unfold fallible. destruct (pop_fault w) as [[] w0]; intros H.
  - injection H as <- <-. by exists true, w0.
  - by exists false, w0.
Qed.

Lemma commits_of_insert w i r :
  commits_of (set_storage (insert i r) w) id =
  if decide (i = id) then commits r else commits_of w id.
Proof.
  unfold commits_of. cbn [storage set_storage]. case_decide; subst.
  - by rewrite lookup_insert_eq.
  - by rewrite lookup_insert_ne.
Qed.

Lemma commits_of_storage w w1 : storage w1 = storage w -> commits_of w1 id = commits_of w id.
Proof. unfold commits_of. by intros ->. Qed.

Lemma commits_of_lookup w i r : storage w !! i = Some r -> i = id -> commits_of w id = commits r.
Proof. unfold commits_of. by intros H <-; rewrite H. Qed.

Lemma in_repo_keep X i w (act : repo -> result X * repo) r w1 :
  (forall rp x rp', act rp = (x, rp') -> commits rp' = commits rp) ->
  in_repo i w act = (r, w1) -> commits_of w1 id = commits_of w id.
Proof.
  intros Hact. unfold in_repo. destruct (storage w !! i) as [rp|] eqn:Hl; [|by intros [= <- <-]].
  destruct (git_dir rp); [|by intros [= <- <-]].
  destruct (act rp) as [x rp'] eqn:Ha. intros [= <- <-].
  rewrite commits_of_insert. case_decide; [|done].
  rewrite (Hact _ _ _ Ha). symmetry. by eapply commits_of_lookup.
Qed.

Lemma git_add_commits p r r' : git_add p r = Some r' -> commits r' = commits r.
Proof.
  unfold git_add. destruct (worktree r !! p); [by intros [= <-]|].
  destruct (index r !! p); [by intros [= <-]|discriminate].
Qed.

Lemma commits_created_cons t e tr :
  commits_created id ((t, e) :: tr) = (grown id e + commits_created id tr)%nat.
Proof. by destruct e as [| | | | | |i []|]. Qed.

Lemma grown_other X (c : cmd X) r :
  (forall i msg allow_empty, existT X c <> existT _ (GitCommit i msg allow_empty)) ->
  grown id (event_of c r) = 0%nat.
Proof.
  intros Hc. destruct c; try (destruct r; reflexivity).
  exfalso. by eapply Hc.
Qed.

Lemma exec_commits X (c : cmd X) w r w1 :
  exec c w = (r, w1) ->
  length (commits_of w1 id) = (length (commits_of w id) + grown id (event_of c r))%nat.
Proof.
  destruct c;
    try (rewrite grown_other by (intros ? ? ? [=]); rewrite Nat.add_0_r);
    cbn [exec]; intros He;
    try (apply fallible_cases in He as ([] & w0 & Hp & He);
         [destruct He as [-> ->]; rewrite ?Nat.add_0_r;
          f_equal; apply commits_of_storage; by eapply pop_fault_storage|];
         pose proof (pop_fault_storage _ _ _ Hp) as Hs;
         rewrite <- (commits_of_storage _ _ Hs));
    try (f_equal; eapply in_repo_keep; [|exact He]; intros rp x rp';
         first [ by intros [= <- <-]
               | destruct (git_add _ _) eqn:Hg; intros [= <- <-];
                 [by eapply git_add_commits|done]
               | destruct (commits rp); by intros [= <- <-] ]);
    try (f_equal; apply commits_of_storage;
         repeat match type of He with
                | (if ?x then _ else _) = _ => destruct x
                end;
         by injection He as <- <-).
  - destruct (storage w0 !! id0) eqn:Hl; injection He as <- <-; [done|].
    rewrite commits_of_insert. case_decide; [|done]. subst.
    unfold commits_of. by rewrite Hl.
  - destruct (storage w0 !! id0) eqn:Hl; injection He as <- <-; [|done].
    rewrite commits_of_insert. case_decide; [|done].
    by rewrite (commits_of_lookup _ _ _ Hl).
  - destruct (storage w0 !! id0) eqn:Hl; injection He as <- <-; [|done].
    rewrite commits_of_insert. case_decide; [|done].
    by rewrite (commits_of_lookup _ _ _ Hl).
  - f_equal. eapply in_repo_keep; [|exact He]. intros rp x rp'. cbv beta.
    destruct (git_add p rp) eqn:Hg; intros H; injection H as _ <-; [|done].
    by eapply git_add_commits.
  - unfold in_repo in He. destruct (storage w0 !! id0) as [rp|] eqn:Hl;
      [|injection He as <- <-; cbn [event_of grown]; lia].
    destruct (git_dir rp); [|injection He as <- <-; cbn [event_of grown]; lia].
    unfold git_commit in He.
    destruct (allow_empty || negb (bool_decide (index rp = head_tree rp)));
      cbv beta iota zeta in He.
    + rewrite (bool_decide_eq_true_2 (is_Some (Some _))) in He by eauto. cbn [andb] in He.
      destruct (bool_decide (git_cleanup msg = "")); injection He as <- <-;
        cbn [event_of grown]; rewrite commits_of_insert; case_decide; subst;
        rewrite ?(commits_of_lookup _ _ _ Hl) by done; cbn [commits length];
        rewrite ?(bool_decide_eq_true_2 (is_Some (Some _))) by eauto;
        try (rewrite bool_decide_eq_true_2 by done);
        try (rewrite bool_decide_eq_false_2 by done); lia.
    + rewrite (bool_decide_eq_false_2 (is_Some None)) in He by apply is_Some_None.
      cbn [andb] in He. injection He as <- <-. cbn [event_of grown].
      rewrite commits_of_insert; case_decide; subst;
        rewrite ?(commits_of_lookup _ _ _ Hl) by done;
        rewrite bool_decide_eq_false_2 by apply is_Some_None; lia.
  - f_equal. eapply in_repo_keep; [|exact He]. intros rp x rp'. cbv beta.
    destruct (commits rp) eqn:E; intros H; by injection H as _ <-.
Qed.

Lemma commits_created_app tr1 tr2 :
  commits_created id (tr1 ++ tr2)%list = (commits_created id tr1 + commits_created id tr2)%nat.
Proof.
  induction tr1 as [|[t e] tr1 IH]; [done|].
  cbn [app]. rewrite !commits_created_cons, IH. lia.
Qed.

Lemma run_sync_commits A t (p : prog A) :
  forall w p' w' tr,
    run_sync t p w = (p', w', tr) ->
    length (commits_of w' id) = (length (commits_of w id) + commits_created id tr)%nat.
Proof.
  induction p as [a|e|X c k IH]; intros w p' w' tr Hr.
  - injection Hr as <- <- <-. cbn [commits_created]. lia.
  - injection Hr as <- <- <-. cbn [commits_created]. lia.
  - cbn [run_sync] in Hr. destruct (awaited c).
    + injection Hr as <- <- <-. cbn [commits_created]. lia.
    + destruct (exec c w) as [r w1] eqn:He.
      destruct (run_sync t (k r) w1) as [[p1 w2] tr1] eqn:Hr1.
      injection Hr as <- <- <-.
      rewrite commits_created_cons, (IH _ _ _ _ _ Hr1), (exec_commits _ _ _ _ _ He). lia.
Qed.

Lemma resume_commits A t (p : prog A) w p' w' tr :
  resume t p w = (p', w', tr) ->
  length (commits_of w' id) = (length (commits_of w id) + commits_created id tr)%nat.
Proof.
  destruct p as [a|e|X c k]; cbn [resume]; intros Hr.
  - injection Hr as <- <- <-. cbn [commits_created]. lia.
  - injection Hr as <- <- <-. cbn [commits_created]. lia.
  - destruct (exec c w) as [r w1] eqn:He.
    destruct (run_sync t (k r) w1) as [[p1 w2] tr1] eqn:Hr1.
    injection Hr as <- <- <-.
    rewrite commits_created_cons, (run_sync_commits _ _ _ _ _ _ _ Hr1),
      (exec_commits _ _ _ _ _ He). lia.
Qed.

Lemma interleave_commits sched :
  forall c c' tr,
    interleave sched c = (c', tr) ->
    length (commits_of (state c') id) =
    (length (commits_of (state c) id) + commits_created id tr)%nat.
Proof.
  induction sched as [|t sched IH]; intros c c' tr Hi.
  - injection Hi as <- <-. cbn [commits_created]. lia.
  - cbn [interleave] in Hi.
    destruct (turn t c) as [c1 tr1] eqn:Ht.
    destruct (interleave sched c1) as [c2 tr2] eqn:Hi2.
    injection Hi as <- <-.
    rewrite commits_created_app, (IH _ _ _ Hi2).
    enough (length (commits_of (state c1) id) =
            (length (commits_of (state c) id) + commits_created id tr1)%nat) by lia.
    destruct t; cbn [turn] in Ht.
    + destruct (resume First (first c) (state c)) as [[p w] tr'] eqn:Hr.
      injection Ht as <- <-. cbn [state]. by eapply resume_commits.
    + destruct (resume Second (second c) (state c)) as [[p w] tr'] eqn:Hr.
      injection Ht as <- <-. cbn [state]. by eapply resume_commits.
Qed.
End History.

(* ===================================================================== *)
(** * Handlers run alone                                                  *)
(* ===================================================================== *)

Lemma pop_fault_quiet w : faults w = [] -> pop_fault w = (false, w).
Proof. unfold pop_fault. by intros ->. Qed.

Lemma pop_fault_same w b w1 :
  pop_fault w = (b, w1) ->
  db w1 = db w /\ storage w1 = storage w /\ gitLocks w1 = gitLocks w.
Proof. unfold pop_fault. destruct (faults w); intros [= <- <-]; done. Qed.

Lemma getUserDocumentRole_quiet w userId documentId :
  faults w = [] ->
  run (getUserDocumentRole userId documentId) w = (Ok (role_of (db w) userId documentId), w).
Proof.
  intros Hq. unfold getUserDocumentRole, role_of.
  cbn [run bind try_catch call exec]. unfold fallible. rewrite (pop_fault_quiet _ Hq).
  destruct (documents (db w) !! documentId) as [row|]; cbn [run bind try_catch]; [|done].
  destruct (bool_decide (owner_id row = userId)); cbn [run bind try_catch]; [done|].
  cbn [exec]. unfold fallible. rewrite (pop_fault_quiet _ Hq).
  by destruct (permissions (db w) !! (documentId, userId)).
Qed.

(** With or without failures, the role is the database's or null, and
    nothing is written. *)
Lemma getUserDocumentRole_run w userId documentId :
  exists role w',
    run (getUserDocumentRole userId documentId) w = (Ok role, w') /\
    (role = None \/ role = role_of (db w) userId documentId) /\
    db w' = db w /\ storage w' = storage w /\ gitLocks w' = gitLocks w.
Proof.
  unfold getUserDocumentRole, role_of.
  cbn [run bind try_catch call exec]. unfold fallible.
  destruct (pop_fault w) as [[] w1] eqn:Hp1;
    destruct (pop_fault_same _ _ _ Hp1) as (Hd1 & Hs1 & Hl1).
  { eexists _, _. split; [reflexivity|]. auto. }
  rewrite Hd1.
  destruct (documents (db w) !! documentId) as [row|]; cbn [run bind try_catch].
  2:{ eexists _, _. split; [reflexivity|]. auto. }
  destruct (bool_decide (owner_id row = userId)); cbn [run bind try_catch].
  { eexists _, _. split; [reflexivity|]. auto. }
  cbn [exec]. unfold fallible.
  destruct (pop_fault w1) as [[] w2] eqn:Hp2;
    destruct (pop_fault_same _ _ _ Hp2) as (Hd2 & Hs2 & Hl2).
  { eexists _, _. split; [reflexivity|]. repeat split; auto; congruence. }
  rewrite Hd2, Hd1.
  destruct (permissions (db w) !! (documentId, userId));
    eexists _, _; (split; [reflexivity|]); repeat split; auto; congruence.
Qed.

(** The save of a requester who may not write: 403, and nothing written. *)
Lemma save_forbidden (w : world) (id : Z) (content : string) (userId : Z) :
  may_not_write (role_of (db w) userId id) = true ->
  exists w',
    run (save id content userId) w = (Ok (status_json 403 (Error forbidden_message)), w') /\
    db w' = db w /\ storage w' = storage w /\ gitLocks w' = gitLocks w.
Proof.
  intros Hno.
  destruct (getUserDocumentRole_run w userId id) as (role & w' & Hr & Hrole & Hsame).
  exists w'. split; [|exact Hsame].
  unfold save.
  assert (Hb : forall A B (p : prog A) (f : A -> prog B) a w w',
             run p w = (Ok a, w') -> run (bind p f) w = run (f a) w').
  { intros A B p. induction p as [a0|e|X c k IH]; intros f a w0 w0' H.
    - by injection H as <- <-.
    - discriminate.
    - cbn [run bind] in *. destruct (exec c w0) as [r w1]. by apply IH. }
  rewrite (Hb _ _ _ _ _ _ _ Hr).
  destruct Hrole as [-> | ->]; [done|]. by rewrite Hno.
Qed.

Lemma run_bind A B (p : prog A) (f : A -> prog B) w :
  run (bind p f) w =
  match run p w with
  | (Ok a, w') => run (f a) w'
  | (Err e, w') => (Err e, w')
  end.
Proof.
  revert w. induction p as [a|e|X c k IH]; intros w; [done|done|].
  cbn [run bind]. destruct (exec c w) as [r w1]. apply IH.
Qed.

Lemma run_try_catch A (p : prog A) (h : string -> prog A) w :
  run (try_catch p h) w =
  match run p w with
  | (Ok a, w') => (Ok a, w')
  | (Err e, w') => run (h e) w'
  end.
Proof.
  revert w. induction p as [a|e|X c k IH]; intros w; [done|done|].
  cbn [run try_catch]. destruct (exec c w) as [r w1]. apply IH.
Qed.

Lemma run_call X (c : cmd X) w : run (call c) w = exec c w.
Proof. cbn [run call]. destruct (exec c w) as [[x|e] w1]; done. Qed.

Lemma includes_modified r p : includes p (modified (git_status r)) = is_modified r p.
Proof.
  unfold includes, git_status. cbn [modified].
  destruct (is_modified r p) eqn:Hm.
  - apply bool_decide_eq_true_2. apply list_elem_of_filter. split; [done|].
    unfold known_paths. apply elem_of_elements.
    unfold is_modified, staged_code, unstaged_code in Hm.
    destruct (index r !! p) eqn:Hi.
    + apply elem_of_union_l, elem_of_union_r, elem_of_dom. eauto.
    + destruct (head_tree r !! p), (worktree r !! p); discriminate.
  - apply bool_decide_eq_false_2. intros [H _]%list_elem_of_filter. congruence.
Qed.

Lemma includes_not_added r p : includes p (not_added (git_status r)) = is_not_added r p.
Proof.
  unfold includes, git_status. cbn [not_added].
  destruct (is_not_added r p) eqn:Hm.
  - apply bool_decide_eq_true_2. apply list_elem_of_filter. split; [done|].
    unfold known_paths. apply elem_of_elements.
    unfold is_not_added, unstaged_code in Hm.
    destruct (worktree r !! p) eqn:Hi.
    + apply elem_of_union_l, elem_of_union_l, elem_of_dom. eauto.
    + destruct (index r !! p); discriminate.
  - apply bool_decide_eq_false_2. intros [H _]%list_elem_of_filter. congruence.
Qed.


Section NoOpSave.
Variables (id : Z) (content : string) (row : document_row) (r : repo).
Hypothesis Hhead : head_tree r !! fs_path row = Some content.
Hypothesis Htidy : tidy (fs_path row) r.




End NoOpSave.

Section Create.
Variables (w : world) (name : string) (userId : Z).
Let id := documents_seq (db w) + 1.
Let row := {| Model.name := name; path := "/"; fs_path := filename; owner_id := userId |}.
Hypothesis Hquiet : faults w = [].
Hypothesis Hpath : fs_path_taken (db w) filename = false.
Hypothesis Hid : documents (db w) !! id = None.
Hypothesis Hdir : storage w !! id = None.

Lemma createDocument_quiet :
  permissions (db w) !! (id, userId) = None ->
  exists w',
    run (createDocument name userId) w = (Ok (json (DocumentJson id row)), w') /\
    documents (db w') !! id = Some row /\
    permissions (db w') !! (id, userId) = Some "owner" /\
    storage w' !! id = Some (created_repo name).
Proof.
  intros Hperm.
  assert (Hq : forall w0, faults w0 = [] -> pop_fault w0 = (false, w0))
    by apply pop_fault_quiet.
  unfold createDocument, initDocumentRepo.
  cbn [run bind try_catch call exec]. unfold fallible.
  rewrite (Hq w Hquiet). cbv beta zeta. cbn [fs_path]. fold id. rewrite Hpath.
  rewrite bool_decide_eq_false_2 by (rewrite Hid; apply is_Some_None).
  cbn [run bind try_catch call exec storage set_db].
  rewrite bool_decide_eq_false_2 by (rewrite Hdir; apply is_Some_None).
  cbn [negb run bind try_catch call exec]. unfold fallible.
  rewrite Hq by done. cbn [storage set_db]. rewrite Hdir.
  cbn [run bind try_catch call exec storage set_db set_storage].
  rewrite bool_decide_eq_true_2 by (rewrite lookup_insert_eq; eauto).
  do 4 (cbn [run bind try_catch call exec]; unfold fallible, in_repo;
        rewrite Hq by done; cbn [storage set_db set_storage]; rewrite lookup_insert_eq;
        cbn [git_dir worktree index commits write_file git_init empty_dir]).
  cbn [run bind try_catch call exec]. unfold fallible, in_repo.
  rewrite Hq by done. cbn [storage set_db set_storage]. rewrite lookup_insert_eq.
  unfold git_add. cbn [git_dir worktree index commits write_file git_init empty_dir].
  rewrite lookup_insert_eq.
  cbn [run bind try_catch call exec]. unfold fallible, in_repo.
  rewrite Hq by done. cbn [storage set_db set_storage]. rewrite lookup_insert_eq.
  unfold git_commit, head_tree, fresh_hash.
  cbn [git_dir worktree index commits fmap list_fmap foldr orb].
  rewrite bool_decide_eq_false_2 by apply insert_non_empty.
  cbn [negb]. named_commit.
  cbn [run bind try_catch call exec]. unfold fallible.
  rewrite Hq by done. cbv beta zeta. cbn [db set_db set_storage permissions].
  replace (role_allowed "owner") with true by reflexivity. cbn [negb].
  rewrite bool_decide_eq_false_2 by (rewrite Hperm; apply is_Some_None).
  cbn [run bind try_catch].
  eexists. split; [reflexivity|].
  cbn [db set_db set_storage documents permissions storage].
  rewrite !lookup_insert_eq. done.
Qed.
End Create.

Lemma disciplined_coalesced id (p : prog response) :
  disciplined id Coalesced p -> p = Ret (json SuccessQueued).
Proof.
  destruct p as [res|e|X c k]; cbn [disciplined].
  - by intros ->.
  - done.
  - by intros (_ & H & _).
Qed.

Section Rollback.
Variables (w : world) (id : Z) (h : nat) (row : document_row) (r : repo) (c c0 : string).
Hypothesis Hquiet : faults w = [].
Hypothesis Hrow : documents (db w) !! id = Some row.
Hypothesis Hrepo : storage w !! id = Some r.
Hypothesis Hgit : git_dir r = true.
Hypothesis Hshow : git_show_file h (fs_path row) r = Some c.
Hypothesis Hfile : worktree r !! fs_path row = Some c0.
Hypothesis Hindex : index r !! fs_path row = Some c0.
Hypothesis Hhead : head_tree r !! fs_path row = Some c0.

Ltac quiet_call :=
  cbn [run bind try_catch call exec]; unfold fallible, in_repo;
  rewrite pop_fault_quiet by done;
  cbn [storage db set_db set_storage]; rewrite ?lookup_insert_eq.

(** In a repository whose file is committed and unchanged, a rollback to
    a commit that has the file adds one commit, with that commit's
    content, on top of the history. *)
Lemma rollback_clean_appends :
  exists w' new,
    run (rollback id h) w = (Ok (json Success), w') /\
    commits_of w' id = new :: commits r /\
    tree new !! fs_path row = Some c /\
    (storage w' !! id ≫= fun r' => worktree r' !! fs_path row) = Some c.
Proof.
  assert (exists cm, find_commit h r = Some cm) as [cm Hfind].
  { unfold git_show_file in Hshow. destruct (find_commit h r); [eauto|discriminate]. }
  assert (exists c1 l, commits r = c1 :: l) as (c1 & l & Hcommits).
  { unfold find_commit in Hfind. destruct (commits r); [discriminate|eauto]. }
  unfold rollback.
  quiet_call. rewrite Hrow. cbv beta iota zeta.
  cbn [run bind try_catch call exec]. rewrite Hrepo.
  rewrite bool_decide_eq_true_2 by eauto.
  quiet_call. rewrite Hrepo, Hgit, Hcommits.
  quiet_call. rewrite Hgit, Hshow. cbn [of_option].
  cbn [run bind try_catch call exec storage set_storage]. rewrite lookup_insert_eq, Hfile.
  rewrite bool_decide_eq_true_2 by eauto.
  quiet_call. cbn [mbind option_bind]. rewrite Hfile. cbn [of_option].
  quiet_call.
  set (r1 := write_file (fs_path row) c r).
  quiet_call. replace (git_dir r1) with true by (symmetry; exact Hgit).
  replace (git_show_subject h r1) with (Some (subject (message cm) ++ newline)).
  2:{ unfold git_show_subject, find_commit in *. subst r1. cbn [commits write_file].
      destruct (list_find _ (commits r)) as [[? ?]|]; [|discriminate].
      cbn in Hfind |- *. by injection Hfind as ->. }
  cbn [of_option].
  quiet_call. replace (git_dir r1) with true by (symmetry; exact Hgit).
  unfold git_add. replace (worktree r1 !! fs_path row) with (Some c)
    by (subst r1; cbn [worktree write_file]; by rewrite lookup_insert_eq).
  set (r2 := {| git_dir := _ |}).
  quiet_call. replace (git_dir r2) with true by (symmetry; exact Hgit).
  cbn [bind]. rewrite includes_modified, includes_not_added.
  assert (Hh2 : head_tree r2 !! fs_path row = Some c0) by exact Hhead.
  assert (Hi2 : index r2 !! fs_path row = Some c).
  { subst r2. cbn [index]. by rewrite lookup_insert_eq. }
  assert (Hw2 : worktree r2 !! fs_path row = Some c).
  { subst r2 r1. cbn [worktree write_file]. by rewrite lookup_insert_eq. }
  assert (Hmod : is_modified r2 (fs_path row) = negb (bool_decide (c0 = c))).
  { unfold is_modified, staged_code, unstaged_code. rewrite Hh2, Hi2, Hw2.
    rewrite (bool_decide_eq_true_2 (c = c)) by done. by destruct (bool_decide (c0 = c)). }
  assert (Hna : is_not_added r2 (fs_path row) = false).
  { unfold is_not_added, unstaged_code. rewrite Hi2, Hw2. by destruct (bool_decide (c = c)). }
  rewrite Hmod, Hna, orb_false_r, orb_diag.
  assert (Hcommit : forall msg allow_empty,
             allow_empty = true \/ c0 <> c ->
             git_commit msg allow_empty r2 =
             ({| git_dir := git_dir r2; worktree := worktree r2; index := index r2;
                 commits := {| hash := fresh_hash r2; message := git_cleanup msg;
                               tree := index r2 |}
                            :: commits r2 |}, Some (fresh_hash r2))).
  { intros msg allow_empty Hor. unfold git_commit.
    destruct Hor as [-> | Hne]; [done|].
    rewrite (bool_decide_eq_false_2 (index r2 = head_tree r2)); [by rewrite orb_true_r|].
    intros Heq. rewrite Heq in Hi2. congruence. }
  destruct (bool_decide (c0 = c)) eqn:Hsame; cbn [negb].
  - quiet_call. replace (git_dir r2) with true by (symmetry; exact Hgit).
    rewrite Hcommit by auto. named_commit. cbn [run bind try_catch].
    eexists _, _. split; [reflexivity|].
    unfold commits_of. cbn [storage set_storage]. rewrite lookup_insert_eq.
    subst r2 r1. cbn [commits mbind option_bind tree worktree index write_file] in *.
    rewrite Hcommits. auto.
  - apply bool_decide_eq_false_1 in Hsame.
    quiet_call. replace (git_dir r2) with true by (symmetry; exact Hgit).
    rewrite Hcommit by auto. named_commit. cbn [run bind try_catch].
    eexists _, _. split; [reflexivity|].
    unfold commits_of. cbn [storage set_storage]. rewrite lookup_insert_eq.
    subst r2 r1. cbn [commits mbind option_bind tree worktree index write_file] in *.
    rewrite Hcommits. auto.
Qed.
End Rollback.

(* ===================================================================== *)
(** * The handlers keep to the document's file                           *)
(* ===================================================================== *)

Lemma pop_fault_uniform w b w1 : pop_fault w = (b, w1) -> uniform w -> uniform w1.
Proof.
  intros Hp. destruct (pop_fault_same _ _ _ Hp) as (Hd & Hs & _).
  unfold uniform. by rewrite Hd, Hs.
Qed.

Lemma uniform_insert w i r :
  uniform w -> tidy filename r -> uniform (set_storage (insert i r) w).
Proof.
  intros [Hd Hs] Ht. split; [exact Hd|].
  intros j r'. cbn [storage set_storage]. destruct (decide (i = j)) as [->|Hne].
  - rewrite lookup_insert_eq. by intros [= <-].
  - rewrite lookup_insert_ne by done. apply Hs.
Qed.

Lemma uniform_in_repo X i w (act : repo -> result X * repo) r w1 :
  (forall rp x rp', tidy filename rp -> act rp = (x, rp') -> tidy filename rp') ->
  uniform w -> in_repo i w act = (r, w1) -> uniform w1.
Proof.
  intros Hact Hu. unfold in_repo.
  destruct (storage w !! i) as [rp|] eqn:Hl; [|by intros [= <- <-]].
  destruct (git_dir rp); [|by intros [= <- <-]].
  destruct (act rp) as [x rp'] eqn:Ha. intros [= <- <-].
  apply uniform_insert; [done|]. eapply Hact; [|exact Ha]. by eapply Hu.
Qed.

Lemma tidy_git_add rp rp' : tidy filename rp -> git_add filename rp = Some rp' -> tidy filename rp'.
Proof.
  intros Ht. unfold git_add. destruct (worktree rp !! filename).
  - intros [= <-] q Hq. cbn [index head_tree commits]. rewrite lookup_insert_ne by done.
    by apply Ht.
  - destruct (index rp !! filename); [|discriminate].
    intros [= <-] q Hq. cbn [index head_tree commits]. rewrite lookup_delete_ne by done.
    by apply Ht.
Qed.

Lemma tidy_git_commit msg allow_empty rp rp' x :
  tidy filename rp -> git_commit msg allow_empty rp = (rp', x) -> tidy filename rp'.
Proof.
  intros Ht. unfold git_commit. destruct (_ || _); intros [= <- <-]; [|done].
  by intros q Hq.
Qed.

Lemma uniform_set_db w (f : database -> database) :
  (forall i row, documents (f (db w)) !! i = Some row -> fs_path row = filename) ->
  uniform w -> uniform (set_db f w).
Proof. intros Hf [_ Hs]. by split. Qed.

Lemma tidy_same_index rp rp' :
  index rp' = index rp -> commits rp' = commits rp -> tidy filename rp -> tidy filename rp'.
Proof. intros Hi Hc Ht q Hq. unfold head_tree. rewrite Hi, Hc. by apply Ht. Qed.

Lemma exec_uniform X (c : cmd X) w r w1 :
  uniform w -> proper_call c -> exec c w = (r, w1) -> uniform w1.
Proof.
  intros Hu Hc.
  destruct c; cbn [exec]; intros He;
    try (injection He as <- <-; exact Hu);
    apply fallible_cases in He as (b & w0 & Hp & He);
    pose proof (pop_fault_uniform _ _ _ Hp Hu) as Hu0;
    (destruct b; [destruct He as [_ ->]; exact Hu0|]);
    try (injection He as <- <-; exact Hu0).
  - (* InsertDocument *)
    destruct (fs_path_taken _ _); [injection He as <- <-; exact Hu0|].
    destruct (bool_decide _); injection He as <- <-; [exact Hu0|].
    apply uniform_set_db; [|exact Hu0]. intros i row'. cbn [documents].
    destruct (decide (documents_seq (db w0) + 1 = i)) as [->|Hne].
    + rewrite lookup_insert_eq. by intros [= <-].
    + rewrite lookup_insert_ne by done. apply Hu0.
  - (* InsertPermission *)
    destruct (negb _); [injection He as <- <-; exact Hu0|].
    destruct (bool_decide _); injection He as <- <-; [exact Hu0|].
    apply uniform_set_db; [|exact Hu0]. apply Hu0.
  - (* UpsertPermission *)
    destruct (negb _); [injection He as <- <-; exact Hu0|].
    destruct (bool_decide _); injection He as <- <-; [exact Hu0|].
    apply uniform_set_db; [|exact Hu0]. apply Hu0.
  - (* MkdirSync *)
    destruct (storage w0 !! id); injection He as <- <-; [exact Hu0|].
    apply uniform_insert; [exact Hu0|]. by intros q Hq.
  - (* WriteFileSync *)
    destruct (storage w0 !! id) as [rp|] eqn:Hl; injection He as <- <-; [|exact Hu0].
    apply uniform_insert; [exact Hu0|].
    apply (tidy_same_index rp); [done|done|]. by eapply Hu0.
  - (* GitInit *)
    destruct (storage w0 !! id) as [rp|] eqn:Hl; injection He as <- <-; [|exact Hu0].
    apply uniform_insert; [exact Hu0|].
    apply (tidy_same_index rp); [done|done|]. by eapply Hu0.
  - (* GitAddConfig *)
    eapply uniform_in_repo; [|exact Hu0|exact He]. intros rp x rp' Ht H.
    by injection H as _ <-.
  - (* GitAdd *)
    cbn [proper_call] in Hc. subst p.
    eapply uniform_in_repo; [|exact Hu0|exact He]. intros rp x rp' Ht. cbv beta.
    destruct (git_add filename rp) eqn:Hg; intros H; injection H as _ <-; [|done].
    by eapply tidy_git_add.
  - (* GitCommit *)
    eapply uniform_in_repo; [|exact Hu0|exact He]. intros rp x rp' Ht. cbv beta.
    destruct (git_commit msg allow_empty rp) as [rp1 h1] eqn:Hg.
    destruct (_ && _); intros H; injection H as _ <-; [done|by eapply tidy_git_commit].
  - (* GitStatus *)
    eapply uniform_in_repo; [|exact Hu0|exact He]. intros rp x rp' Ht H.
    by injection H as _ <-.
  - (* GitLog *)
    eapply uniform_in_repo; [|exact Hu0|exact He]. intros rp x rp' Ht. cbv beta.
    destruct (commits rp); intros H; by injection H as _ <-.
  - (* GitShowFile *)
    eapply uniform_in_repo; [|exact Hu0|exact He]. intros rp x rp' Ht H.
    by injection H as _ <-.
  - (* GitShowSubject *)
    eapply uniform_in_repo; [|exact Hu0|exact He]. intros rp x rp' Ht H.
    by injection H as _ <-.
Qed.

Lemma exec_uniform_answer X (c : cmd X) w r w1 :
  uniform w -> exec c w = (r, w1) -> uniform_answer c r.
Proof.
  intros Hu. destruct c; cbn [exec uniform_answer]; try done.
  intros He. apply fallible_cases in He as (b & w0 & Hp & He).
  destruct b; [by destruct He as [-> _]|].
  injection He as <- _.
  destruct (pop_fault_same _ _ _ Hp) as (Hd & _ & _). rewrite Hd.
  destruct (documents (db w) !! id) eqn:Hl; [|done]. by eapply Hu.
Qed.

Lemma run_uniform A (p : prog A) :
  forall w, proper p -> uniform w -> uniform (run p w).2.
Proof.
  induction p as [a|e|X c k IH]; intros w Hp Hu; [done|done|].
  cbn [run]. destruct (exec c w) as [r w1] eqn:He.
  destruct Hp as [Hc Hk]. apply IH.
  - apply Hk. by eapply exec_uniform_answer.
  - by eapply exec_uniform.
Qed.

Lemma run_sync_uniform A t (p : prog A) :
  forall w p' w' tr,
    proper p -> uniform w -> run_sync t p w = (p', w', tr) -> proper p' /\ uniform w'.
Proof.
  induction p as [a|e|X c k IH]; intros w p' w' tr Hp Hu Hr.
  - by injection Hr as <- <- _.
  - by injection Hr as <- <- _.
  - cbn [run_sync] in Hr. destruct (awaited c).
    + by injection Hr as <- <- _.
    + destruct (exec c w) as [r w1] eqn:He.
      destruct (run_sync t (k r) w1) as [[p1 w2] tr1] eqn:Hr1.
      injection Hr as <- <- _. destruct Hp as [Hc Hk].
      eapply IH; [| |exact Hr1].
      * apply Hk. by eapply exec_uniform_answer.
      * by eapply exec_uniform.
Qed.

Lemma resume_uniform A t (p : prog A) w p' w' tr :
  proper p -> uniform w -> resume t p w = (p', w', tr) -> proper p' /\ uniform w'.
Proof.
  destruct p as [a|e|X c k]; cbn [resume]; intros Hp Hu Hr.
  - by injection Hr as <- <- _.
  - by injection Hr as <- <- _.
  - destruct (exec c w) as [r w1] eqn:He.
    destruct (run_sync t (k r) w1) as [[p1 w2] tr1] eqn:Hr1.
    injection Hr as <- <- _. destruct Hp as [Hc Hk].
    eapply run_sync_uniform; [| |exact Hr1].
    + apply Hk. by eapply exec_uniform_answer.
    + by eapply exec_uniform.
Qed.

(** Whatever the schedule and the failures, two handlers that keep to the
    document's file leave the system uniform. *)
Lemma interleave_uniform sched :
  forall c, proper (first c) -> proper (second c) -> uniform (state c) ->
            uniform (state (interleave sched c).1).
Proof.
  induction sched as [|t sched IH]; intros c H1 H2 Hu; [done|].
  cbn [interleave]. destruct (turn t c) as [c1 tr1] eqn:Ht.
  destruct (interleave sched c1) as [c2 tr2] eqn:Hi. cbn [fst].
  specialize (IH c1). rewrite Hi in IH. cbn [fst] in IH.
  destruct t; cbn [turn] in Ht.
  - destruct (resume First (first c) (state c)) as [[p w] tr'] eqn:Hr.
    injection Ht as <- _.
    destruct (resume_uniform _ _ _ _ _ _ _ H1 Hu Hr). by apply IH.
  - destruct (resume Second (second c) (state c)) as [[p w] tr'] eqn:Hr.
    injection Ht as <- _.
    destruct (resume_uniform _ _ _ _ _ _ _ H2 Hu Hr). by apply IH.
Qed.

Ltac proper_step :=
  first
    [ progress (cbn [proper bind try_catch call proper_call uniform_answer])
    | split
    | intros ?
    | exact eq_refl
    | exact I
    | assumption
    | match goal with
      | H : match ?x with _ => _ end |- _ => destruct x
      | |- context [match ?x with _ => _ end] => destruct x
      | |- context [if ?x then _ else _] => destruct x
      end ].

Lemma createDocument_proper name userId : proper (createDocument name userId).
Proof. unfold createDocument, initDocumentRepo. repeat proper_step. Qed.

Lemma save_proper id content userId : proper (save id content userId).
Proof. unfold save, save_locked, getUserDocumentRole. repeat proper_step. Qed.

Lemma rollback_proper id h : proper (rollback id h).
Proof. unfold rollback. repeat proper_step. Qed.

Lemma share_proper id username role : proper (share id username role).
Proof. unfold share. repeat proper_step. Qed.

Lemma fresh_uniform : uniform Scenario.fresh.
Proof.
  split; intros i x H; unfold Scenario.fresh in H; cbn [db documents storage] in H;
    by rewrite lookup_empty in H.
Qed.

Lemma uniform_tidy w id row r :
  uniform w -> documents (db w) !! id = Some row -> storage w !! id = Some r ->
  tidy (fs_path row) r.
Proof.
  intros [Hd Hs] Hrow Hrepo. rewrite (Hd _ _ Hrow). by eapply Hs.
Qed.

(* ===================================================================== *)
(** * The properties                                                    *)
(* ===================================================================== *)

Import Scenario.

(** ** Roles *)

(** C10.  When the database answers: the owner of a document resolves to
    'owner' whatever the permissions table holds for the pair; for
    everybody else the role is the row of the permissions table, null
    when there is none; and a document that does not exist gives null. *)
Theorem owner_role_precedence (w : world) (userId documentId : Z) :
  faults w = [] ->
  let role := (run (getUserDocumentRole userId documentId) w).1 in
  (forall row, documents (db w) !! documentId = Some row -> owner_id row = userId ->
               role = Ok (Some "owner")) /\
  (forall row, documents (db w) !! documentId = Some row -> owner_id row <> userId ->
               role = Ok (permissions (db w) !! (documentId, userId))) /\
  (documents (db w) !! documentId = None -> role = Ok None).
Proof.
  intros Hq role. subst role. rewrite (getUserDocumentRole_quiet _ _ _ Hq). cbn [fst].
  unfold role_of. split; [|split].
  - intros row -> Ho. by rewrite bool_decide_eq_true_2.
  - intros row -> Ho. by rewrite bool_decide_eq_false_2.
  - by intros ->.
Qed.

Lemma owner_role_precedence_witness :
  permissions (db ungranted) !! (1, 1) = None /\
  (run (share 1 "u1" "reader") ungranted).1 = Ok (json Success) /\
  permissions (db (run (share 1 "u1" "reader") ungranted).2) !! (1, 1) = Some "reader" /\
  (run (getUserDocumentRole 1 1) (run (share 1 "u1" "reader") ungranted).2).1
    = Ok (Some "owner").
Proof.
  split; [vm_compute; reflexivity|]. split; [vm_compute; reflexivity|].
  split; [vm_compute; reflexivity|].
  destruct (owner_role_precedence (run (share 1 "u1" "reader") ungranted).2 1 1)
    as (Howner & _ & _); [vm_compute; reflexivity|].
  apply (Howner {| name := "Notes"; path := "/"; fs_path := filename; owner_id := 1 |});
    vm_compute; reflexivity.
Defined.

(** C2, at the input where the code falls short of it.  u2 is a reader of
    document 1 and u3 has no grant.  A save by u2 is answered 403; the
    rollback handler reads no requester and checks no role: the same
    request to roll back to commit 1 is served, the file is overwritten and
    commit 3 is created. *)
Theorem rollback_checks_no_role :
  (run (getUserDocumentRole 2 1) shared).1 = Ok (Some "reader") /\
  (run (getUserDocumentRole 3 1) shared).1 = Ok None /\
  (run (save 1 "x" 2) shared).1 = Ok (status_json 403 (Error forbidden_message)) /\
  file shared 1 = Some "Hello" /\
  hashes shared 1 = [2; 1]%nat /\
  (run (rollback 1 1) shared).1 = Ok (json Success) /\
  file (run (rollback 1 1) shared).2 1 = Some "" /\
  hashes (run (rollback 1 1) shared).2 1 = [3; 2; 1]%nat.
Proof. vm_compute. repeat split. Qed.

(** ** The save lock *)

(** C7.  A save that starts with no entry for its document in [gitLocks]
    ends, on every path and whatever calls fail, with no entry for it;
    the part of the handler that runs under the lock (the try block with
    its 404 path, and the catch) ends without the entry from any state;
    a save that comes after a finished one is not answered as coalesced;
    and when the save shares the event loop with another save of the
    document, the lock is free once both are answered. *)
Theorem save_releases_lock (w : world) (id : Z) (content : string) (userId : Z) :
  gitLocks w !! id = None ->
  gitLocks (run (save id content userId) w).2 !! id = None /\
  (forall w1, gitLocks (run (save_locked id content) w1).2 !! id = None) /\
  (forall content' userId',
      exists res, (run (save id content' userId') (run (save id content userId) w).2).1 = Ok res /\
                  body res <> SuccessQueued) /\
  (forall sched content' userId',
      let finish := (interleave sched {| first := save id content userId;
                                         second := save id content' userId';
                                         state := w |}).1 in
      is_Some (answer (first finish)) -> is_Some (answer (second finish)) ->
      saving (state finish) id = false).
Proof.
  intros Hfree.
  destruct (run_disciplined id _ Outside w (save_disciplined id content userId) Hfree)
    as (res & w' & Hr & Hl & _).
  rewrite Hr. cbn [snd]. split; [exact Hl|]. split; [|split].
  - intros w1.
    destruct (run_disciplined id _ (Holding false) w1 (save_locked_disciplined id content) I)
      as (res1 & w1' & Hr1 & Hl1 & _).
    by rewrite Hr1.
  - intros content' userId'.
    destruct (run_disciplined id _ Outside w' (save_disciplined id content' userId') Hl)
      as (res2 & w2 & Hr2 & _ & Hb).
    exists res2. by rewrite Hr2.
  - intros sched content' userId'. cbv zeta.
    destruct (interleave sched _) as [c' tr] eqn:Hrun. cbn [fst].
    assert (Hk : kept id (Outside, Outside)
                   {| first := save id content userId; second := save id content' userId';
                      state := w |}).
    { split; [|split]; cbn [fst snd first second state].
      - unfold settled, saving. cbn [fst snd holding]. by rewrite Hfree.
      - apply save_disciplined.
      - apply save_disciplined. }
    destruct (interleave_monitored id sched _ _ _ _ Hk Hrun)
      as (m' & _ & (_ & _ & Hs & _) & Hd1 & Hd2).
    intros [r1 H1] [r2 H2]. rewrite Hs.
    destruct (first c') as [res1| |]; try discriminate.
    destruct (second c') as [res2| |]; try discriminate.
    cbn [disciplined] in Hd1, Hd2.
    by destruct m'.1 as [| |[]| |], m'.2 as [| |[]| |].
Qed.

Lemma save_releases_lock_witness :
  gitLocks saved !! 1 = None /\
  gitLocks (run (save 1 "Hello World" 1) (set_faults [false; false; false; true] saved)).2 !! 1
    = None.
Proof.
  split; [reflexivity|].
  apply (save_releases_lock (set_faults [false; false; false; true] saved) 1 "Hello World" 1).
  reflexivity.
Defined.

(** C3, at the input where the code falls short of it.  A save holds the
    lock of document 1 and has written "Hello World"; before its
    [git.status()] comes back, a rollback to commit 1 runs from its file
    write to its commit.  The rollback never looks at [gitLocks].  Both
    requests are answered { success: true }; the saved content is in no
    commit and no longer on disk. *)
Theorem rollback_runs_inside_save :
  visible (interleave race_schedule race_start).2 =
    [ (First, LockSeen 1 false); (First, LockTaken 1); (First, FileWritten 1);
      (Second, FileWritten 1); (Second, Staged 1); (Second, StatusRead 1);
      (Second, CommitRun 1 true);
      (First, StatusRead 1); (First, LockReleased 1) ] /\
  exclusive 1 None (interleave race_schedule race_start).2 = false /\
  answer (first (interleave race_schedule race_start).1) = Some (json Success) /\
  answer (second (interleave race_schedule race_start).1) = Some (json Success) /\
  file (state (interleave race_schedule race_start).1) 1 = Some "" /\
  contents (state (interleave race_schedule race_start).1) 1 =
    [Some ""; Some "Hello"; Some ""].
Proof. vm_compute. repeat split. Qed.

(** ** The version history *)



(** C1, at the input where the code falls short of it.  The working file
    holds "Hello World", written by a save whose [git.status()] failed
    (the save was answered 500), and the head, commit 2, holds "Hello".
    Rolling back to commit 2 restores "Hello" on disk and answers
    { success: true }, but the history is left as it was: the restored
    content differs from the file's, so the handler takes the branch
    without --allow-empty, and git, whose index is the head's snapshot
    again, has nothing to commit. *)
Theorem rollback_without_commit :
  (run (save 1 "Hello World" 1) (set_faults [false; false; false; true] saved)).1
    = Ok (status_json 500 (Error "git error")) /\
  file unsaved 1 = Some "Hello World" /\
  hashes unsaved 1 = [2; 1]%nat /\
  contents unsaved 1 = [Some "Hello"; Some ""] /\
  (run (rollback 1 2) unsaved).1 = Ok (json Success) /\
  file (run (rollback 1 2) unsaved).2 1 = Some "Hello" /\
  hashes (run (rollback 1 2) unsaved).2 1 = [2; 1]%nat.
Proof. vm_compute. repeat split. Qed.

(** C5, at the input where the code falls short of it.  No commit of
    document 1 is named 7.  [git.show] fails, the handler takes the empty
    string for the content, and the rollback is served: the file is
    emptied and a commit "Revert to previous version" is added. *)
Theorem rollback_to_unknown_hash :
  hashes saved 1 = [2; 1]%nat /\
  file saved 1 = Some "Hello" /\
  (run (rollback 1 7) saved).1 = Ok (json Success) /\
  file (run (rollback 1 7) saved).2 1 = Some "" /\
  messages (run (rollback 1 7) saved).2 1 =
    ["Revert to previous version"; "Update document"; "Create document Notes"] /\
  contents (run (rollback 1 7) saved).2 1 = [Some ""; Some "Hello"; Some ""].
Proof. vm_compute. repeat split. Qed.

(** The scenario of the specification: create, two saves, a rollback to the
    first save. *)
Example history_after_rollback :
  let w2 := (run (save 1 "Hello World" 2) (run (share 1 "u2" "writer") saved).2).2 in
  contents w2 1 = [Some "Hello World"; Some "Hello"; Some ""] /\
  (run (rollback 1 2) w2).1 = Ok (json Success) /\
  contents (run (rollback 1 2) w2).2 1 =
    [Some "Hello"; Some "Hello World"; Some "Hello"; Some ""] /\
  file (run (rollback 1 2) w2).2 1 = Some "Hello".
Proof. vm_compute. repeat split. Qed.

(** ** Creating a document *)

(** C9 as stated does not hold: the server creates the document. *)
Lemma empty_name_is_created : ~ create_refused "" 1 fresh.
Proof.
  intros (res & w' & Hrun & Hstatus & _).
  destruct (createDocument_quiet fresh "" 1) as (w1 & Hrun1 & _); try reflexivity.
  rewrite Hrun1 in Hrun. injection Hrun as <- _. by apply Hstatus.
Qed.

(** C9, amended.  The client stops an empty name: the click handler returns
    before any request, with no toast, and nothing changes.  The server
    does not look at the name: where a create can succeed, it succeeds for
    the empty name as well, with the row inserted, the owner grant, the
    repository initialized and the initial commit made; the message of
    that commit is "Create document", as git drops the blank at the end
    of the message it is given. *)
Theorem empty_name_create (w : world) (userId : Z) :
  run (create_doc_btn "" userId) w = (Ok None, w) /\
  (let id := documents_seq (db w) + 1 in
   let row := {| name := ""; path := "/"; fs_path := filename; owner_id := userId |} in
   faults w = [] ->
   fs_path_taken (db w) filename = false ->
   documents (db w) !! id = None ->
   storage w !! id = None ->
   permissions (db w) !! (id, userId) = None ->
   exists w',
     run (createDocument "" userId) w = (Ok (json (DocumentJson id row)), w') /\
     documents (db w') !! id = Some row /\
     permissions (db w') !! (id, userId) = Some "owner" /\
     storage w' !! id = Some (created_repo "") /\
     messages w' id = ["Create document"]).
Proof.
  split; [reflexivity|].
  intros id row Hq Hp Hid Hdir Hperm.
  destruct (createDocument_quiet w "" userId Hq Hp Hid Hdir Hperm)
    as (w' & Hrun & Hrow & Hgrant & Hrepo).
  exists w'. repeat (split; [assumption|]).
  unfold messages, commits_of. subst id. by rewrite Hrepo.
Qed.

Lemma empty_name_create_witness :
  run (create_doc_btn "" 1) fresh = (Ok None, fresh) /\
  exists w',
    run (createDocument "" 1) fresh =
      (Ok (json (DocumentJson 1 {| name := ""; path := "/"; fs_path := filename;
                                   owner_id := 1 |})), w') /\
    storage w' !! 1 = Some (created_repo "") /\
    messages w' 1 = ["Create document"].
Proof.
  destruct (empty_name_create fresh 1) as [Hclient Hserver].
  split; [exact Hclient|].
  destruct Hserver as (w' & Hrun & _ & _ & Hrepo & Hmessage); try reflexivity.
  exists w'. split; [exact Hrun|]. split; [exact Hrepo|exact Hmessage].
Defined.

Import Requests.

(* ===================================================================== *)
(** * What the handlers have in common                                   *)
(* ===================================================================== *)

Lemma unchanged_refl w : unchanged w w.
Proof. by split. Qed.

Lemma unchanged_trans w1 w2 w3 : unchanged w1 w2 -> unchanged w2 w3 -> unchanged w1 w3.
Proof. intros (? & ? & ?) (? & ? & ?). repeat split; congruence. Qed.

Lemma pop_fault_unchanged w b w1 : pop_fault w = (b, w1) -> unchanged w w1.
Proof. apply pop_fault_same. Qed.

Lemma set_storage_unchanged w i r :
  storage w !! i = Some r -> unchanged w (set_storage (insert i r) w).
Proof.
  intros H. repeat split. cbn [storage set_storage]. by apply insert_id.
Qed.

(** ** No exception leaves a handler *)

Lemma run_catches A (p : prog A) :
  forall w, catches p -> exists a w', run p w = (Ok a, w').
Proof.
  induction p as [a|e|X c k IH]; intros w Hc.
  - by exists a, w.
  - destruct Hc.
  - cbn [run]. destruct (exec c w) as [[x|e] w1] eqn:He; destruct Hc as [Hok Herr].
    + apply IH, Hok.
    + apply IH, Herr. by eapply exec_err.
Qed.

Ltac catches_step :=
  first
    [ progress (cbn [catches bind try_catch call can_fail])
    | split
    | intros ?
    | discriminate
    | exact I
    | match goal with
      | |- context [match ?x with _ => _ end] => is_var x; destruct x
      | |- context [if ?x then _ else _] => destruct x
      end ].

Lemma handler_catches q : catches (handler q).
Proof.
  destruct q; cbn [handler];
    unfold createDocument, initDocumentRepo, getContent, history, rollback, share,
      save, save_locked, getUserDocumentRole;
    repeat catches_step.
Qed.

Lemma run_always A (P : A -> Prop) (p : prog A) :
  forall w a w', always P p -> run p w = (Ok a, w') -> P a.
Proof.
  induction p as [a0|e|X c k IH]; intros w a w' Hp Hr.
  - by injection Hr as <- _.
  - discriminate.
  - cbn [run] in Hr. destruct (exec c w) as [r w1]. eapply IH; [apply Hp|exact Hr].
Qed.

Ltac always_step :=
  first
    [ progress (cbn [always bind try_catch call http_status json status_json status_send])
    | intros ?
    | discriminate
    | exact I
    | exact eq_refl
    | match goal with
      | |- context [match ?x with _ => _ end] => is_var x; destruct x
      | |- context [if ?x then _ else _] => destruct x
      end ].

Ltac fits_step :=
  first
    [ progress (cbn [always bind try_catch call])
    | intros ?
    | exact eq_refl
    | (left; exact eq_refl)
    | (split; exact eq_refl)
    | (right; left; split; exact eq_refl)
    | (right; right; split; exact eq_refl)
    | match goal with
      | |- context [match ?x with _ => _ end] => is_var x; destruct x
      | |- context [if ?x then _ else _] => destruct x
      end ].

(** ** Reads *)

Lemma exec_reading X (c : cmd X) w r w1 :
  reading c = true -> exec c w = (r, w1) -> unchanged w w1.
Proof.
  destruct c; cbn [reading]; try discriminate; intros _; cbn [exec]; intros He;
    try (injection He as <- <-; apply unchanged_refl);
    apply fallible_cases in He as (b & w0 & Hp & He);
    apply (unchanged_trans _ w0); try (by eapply pop_fault_unchanged);
    (destruct b; [destruct He as [_ ->]; apply unchanged_refl|]);
    try (injection He as <- <-; apply unchanged_refl);
    unfold in_repo in He;
    (destruct (storage w0 !! id) as [rp|] eqn:Hl; [|injection He as <- <-; apply unchanged_refl]);
    (destruct (git_dir rp); [|injection He as <- <-; apply unchanged_refl]).
  - injection He as <- <-. by apply set_storage_unchanged.
  - destruct (commits rp); injection He as <- <-; by apply set_storage_unchanged.
  - injection He as <- <-. by apply set_storage_unchanged.
  - injection He as <- <-. by apply set_storage_unchanged.
Qed.

Lemma run_reads_only A (p : prog A) :
  forall w, reads_only p -> unchanged w (run p w).2.
Proof.
  induction p as [a|e|X c k IH]; intros w Hr; [apply unchanged_refl..|].
  cbn [run]. destruct (exec c w) as [r w1] eqn:He. destruct Hr as [Hc Hk].
  eapply unchanged_trans; [by eapply exec_reading|]. by apply IH.
Qed.

Ltac reads_step :=
  first
    [ progress (cbn [reads_only bind try_catch call reading])
    | split
    | intros ?
    | exact eq_refl
    | exact I
    | match goal with
      | |- context [match ?x with _ => _ end] => is_var x; destruct x
      | |- context [if ?x then _ else _] => destruct x
      end ].

Lemma getUserDocumentRole_reads userId documentId :
  reads_only (getUserDocumentRole userId documentId).
Proof. unfold getUserDocumentRole. repeat reads_step. Qed.

Lemma getContent_reads id userId : reads_only (getContent id userId).
Proof. unfold getContent, getUserDocumentRole. repeat reads_step. Qed.

Lemma history_reads id : reads_only (history id).
Proof. unfold history. repeat reads_step. Qed.

(** ** Commits *)

Section Commits.
Variable id : Z.

Lemma exec_history X (c : cmd X) w r w1 :
  exec c w = (r, w1) ->
  commits_of w1 id = commits_of w id \/
  (committing c = true /\ exists new, commits_of w1 id = new :: commits_of w id).
Proof.
  destruct c; cbn [exec committing]; intros He;
    try (injection He as <- <-; by left);
    apply fallible_cases in He as (b & w0 & Hp & He);
    pose proof (pop_fault_storage _ _ _ Hp) as Hs;
    rewrite <- (commits_of_storage id _ _ Hs);
    (destruct b; [destruct He as [_ ->]; by left|]);
    try (injection He as <- <-; by left);
    try (left; eapply in_repo_keep; [|exact He]; intros rp x rp'; cbv beta;
         first [ by intros [= <- <-]
               | destruct (git_add _ _) eqn:Hg; intros H; injection H as _ <-;
                 [by eapply git_add_commits|done]
               | destruct (commits rp) eqn:E; intros H; by injection H as _ <- ]).
  - (* InsertDocument *)
    left. apply commits_of_storage.
    repeat match type of He with
           | (if ?x then _ else _) = _ => destruct x
           end; by injection He as <- <-.
  - (* InsertPermission *)
    left. apply commits_of_storage.
    repeat match type of He with
           | (if ?x then _ else _) = _ => destruct x
           end; by injection He as <- <-.
  - (* UpsertPermission *)
    left. apply commits_of_storage.
    repeat match type of He with
           | (if ?x then _ else _) = _ => destruct x
           end; by injection He as <- <-.
  - (* MkdirSync *)
    left. destruct (storage w0 !! id0) eqn:Hl; injection He as <- <-; [done|].
    rewrite commits_of_insert. case_decide; [|done]. subst.
    unfold commits_of. by rewrite Hl.
  - (* WriteFileSync *)
    left. destruct (storage w0 !! id0) eqn:Hl; injection He as <- <-; [|done].
    rewrite commits_of_insert. case_decide; [|done].
    by rewrite (commits_of_lookup _ _ _ _ Hl).
  - (* GitInit *)
    left. destruct (storage w0 !! id0) eqn:Hl; injection He as <- <-; [|done].
    rewrite commits_of_insert. case_decide; [|done].
    by rewrite (commits_of_lookup _ _ _ _ Hl).
  - (* GitCommit *)
    unfold in_repo in He. destruct (storage w0 !! id0) as [rp|] eqn:Hl;
      [|injection He as <- <-; by left].
    destruct (git_dir rp); [|injection He as <- <-; by left].
    unfold git_commit in He.
    destruct (allow_empty || negb (bool_decide (index rp = head_tree rp)));
      cbv beta iota zeta in He; destruct (_ && _);
      injection He as <- <-;
      rewrite commits_of_insert; case_decide; subst; try (by left);
      try (left; by rewrite (commits_of_lookup _ _ _ _ Hl)).
    right. split; [done|]. rewrite (commits_of_lookup _ _ _ _ Hl) by done.
    cbn [commits]. eauto.
Qed.

Lemma run_commits_at_most A (p : prog A) :
  forall n w, commits_at_most n p ->
  exists new, commits_of (run p w).2 id = (new ++ commits_of w id)%list /\ (length new <= n)%nat.
Proof.
  induction p as [a|e|X c k IH]; intros n w Hn.
  - exists []. split; [done|]. cbn [length]. lia.
  - exists []. split; [done|]. cbn [length]. lia.
  - cbn [run]. destruct (exec c w) as [r w1] eqn:He.
    cbn [commits_at_most] in Hn.
    destruct (exec_history _ _ _ _ _ He) as [Hsame | (Hc & c1 & Hnew)].
    + assert (exists m, (m <= n)%nat /\ commits_at_most m (k r)) as (m & Hm & Hk).
      { destruct (committing c); [|by exists n].
        destruct n as [|m]; [done|]. exists m. split; [lia|done]. }
      destruct (IH r m w1 Hk) as (new & Heq & Hlen).
      exists new. rewrite Heq, Hsame. split; [done|lia].
    + rewrite Hc in Hn. destruct n as [|m]; [done|].
      destruct (IH r m w1 (Hn r)) as (new & Heq & Hlen).
      exists (new ++ [c1])%list. rewrite Heq, Hnew, <- app_assoc. split; [done|].
      rewrite length_app. cbn [length]. lia.
Qed.

(** Two requests on the event loop: what is left of their budgets. *)
Lemma run_sync_commits_at_most A t (p : prog A) :
  forall n w p' w' tr,
    commits_at_most n p -> run_sync t p w = (p', w', tr) ->
    exists new m, commits_of w' id = (new ++ commits_of w id)%list /\
                  (length new + m <= n)%nat /\ commits_at_most m p'.
Proof.
  induction p as [a|e|X c k IH]; intros n w p' w' tr Hn Hr.
  - injection Hr as <- <- _. exists [], n. split; [done|]. split; [cbn [length]; lia|done].
  - injection Hr as <- <- _. exists [], n. split; [done|]. split; [cbn [length]; lia|done].
  - cbn [run_sync] in Hr. destruct (awaited c).
    + injection Hr as <- <- _. exists [], n. split; [done|]. split; [cbn [length]; lia|done].
    + destruct (exec c w) as [r w1] eqn:He.
      destruct (run_sync t (k r) w1) as [[p1 w2] tr1] eqn:Hr1.
      injection Hr as <- <- _. cbn [commits_at_most] in Hn.
      destruct (exec_history _ _ _ _ _ He) as [Hsame | (Hc & c1 & Hnew)].
      * assert (exists m, (m <= n)%nat /\ commits_at_most m (k r)) as (m & Hm & Hk).
        { destruct (committing c); [|by exists n].
          destruct n as [|m]; [done|]. exists m. split; [lia|done]. }
        destruct (IH r m w1 _ _ _ Hk Hr1) as (new & m' & Heq & Hlen & Hk').
        exists new, m'. rewrite Heq, Hsame. split; [done|]. split; [lia|done].
      * rewrite Hc in Hn. destruct n as [|m]; [done|].
        destruct (IH r m w1 _ _ _ (Hn r) Hr1) as (new & m' & Heq & Hlen & Hk').
        exists (new ++ [c1])%list, m'. rewrite Heq, Hnew, <- app_assoc. split; [done|].
        rewrite length_app. cbn [length]. split; [lia|done].
Qed.

Lemma resume_commits_at_most A t (p : prog A) n w p' w' tr :
  commits_at_most n p -> resume t p w = (p', w', tr) ->
  exists new m, commits_of w' id = (new ++ commits_of w id)%list /\
                (length new + m <= n)%nat /\ commits_at_most m p'.
Proof.
  destruct p as [a|e|X c k]; cbn [resume]; intros Hn Hr.
  - injection Hr as <- <- _. exists [], n. split; [done|]. split; [cbn [length]; lia|done].
  - injection Hr as <- <- _. exists [], n. split; [done|]. split; [cbn [length]; lia|done].
  - destruct (exec c w) as [r w1] eqn:He.
    destruct (run_sync t (k r) w1) as [[p1 w2] tr1] eqn:Hr1.
    injection Hr as <- <- _. cbn [commits_at_most] in Hn.
    destruct (exec_history _ _ _ _ _ He) as [Hsame | (Hc & c1 & Hnew)].
    + assert (exists m, (m <= n)%nat /\ commits_at_most m (k r)) as (m & Hm & Hk).
      { destruct (committing c); [|by exists n].
        destruct n as [|m]; [done|]. exists m. split; [lia|done]. }
      destruct (run_sync_commits_at_most _ _ _ _ _ _ _ _ Hk Hr1) as (new & m' & Heq & Hlen & Hk').
      exists new, m'. rewrite Heq, Hsame. split; [done|]. split; [lia|done].
    + rewrite Hc in Hn. destruct n as [|m]; [done|].
      destruct (run_sync_commits_at_most _ _ _ _ _ _ _ _ (Hn r) Hr1) as (new & m' & Heq & Hlen & Hk').
      exists (new ++ [c1])%list, m'. rewrite Heq, Hnew, <- app_assoc. split; [done|].
      rewrite length_app. cbn [length]. split; [lia|done].
Qed.

Lemma interleave_commits_at_most sched :
  forall c n1 n2,
    commits_at_most n1 (first c) -> commits_at_most n2 (second c) ->
    exists new, commits_of (state (interleave sched c).1) id = (new ++ commits_of (state c) id)%list /\
                (length new <= n1 + n2)%nat.
Proof.
  induction sched as [|t sched IH]; intros c n1 n2 H1 H2.
  - exists []. split; [done|]. cbn [length]. lia.
  - cbn [interleave]. destruct (turn t c) as [c1 tr1] eqn:Ht.
    destruct (interleave sched c1) as [c2 tr2] eqn:Hi. cbn [fst].
    destruct t; cbn [turn] in Ht.
    + destruct (resume First (first c) (state c)) as [[p w] tr'] eqn:Hr.
      injection Ht as <- _.
      destruct (resume_commits_at_most _ _ _ _ _ _ _ _ H1 Hr) as (new & m & Heq & Hlen & Hk).
      destruct (IH {| first := p; second := second c; state := w |} m n2 Hk H2)
        as (new' & Heq' & Hlen').
      rewrite Hi in Heq'. cbn [fst state] in Heq'.
      exists (new' ++ new)%list. rewrite Heq', Heq, <- app_assoc. split; [done|].
      rewrite length_app. lia.
    + destruct (resume Second (second c) (state c)) as [[p w] tr'] eqn:Hr.
      injection Ht as <- _.
      destruct (resume_commits_at_most _ _ _ _ _ _ _ _ H2 Hr) as (new & m & Heq & Hlen & Hk).
      destruct (IH {| first := first c; second := p; state := w |} n1 m H1 Hk)
        as (new' & Heq' & Hlen').
      rewrite Hi in Heq'. cbn [fst state] in Heq'.
      exists (new' ++ new)%list. rewrite Heq', Heq, <- app_assoc. split; [done|].
      rewrite length_app. lia.
Qed.
End Commits.

Ltac budget_step :=
  first
    [ progress (cbn [commits_at_most bind try_catch call committing])
    | intros ?
    | exact I
    | match goal with
      | |- context [match ?x with _ => _ end] => is_var x; destruct x
      | |- context [if ?x then _ else _] => destruct x
      end ].

Lemma handler_commits_at_most q : commits_at_most (commit_budget q) (handler q).
Proof.
  destruct q; cbn [handler commit_budget];
    unfold createDocument, initDocumentRepo, getContent, history, rollback, share,
      save, save_locked, getUserDocumentRole;
    repeat budget_step.
Qed.

(** ** The document's file *)

Lemma only_document_insert files content :
  only_document files -> only_document (<[filename := content]> files).
Proof. intros H q Hq. rewrite lookup_insert_ne by done. by apply H. Qed.

Lemma only_document_delete files :
  only_document files -> only_document (delete filename files).
Proof. intros H q Hq. rewrite lookup_delete_ne by done. by apply H. Qed.

Lemma lone_empty_dir : lone empty_dir.
Proof. split; [|split]; [done|done|apply Forall_nil_2]. Qed.

Lemma fs_path_free d p i row :
  fs_path_taken d p = false -> documents d !! i = Some row -> fs_path row <> p.
Proof.
  unfold fs_path_taken. intros Hf Hl Hp.
  apply bool_decide_eq_false_1 in Hf. apply Hf.
  apply Exists_exists. exists (i, row). split; [|done].
  by apply elem_of_map_to_list.
Qed.

Lemma single_file_uniform w : single_file w -> uniform w.
Proof.
  intros (Hrows & _ & Hlone). split; [exact Hrows|].
  intros i r Hl q Hq. destruct (Hlone i r Hl) as (_ & Hi & Hc).
  rewrite (Hi q Hq). unfold head_tree. destruct (commits r) as [|c cs]; [done|].
  apply Forall_cons_1 in Hc as [Hc _]. by rewrite (Hc q Hq).
Qed.

Lemma single_file_storage w w1 :
  db w1 = db w -> storage w1 = storage w -> single_file w -> single_file w1.
Proof. unfold single_file. by intros -> ->. Qed.

Lemma single_file_insert w i r :
  single_file w -> lone r -> single_file (set_storage (insert i r) w).
Proof.
  intros (Hrows & Hone & Hlone) Hr. split; [exact Hrows|]. split; [exact Hone|].
  intros j r'. cbn [storage set_storage]. destruct (decide (i = j)) as [->|Hne].
  - rewrite lookup_insert_eq. by intros [= <-].
  - rewrite lookup_insert_ne by done. apply Hlone.
Qed.

Lemma single_file_in_repo X i w (act : repo -> result X * repo) r w1 :
  (forall rp x rp', lone rp -> act rp = (x, rp') -> lone rp') ->
  single_file w -> in_repo i w act = (r, w1) -> single_file w1.
Proof.
  intros Hact Hu. unfold in_repo.
  destruct (storage w !! i) as [rp|] eqn:Hl; [|by intros [= <- <-]].
  destruct (git_dir rp); [|by intros [= <- <-]].
  destruct (act rp) as [x rp'] eqn:Ha. intros [= <- <-].
  apply single_file_insert; [done|]. eapply Hact; [|exact Ha].
  destruct Hu as (_ & _ & Hlone). by eapply Hlone.
Qed.

Lemma single_file_permissions w (f : database -> database) :
  documents (f (db w)) = documents (db w) -> single_file w -> single_file (set_db f w).
Proof. unfold single_file. cbn [db storage set_db]. by intros ->. Qed.

Lemma exec_single_file X (c : cmd X) w r w1 :
  single_file w -> on_document c -> exec c w = (r, w1) -> single_file w1.
Proof.
  intros Hu Hc.
  destruct c; cbn [exec]; intros He;
    try (injection He as <- <-; exact Hu);
    apply fallible_cases in He as (b & w0 & Hp & He);
    destruct (pop_fault_same _ _ _ Hp) as (Hd0 & Hs0 & _);
    pose proof (single_file_storage _ _ Hd0 Hs0 Hu) as Hu0;
    (destruct b; [destruct He as [_ ->]; exact Hu0|]);
    try (injection He as <- <-; exact Hu0).
  - (* InsertDocument *)
    cbn [on_document] in Hc.
    destruct (fs_path_taken _ _) eqn:Hfree; [injection He as <- <-; exact Hu0|].
    destruct (bool_decide _); injection He as <- <-; [exact Hu0|].
    destruct Hu0 as (Hrows & Hone & Hlone).
    assert (Hnone : forall i row', documents (db w0) !! i = Some row' -> False).
    { intros i row' Hl. apply (fs_path_free _ _ _ _ Hfree Hl). rewrite Hc. by eapply Hrows. }
    split; [|split]; cbn [db set_db documents storage].
    + intros i row'. destruct (decide (documents_seq (db w0) + 1 = i)) as [->|Hne].
      * rewrite lookup_insert_eq. by intros [= <-].
      * rewrite lookup_insert_ne by done. apply Hrows.
    + intros i j ri rj.
      destruct (decide (documents_seq (db w0) + 1 = i)) as [<-|Hi];
        destruct (decide (documents_seq (db w0) + 1 = j)) as [<-|Hj]; [done| | |].
      * rewrite (lookup_insert_ne _ _ j) by done. intros _ Hl. destruct (Hnone _ _ Hl).
      * rewrite (lookup_insert_ne _ _ i) by done. intros Hl. destruct (Hnone _ _ Hl).
      * rewrite (lookup_insert_ne _ _ i) by done. intros Hl. destruct (Hnone _ _ Hl).
    + exact Hlone.
  - (* InsertPermission *)
    destruct (negb _); [injection He as <- <-; exact Hu0|].
    destruct (bool_decide _); injection He as <- <-; [exact Hu0|].
    by apply single_file_permissions.
  - (* UpsertPermission *)
    destruct (negb _); [injection He as <- <-; exact Hu0|].
    destruct (bool_decide _); injection He as <- <-; [exact Hu0|].
    by apply single_file_permissions.
  - (* MkdirSync *)
    destruct (storage w0 !! id); injection He as <- <-; [exact Hu0|].
    apply single_file_insert; [exact Hu0|apply lone_empty_dir].
  - (* WriteFileSync *)
    cbn [on_document] in Hc. subst p.
    destruct (storage w0 !! id) as [rp|] eqn:Hl; injection He as <- <-; [|exact Hu0].
    apply single_file_insert; [exact Hu0|].
    destruct Hu0 as (_ & _ & Hlone). destruct (Hlone _ _ Hl) as (Hw & Hi & Hcs).
    split; [|split]; [by apply only_document_insert|done|done].
  - (* GitInit *)
    destruct (storage w0 !! id) as [rp|] eqn:Hl; injection He as <- <-; [|exact Hu0].
    apply single_file_insert; [exact Hu0|].
    destruct Hu0 as (_ & _ & Hlone). by apply (Hlone _ _ Hl).
  - (* GitAddConfig *)
    eapply single_file_in_repo; [|exact Hu0|exact He]. intros rp x rp' Ht H.
    by injection H as _ <-.
  - (* GitAdd *)
    cbn [on_document] in Hc. subst p.
    eapply single_file_in_repo; [|exact Hu0|exact He]. intros rp x rp' (Hw & Hi & Hcs). cbv beta.
    unfold git_add. destruct (worktree rp !! filename).
    + intros H. injection H as _ <-.
      split; [|split]; [done|by apply only_document_insert|done].
    + destruct (index rp !! filename); intros H; injection H as _ <-; [|done].
      split; [|split]; [done|by apply only_document_delete|done].
  - (* GitCommit *)
    eapply single_file_in_repo; [|exact Hu0|exact He]. intros rp x rp' (Hw & Hi & Hcs). cbv beta.
    unfold git_commit. destruct (_ || _); cbv beta iota zeta;
      destruct (_ && _); intros H; injection H as _ <-; try done.
    split; [|split]; [done|done|]. cbn [commits]. by apply Forall_cons_2.
  - (* GitStatus *)
    eapply single_file_in_repo; [|exact Hu0|exact He]. intros rp x rp' Ht H.
    by injection H as _ <-.
  - (* GitLog *)
    eapply single_file_in_repo; [|exact Hu0|exact He]. intros rp x rp' Ht. cbv beta.
    destruct (commits rp); intros H; by injection H as _ <-.
  - (* GitShowFile *)
    eapply single_file_in_repo; [|exact Hu0|exact He]. intros rp x rp' Ht H.
    by injection H as _ <-.
  - (* GitShowSubject *)
    eapply single_file_in_repo; [|exact Hu0|exact He]. intros rp x rp' Ht H.
    by injection H as _ <-.
Qed.

Lemma run_sync_single_file A t (p : prog A) :
  forall w p' w' tr,
    keeps_to_document p -> single_file w -> run_sync t p w = (p', w', tr) ->
    keeps_to_document p' /\ single_file w'.
Proof.
  induction p as [a|e|X c k IH]; intros w p' w' tr Hp Hu Hr.
  - by injection Hr as <- <- _.
  - by injection Hr as <- <- _.
  - cbn [run_sync] in Hr. destruct (awaited c).
    + by injection Hr as <- <- _.
    + destruct (exec c w) as [r w1] eqn:He.
      destruct (run_sync t (k r) w1) as [[p1 w2] tr1] eqn:Hr1.
      injection Hr as <- <- _. destruct Hp as [Hc Hk].
      eapply IH; [| |exact Hr1].
      * apply Hk. eapply exec_uniform_answer; [|exact He]. by apply single_file_uniform.
      * by eapply exec_single_file.
Qed.

Lemma resume_single_file A t (p : prog A) w p' w' tr :
  keeps_to_document p -> single_file w -> resume t p w = (p', w', tr) ->
  keeps_to_document p' /\ single_file w'.
Proof.
  destruct p as [a|e|X c k]; cbn [resume]; intros Hp Hu Hr.
  - by injection Hr as <- <- _.
  - by injection Hr as <- <- _.
  - destruct (exec c w) as [r w1] eqn:He.
    destruct (run_sync t (k r) w1) as [[p1 w2] tr1] eqn:Hr1.
    injection Hr as <- <- _. destruct Hp as [Hc Hk].
    eapply run_sync_single_file; [| |exact Hr1].
    + apply Hk. eapply exec_uniform_answer; [|exact He]. by apply single_file_uniform.
    + by eapply exec_single_file.
Qed.

Lemma interleave_single_file sched :
  forall c, keeps_to_document (first c) -> keeps_to_document (second c) ->
            single_file (state c) -> single_file (state (interleave sched c).1).
Proof.
  induction sched as [|t sched IH]; intros c H1 H2 Hu; [done|].
  cbn [interleave]. destruct (turn t c) as [c1 tr1] eqn:Ht.
  destruct (interleave sched c1) as [c2 tr2] eqn:Hi. cbn [fst].
  specialize (IH c1). rewrite Hi in IH. cbn [fst] in IH.
  destruct t; cbn [turn] in Ht.
  - destruct (resume First (first c) (state c)) as [[p w] tr'] eqn:Hr.
    injection Ht as <- _.
    destruct (resume_single_file _ _ _ _ _ _ _ H1 Hu Hr). by apply IH.
  - destruct (resume Second (second c) (state c)) as [[p w] tr'] eqn:Hr.
    injection Ht as <- _.
    destruct (resume_single_file _ _ _ _ _ _ _ H2 Hu Hr). by apply IH.
Qed.

Ltac document_step :=
  first
    [ progress (cbn [keeps_to_document bind try_catch call on_document uniform_answer])
    | split
    | intros ?
    | exact eq_refl
    | exact I
    | assumption
    | match goal with
      | H : match ?x with _ => _ end |- _ => destruct x
      | |- context [match ?x with _ => _ end] => destruct x
      | |- context [if ?x then _ else _] => destruct x
      end ].

Lemma handler_keeps_to_document q : keeps_to_document (handler q).
Proof.
  destruct q; cbn [handler];
    unfold createDocument, initDocumentRepo, getContent, history, rollback, share,
      save, save_locked, getUserDocumentRole;
    repeat document_step.
Qed.

Lemma empty_system_single_file accounts : single_file (empty_system accounts).
Proof.
  split; [|split]; intros *; unfold empty_system; cbn [db documents storage];
    by rewrite lookup_empty.
Qed.

(* ===================================================================== *)
(** * Runs without failures                                              *)
(* ===================================================================== *)

Lemma set_storage_id w i r : storage w !! i = Some r -> set_storage (insert i r) w = w.
Proof.
  intros H. destruct w as [d s l f]. unfold set_storage. cbn [db storage gitLocks faults] in *.
  f_equal. by apply insert_id.
Qed.

Lemma pop_fault_faults w b w1 : pop_fault w = (b, w1) -> faults w = [] -> faults w1 = [].
Proof. unfold pop_fault. intros H Hq. rewrite Hq in H. by injection H as _ <-. Qed.

Lemma exec_quiet X (c : cmd X) w r w1 :
  faults w = [] -> exec c w = (r, w1) -> faults w1 = [].
Proof.
  intros Hq. destruct c; cbn [exec]; intros He;
    try (injection He as <- <-; exact Hq);
    apply fallible_cases in He as (b & w0 & Hp & He);
    pose proof (pop_fault_faults _ _ _ Hp Hq) as Hq0;
    (destruct b; [destruct He as [_ ->]; exact Hq0|]);
    unfold in_repo in He;
    repeat match type of He with
           | (let '(_, _) := ?x in _) = _ => destruct x
           | (match ?x with _ => _ end) = _ => destruct x
           | (if ?x then _ else _) = _ => destruct x
           end;
    injection He as <- <-; exact Hq0.
Qed.

Lemma run_quiet A (p : prog A) : forall w, faults w = [] -> faults (run p w).2 = [].
Proof.
  induction p as [a|e|X c k IH]; intros w Hq; [done|done|].
  cbn [run]. destruct (exec c w) as [r w1] eqn:He. apply IH. by eapply exec_quiet.
Qed.

(** A call of a run without failures. *)
Ltac quiet_call :=
  cbn [run bind try_catch call exec]; unfold fallible, in_repo;
  rewrite pop_fault_quiet by done;
  cbn [storage db set_db set_storage gitLocks set_gitLocks faults]; rewrite ?lookup_insert_eq.

Lemma getContent_quiet w id userId row :
  faults w = [] -> documents (db w) !! id = Some row ->
  run (getContent id userId) w =
    (Ok (json (ContentJson (default "" (storage w !! id ≫= fun r => worktree r !! fs_path row))
                           (role_of (db w) userId id))), w).
Proof.
  intros Hq Hrow. unfold getContent.
  rewrite run_try_catch, run_bind, run_call. cbn [exec]. unfold fallible.
  rewrite pop_fault_quiet by done. rewrite Hrow.
  rewrite run_bind, (getUserDocumentRole_quiet _ _ _ Hq).
  rewrite run_bind, run_call. cbn [exec].
  destruct (storage w !! id) as [r|] eqn:Hrepo; cbn [mbind option_bind default].
  - destruct (worktree r !! fs_path row) as [c|] eqn:Hfile; cbn [default].
    + rewrite bool_decide_eq_true_2 by eauto.
      rewrite run_bind, run_call. cbn [exec]. unfold fallible.
      rewrite pop_fault_quiet by done. rewrite Hrepo. cbn [mbind option_bind].
      by rewrite Hfile.
    + rewrite bool_decide_eq_false_2 by apply is_Some_None. done.
  - done.
Qed.

Lemma history_quiet w id row r :
  faults w = [] -> documents (db w) !! id = Some row ->
  storage w !! id = Some r -> git_dir r = true -> commits r <> [] ->
  run (history id) w = (Ok (json (HistoryJson (log_entry <$> commits r))), w).
Proof.
  intros Hq Hrow Hrepo Hgit Hcs. unfold history.
  rewrite run_try_catch, run_bind, run_call. cbn [exec]. unfold fallible.
  rewrite pop_fault_quiet by done. rewrite Hrow.
  rewrite run_bind, run_call. cbn [exec]. rewrite Hrepo.
  rewrite bool_decide_eq_true_2 by eauto.
  rewrite run_bind, run_call. cbn [exec]. unfold fallible, in_repo.
  rewrite pop_fault_quiet by done. rewrite Hrepo, Hgit.
  destruct (commits r) as [|c cs] eqn:E; [done|].
  rewrite (set_storage_id _ _ _ Hrepo). cbn [run]. done.
Qed.

(* ===================================================================== *)
(** * Calls that went well                                               *)
(* ===================================================================== *)

Lemma exec_SelectDocument_ok id w x w1 :
  exec (SelectDocument id) w = (Ok x, w1) -> x = documents (db w) !! id /\ unchanged w w1.
Proof.
  cbn [exec]. intros He. apply fallible_cases in He as ([] & w0 & Hp & He).
  - by destruct He.
  - injection He as <- <-. destruct (pop_fault_same _ _ _ Hp) as (Hd & _). rewrite Hd.
    split; [done|]. by eapply pop_fault_unchanged.
Qed.

Lemma exec_WriteFileSync_ok id p content w x w1 :
  exec (WriteFileSync id p content) w = (Ok x, w1) ->
  exists r, storage w !! id = Some r /\
            storage w1 = <[id := write_file p content r]> (storage w) /\
            db w1 = db w /\ gitLocks w1 = gitLocks w.
Proof.
  cbn [exec]. intros He. apply fallible_cases in He as ([] & w0 & Hp & He).
  - by destruct He.
  - destruct (pop_fault_same _ _ _ Hp) as (Hd & Hs & Hl). rewrite <- Hs, <- Hd, <- Hl.
    destruct (storage w0 !! id) as [r|] eqn:Hr; [|discriminate].
    injection He as _ <-. by exists r.
Qed.

Lemma exec_in_repo_ok X id w (act : repo -> result X * repo) x w1 :
  in_repo id w act = (Ok x, w1) ->
  exists r r', storage w !! id = Some r /\ git_dir r = true /\ act r = (Ok x, r') /\
               w1 = set_storage (insert id r') w.
Proof.
  unfold in_repo. destruct (storage w !! id) as [r|] eqn:Hl; [|discriminate].
  destruct (git_dir r) eqn:Hg; [|discriminate].
  destruct (act r) as [y r'] eqn:Ha. intros H. injection H as H1 H2. subst y w1.
  by exists r, r'.
Qed.

Lemma exec_git_ok X (c : cmd X) id (act : repo -> result X * repo) w x w1 :
  (forall w0, exec c w0 = fallible "git error" w0 (fun w => in_repo id w act)) ->
  exec c w = (Ok x, w1) ->
  exists r r', storage w !! id = Some r /\ git_dir r = true /\ act r = (Ok x, r') /\
               storage w1 = <[id := r']> (storage w) /\
               db w1 = db w /\ gitLocks w1 = gitLocks w.
Proof.
  intros Hc He. rewrite Hc in He. apply fallible_cases in He as ([] & w0 & Hp & He).
  - by destruct He.
  - destruct (pop_fault_same _ _ _ Hp) as (Hd & Hs & Hl). rewrite <- Hs, <- Hd, <- Hl.
    apply exec_in_repo_ok in He as (r & r' & Hr & Hg & Ha & ->). by exists r, r'.
Qed.

(* ===================================================================== *)
(** * Saving                                                             *)
(* ===================================================================== *)

Lemma may_write_role role :
  may_not_write role = false -> role = Some "owner" \/ role = Some "writer".
Proof.
  destruct role as [r|]; [|discriminate]. cbn [may_not_write].
  intros H. apply orb_false_iff in H as [_ H]. apply andb_false_iff in H as [H|H];
    apply negb_false_iff, bool_decide_eq_true_1 in H; subst; auto.
Qed.

(** What is in the file, the index and the head once the file holds
    [content] and the handler has looked at the status: a file that the
    head has is in the head with [content] after the commit, or was there
    with [content] already. *)
Lemma status_then_commit p content r :
  worktree r !! p = Some content ->
  is_Some (head_tree r !! p) ->
  if is_modified r p || is_not_added r p
  then forall r1, git_add p r = Some r1 ->
                  head_tree (git_commit "Update document" false r1).1 !! p = Some content
  else head_tree r !! p = Some content.
Proof.
  intros Hw [a Hh].
  destruct (is_modified r p || is_not_added r p) eqn:Hch.
  - intros r1. unfold git_add. rewrite Hw. intros [= <-].
    unfold git_commit. cbn [orb index].
    destruct (bool_decide _) eqn:Hsame; cbn [negb fst].
    + apply bool_decide_eq_true_1 in Hsame. rewrite <- Hsame. by rewrite lookup_insert_eq.
    + unfold head_tree. cbn [commits tree]. by rewrite lookup_insert_eq.
  - apply orb_false_iff in Hch as [Hm Hn].
    unfold is_modified, is_not_added, staged_code, unstaged_code in *.
    rewrite Hh, Hw in *.
    destruct (index r !! p) as [b|]; [|discriminate].
    destruct (bool_decide (b = content)) eqn:Hb; [|by destruct (bool_decide (a = b))].
    apply bool_decide_eq_true_1 in Hb. subst b.
    destruct (bool_decide (a = content)) eqn:Ha; [|discriminate].
    apply bool_decide_eq_true_1 in Ha. by subst.
Qed.

Section SaveDurable.
Variables (w w' : world) (id : Z) (content : string) (userId : Z).
Hypothesis Hrun : run (save id content userId) w = (Ok (json Success), w').

Lemma save_success :
  exists row r r',
    documents (db w) !! id = Some row /\ storage w !! id = Some r /\
    storage w' !! id = Some r' /\ db w' = db w /\
    worktree r' !! fs_path row = Some content /\
    (is_Some (head_tree r !! fs_path row) -> head_tree r' !! fs_path row = Some content) /\
    (commits r' = commits r \/ exists new, commits r' = new :: commits r /\
                                           message new = "Update document" /\
                                           tree new !! fs_path row = Some content).
Proof.
  destruct (getUserDocumentRole_run w userId id) as (role & w0 & Hr & _ & Hd0 & Hs0 & Hl0).
  unfold save in Hrun. rewrite run_bind, Hr in Hrun.
  destruct (may_not_write role); [discriminate|].
  rewrite run_bind, run_call in Hrun. cbn [exec] in Hrun.
  destruct (saving w0 id); [discriminate|].
  rewrite run_bind, run_call in Hrun. cbn [exec] in Hrun.
  set (w1 := set_gitLocks (insert id true) w0) in Hrun.
  assert (Hd1 : db w1 = db w) by exact Hd0.
  assert (Hs1 : storage w1 = storage w) by exact Hs0.
  clearbody w1.
  unfold save_locked in Hrun. rewrite run_try_catch in Hrun.
  match type of Hrun with context [run ?body w1] => destruct (run body w1) as [[res|e] w2] eqn:Hbody end.
  2:{ cbn [run bind call exec] in Hrun. discriminate. }
  injection Hrun as -> ->.
  rewrite run_bind, run_call in Hbody.
  destruct (exec (SelectDocument id) w1) as [[docRes|e] w3] eqn:He1; [|discriminate].
  apply exec_SelectDocument_ok in He1 as (-> & Hd3 & Hs3 & Hl3).
  rewrite Hd1 in Hbody.
  destruct (documents (db w) !! id) as [row|] eqn:Hrow.
  2:{ cbn [run bind call exec] in Hbody. discriminate. }
  rewrite run_bind, run_call in Hbody.
  destruct (exec (WriteFileSync id (fs_path row) content) w3) as [[?|e] w4] eqn:He2; [|discriminate].
  apply exec_WriteFileSync_ok in He2 as (r & Hrepo & Hs4 & Hd4 & Hl4).
  rewrite Hs3, Hs1 in Hrepo, Hs4.
  rewrite run_bind, run_call in Hbody.
  destruct (exec (SimpleGit id) w4) as [[?|e] w5] eqn:He3; [|discriminate].
  cbn [exec] in He3. injection He3 as _ <-.
  rewrite run_bind, run_call in Hbody.
  destruct (exec (GitStatus id) w4) as [[st|e] w5] eqn:He4; [|discriminate].
  apply (exec_git_ok _ _ id (fun r => (Ok (git_status r), r))) in He4
    as (r1 & ? & Hr1 & Hg1 & Hact & Hs5 & Hd5 & Hl5); [|done].
  injection Hact as <- <-.
  rewrite Hs4, lookup_insert_eq in Hr1. injection Hr1 as <-.
  rewrite Hs4, insert_insert_eq in Hs5.
  set (r1 := write_file (fs_path row) content r) in *.
  assert (Hw1 : worktree r1 !! fs_path row = Some content).
  { subst r1. cbn [worktree write_file]. by rewrite lookup_insert_eq. }
  pose proof (status_then_commit (fs_path row) content r1 Hw1) as Hstatus.
  rewrite run_bind, includes_modified, includes_not_added in Hbody.
  assert (Hh1 : head_tree r1 = head_tree r) by done.
  assert (Hc1 : commits r1 = commits r) by done.
  clearbody r1.
  exists row, r.
  destruct (is_modified r1 (fs_path row) || is_not_added r1 (fs_path row)).
  - rewrite run_bind, run_call in Hbody.
    destruct (exec (GitAdd id (fs_path row)) w5) as [[?|e] w6] eqn:He5; [|discriminate].
    apply (exec_git_ok _ _ id (fun r => match git_add (fs_path row) r with
                                         | Some r' => (Ok (), r')
                                         | None => (Err "fatal: pathspec did not match any files", r)
                                         end)) in He5
      as (r1' & r2 & Hr2 & _ & Hact & Hs6 & Hd6 & Hl6); [|done].
    rewrite Hs5, lookup_insert_eq in Hr2. injection Hr2 as <-.
    destruct (git_add (fs_path row) r1) as [r2'|] eqn:Hadd; [|discriminate].
    assert (r2' = r2) as -> by congruence. clear Hact.
    rewrite Hs5, insert_insert_eq in Hs6.
    rewrite run_bind, run_call in Hbody.
    destruct (exec (GitCommit id "Update document" false) w6) as [[h|e] w7] eqn:He6; [|discriminate].
    apply (exec_git_ok _ _ id
             (fun r => let '(r', h) := git_commit "Update document" false r in
                       if bool_decide (is_Some h) && bool_decide (git_cleanup "Update document" = "")
                       then (Err "Aborting commit due to empty commit message.", r)
                       else (Ok h, r'))) in He6
      as (r2' & r3 & Hr3 & _ & Hact & Hs7 & Hd7 & Hl7); [|done].
    rewrite Hs6, lookup_insert_eq in Hr3. injection Hr3 as <-.
    destruct (git_commit "Update document" false r2) as [r3' h'] eqn:Hcommit.
    rewrite (bool_decide_eq_false_2 (git_cleanup _ = "")) in Hact by (by apply git_cleanup_cons).
    rewrite andb_false_r in Hact.
    assert (r3' = r3) as -> by congruence. clear Hact.
    rewrite Hs6, insert_insert_eq in Hs7.
    cbn [run bind call exec] in Hbody. injection Hbody as <-.
    exists r3. cbn [storage db set_gitLocks].
    rewrite Hs7, lookup_insert_eq, Hd7, Hd6, Hd5, Hd4, Hd3.
    split; [done|]. split; [done|]. split; [done|]. split; [done|].
    assert (Hr2w : worktree r2 = worktree r1 /\ commits r2 = commits r1 /\
                   index r2 !! fs_path row = Some content).
    { unfold git_add in Hadd. rewrite Hw1 in Hadd. injection Hadd as <-.
      cbn [worktree commits index]. by rewrite lookup_insert_eq. }
    destruct Hr2w as (Hw2 & Hc2 & Hi2).
    split; [|split].
    + unfold git_commit in Hcommit. destruct (_ || _); injection Hcommit as <- _;
        cbn [worktree]; by rewrite Hw2.
    + intros Hhead. rewrite <- Hh1 in Hhead. specialize (Hstatus Hhead r2 eq_refl).
      by rewrite Hcommit in Hstatus.
    + unfold git_commit in Hcommit. destruct (_ || _); injection Hcommit as <- _.
      * right. eexists. cbn [commits]. rewrite Hc2, Hc1. split; [reflexivity|]. by split.
      * left. by rewrite Hc2.
  - cbn [run bind call exec] in Hbody. injection Hbody as <-.
    exists r1. cbn [storage db set_gitLocks].
    rewrite Hs5, lookup_insert_eq, Hd5, Hd4, Hd3.
    split; [done|]. split; [done|]. split; [done|]. split; [done|].
    split; [done|]. split; [|by left]. intros Hhead. rewrite <- Hh1 in *. by apply Hstatus.
Qed.
End SaveDurable.

(** A call that may fail or not: both ways. *)
Ltac fault_call w1 Hp :=
  cbn [run bind try_catch call exec]; unfold fallible;
  match goal with
  | |- context [pop_fault ?w] =>
      destruct (pop_fault w) as [[] w1] eqn:Hp;
      let Hd := fresh "Hd" in let Hs := fresh "Hs" in let Hl := fresh "Hl" in
      destruct (pop_fault_same _ _ _ Hp) as (Hd & Hs & Hl)
  end.

Lemma fs_path_in_use d p i row :
  documents d !! i = Some row -> fs_path row = p -> fs_path_taken d p = true.
Proof.
  intros Hl Hp. apply bool_decide_eq_true_2, Exists_exists.
  exists (i, row). split; [|done]. by apply elem_of_map_to_list.
Qed.

(* ===================================================================== *)
(** * Sharing                                                            *)
(* ===================================================================== *)

Lemma share_quiet w id username role u :
  faults w = [] -> users (db w) !! username = Some u -> role_allowed role = true ->
  permissions (db w) !! (id, u) = None ->
  run (share id username role) w =
    (Ok (json Success),
     set_db (fun d => {| documents := documents d;
                         permissions := <[(id, u) := role]> (permissions d);
                         users := users d;
                         documents_seq := documents_seq d |}) w).
Proof.
  intros Hq Hu Hrole Hnone. unfold share.
  quiet_call. rewrite Hu. quiet_call. quiet_call. cbv zeta. rewrite Hrole. cbn [negb].
  rewrite bool_decide_eq_false_2 by (rewrite Hnone; apply is_Some_None).
  by cbn [run bind try_catch call exec].
Qed.

Lemma share_unknown_user w id username role :
  users (db w) !! username = None ->
  exists res w', run (share id username role) w = (Ok res, w') /\
                 (res = status_json 404 (Error "User not found") \/ http_status res = 500%nat) /\
                 unchanged w w'.
Proof.
  intros Hu. unfold share. fault_call w1 Hp1.
  - eexists _, _. split; [reflexivity|]. split; [by right|done].
  - rewrite Hd, Hu. cbn [run bind try_catch].
    eexists _, _. split; [reflexivity|]. split; [by left|done].
Qed.

Lemma share_role_refused w id username role :
  role_allowed role = false ->
  exists res w', run (share id username role) w = (Ok res, w') /\
                 (http_status res = 404%nat \/ http_status res = 500%nat) /\
                 unchanged w w'.
Proof.
  intros Hrole. unfold share. fault_call w1 Hp1.
  { eexists _, _. split; [reflexivity|]. split; [by right|done]. }
  destruct (users (db w1) !! username) as [u|]; cbn [run bind try_catch].
  2:{ eexists _, _. split; [reflexivity|]. split; [by left|done]. }
  assert (Hu1 : unchanged w w1) by done.
  fault_call w2 Hp2.
  { eexists _, _. split; [reflexivity|]. split; [by right|].
    eapply unchanged_trans; [exact Hu1|done]. }
  assert (Hu2 : unchanged w w2) by (eapply unchanged_trans; [exact Hu1|done]).
  fault_call w3 Hp3.
  { eexists _, _. split; [reflexivity|]. split; [by right|].
    eapply unchanged_trans; [exact Hu2|done]. }
  cbv zeta. rewrite Hrole. cbn [negb run bind try_catch].
  eexists _, _. split; [reflexivity|]. split; [by right|].
  eapply unchanged_trans; [exact Hu2|done].
Qed.

(* ===================================================================== *)
(** * A document that is not there                                       *)
(* ===================================================================== *)

Lemma not_found_first w id (k : document_row -> prog response) :
  documents (db w) !! id = None ->
  exists res w',
    run (try_catch (docRes <- call (SelectDocument id) ;;
                    match docRes with
                    | None => Ret (status_send 404 "Doc not found")
                    | Some row => k row
                    end)%prog
                   (fun err => Ret (status_json 500 (Error err)))) w = (Ok res, w') /\
    (res = status_send 404 "Doc not found" \/ http_status res = 500%nat) /\
    unchanged w w'.
Proof.
  intros Hrow. fault_call w1 Hp1.
  - eexists _, _. split; [reflexivity|]. split; [by right|done].
  - rewrite Hd, Hrow. cbn [run bind try_catch].
    eexists _, _. split; [reflexivity|]. split; [by left|done].
Qed.

(* ===================================================================== *)
(** * Creating, again                                                    *)
(* ===================================================================== *)

Lemma createDocument_taken w name userId i row :
  documents (db w) !! i = Some row -> fs_path row = filename ->
  exists e w',
    run (createDocument name userId) w = (Ok (status_json 500 (Error e)), w') /\
    unchanged w w'.
Proof.
  intros Hrow Hpath. unfold createDocument. fault_call w1 Hp1.
  - eexists _, _. split; [reflexivity|done].
  - cbv beta zeta. cbn [fs_path]. rewrite Hd.
    rewrite (fs_path_in_use _ _ _ _ Hrow Hpath). cbn [run bind try_catch].
    eexists _, _. split; [reflexivity|done].
Qed.

(** No call takes a row out of table [documents]. *)
Lemma exec_documents_kept X (c : cmd X) w r w1 i row :
  exec c w = (r, w1) -> documents (db w) !! i = Some row -> documents (db w1) !! i = Some row.
Proof.
  intros He Hrow.
  destruct c; cbn [exec] in He;
    try (injection He as <- <-; exact Hrow);
    apply fallible_cases in He as (b & w0 & Hp & He);
    destruct (pop_fault_same _ _ _ Hp) as (Hd0 & _ & _); rewrite <- Hd0 in Hrow;
    (destruct b; [destruct He as [_ ->]; exact Hrow|]);
    try (injection He as <- <-; exact Hrow);
    try (unfold in_repo in He;
         repeat match type of He with
                | (let '(_, _) := ?x in _) = _ => destruct x
                | (match ?x with _ => _ end) = _ => destruct x
                | (if ?x then _ else _) = _ => destruct x
                end;
         injection He as <- <-; exact Hrow).
  destruct (fs_path_taken _ _); [injection He as <- <-; exact Hrow|].
  destruct (bool_decide _) eqn:Hid; injection He as <- <-; [exact Hrow|].
  cbn [db set_db documents]. rewrite lookup_insert_ne; [exact Hrow|].
  intros <-. apply bool_decide_eq_false_1 in Hid. apply Hid. eauto.
Qed.

Lemma run_documents_kept A (p : prog A) i row :
  forall w, documents (db w) !! i = Some row -> documents (db (run p w).2) !! i = Some row.
Proof.
  induction p as [a|e|X c k IH]; intros w Hrow; [done|done|].
  cbn [run]. destruct (exec c w) as [r w1] eqn:He. apply IH.
  by eapply exec_documents_kept.
Qed.

(* ===================================================================== *)
(** * Commit messages                                                    *)
(* ===================================================================== *)

Lemma rtrim_eq a s :
  rtrim (String a s) = match rtrim s with
                       | EmptyString => if git_space a then EmptyString else String a EmptyString
                       | t => String a t
                       end.
Proof. reflexivity. Qed.

Lemma one_line_app s1 s2 : one_line (s1 ++ s2) = one_line s1 && one_line s2.
Proof.
  induction s1 as [|a s1 IH]; [done|].
  change (one_line (String a (s1 ++ s2)) = one_line (String a s1) && one_line s2).
  cbn [one_line]. rewrite IH. by rewrite andb_assoc.
Qed.

Lemma rtrim_one_line s : one_line s = true -> one_line (rtrim s) = true.
Proof.
  induction s as [|a s IH]; [done|]. rewrite rtrim_eq. cbn [one_line].
  intros [Ha Hs]%andb_prop. specialize (IH Hs).
  destruct (rtrim s) as [|b t].
  - destruct (git_space a); [done|]. cbn [one_line]. by rewrite Ha.
  - cbn [one_line] in *. by rewrite Ha, IH.
Qed.

Lemma rtrim_idem s : rtrim (rtrim s) = rtrim s.
Proof.
  induction s as [|a s IH]; [done|]. rewrite rtrim_eq.
  destruct (rtrim s) as [|b t] eqn:E.
  - destruct (git_space a) eqn:Ha; [done|]. rewrite rtrim_eq. cbn [rtrim]. by rewrite Ha.
  - rewrite rtrim_eq, IH. done.
Qed.

Lemma rtrim_length s : (String.length (rtrim s) <= String.length s)%nat.
Proof.
  induction s as [|a s IH]; [done|]. rewrite rtrim_eq. cbn [String.length].
  destruct (rtrim s); [destruct (git_space a)|]; cbn [String.length] in *; lia.
Qed.

(** A name that does not end in white space keeps what comes before it. *)
Lemma rtrim_app s1 s2 : s2 <> "" -> rtrim s2 = s2 -> rtrim (s1 ++ s2) = s1 ++ s2.
Proof.
  intros Hne Hs2. induction s1 as [|a s1 IH]; [done|].
  change (rtrim (String a (s1 ++ s2)) = String a (s1 ++ s2)).
  rewrite rtrim_eq, IH. destruct (s1 ++ s2) eqn:E; [|done].
  by destruct s1.
Qed.

Lemma lines_of_one_line s :
  one_line s = true -> lines_of s = match s with EmptyString => [] | _ => [s] end.
Proof.
  induction s as [|a s IH]; [done|]. cbn [one_line lines_of].
  intros [Ha Hs]%andb_prop. apply negb_true_iff in Ha. rewrite Ha, (IH Hs). by destruct s.
Qed.

(** A message of one line is stored without the white space at its end,
    and is its own subject. *)
Lemma git_cleanup_one_line s : one_line s = true -> git_cleanup s = rtrim s.
Proof.
  intros H. unfold git_cleanup. rewrite (lines_of_one_line _ H).
  destruct s as [|a s]; [done|]. cbn [stripspace].
  by destruct (rtrim (String a s)).
Qed.

Lemma subject_one_line s : one_line s = true -> subject s = rtrim s.
Proof.
  intros H. unfold subject. rewrite (lines_of_one_line _ H).
  destruct s as [|a s]; [done|]. cbn [subject_lines].
  by destruct (rtrim (String a s)).
Qed.

Lemma subject_stored s : one_line s = true -> subject (git_cleanup s) = git_cleanup s.
Proof.
  intros H. rewrite (git_cleanup_one_line _ H).
  rewrite subject_one_line by (by apply rtrim_one_line). apply rtrim_idem.
Qed.

Lemma lines_of_are_lines s : Forall (fun l => one_line l = true) (lines_of s).
Proof.
  induction s as [|a s IH]; [constructor|]. cbn [lines_of].
  case_bool_decide as Ha.
  - by constructor.
  - destruct (lines_of s) as [|l ls].
    + constructor; [|constructor]. cbn [one_line]. by rewrite bool_decide_eq_false_2.
    + apply Forall_cons in IH as [Hl Hls]. constructor; [|done].
      cbn [one_line]. by rewrite bool_decide_eq_false_2, Hl.
Qed.

Lemma subject_lines_are_lines ls :
  Forall (fun l => one_line l = true) ls ->
  forall started, Forall (fun l => one_line l = true) (subject_lines started ls).
Proof.
  induction 1 as [|l ls Hl Hls IH]; intros started; [constructor|].
  cbn [subject_lines]. pose proof (rtrim_one_line l Hl) as Ht.
  destruct (rtrim l); [destruct started; [constructor|apply IH]|].
  constructor; [done|apply IH].
Qed.

Lemma concat_one_line sep ls :
  one_line sep = true -> Forall (fun l => one_line l = true) ls ->
  one_line (String.concat sep ls) = true.
Proof.
  intros Hsep. induction 1 as [|l ls Hl Hls IH]; [done|].
  destruct ls as [|l' ls']; [done|].
  change (String.concat sep (l :: l' :: ls'))
    with (l ++ sep ++ String.concat sep (l' :: ls')).
  by rewrite !one_line_app, Hl, Hsep, IH.
Qed.

Example messages_as_git_keeps_them :
  git_cleanup "Create document " = "Create document" /\
  git_cleanup ("Create document a  " ++ newline ++ newline ++ newline ++ "b" ++ newline)
    = "Create document a" ++ newline ++ newline ++ "b" /\
  subject ("Create document a" ++ newline ++ "b" ++ newline ++ newline ++ "c")
    = "Create document a b".
Proof. vm_compute. repeat split. Qed.

(** The subject of a message is one line, whatever the message. *)
Lemma subject_is_one_line msg : one_line (subject msg) = true.
Proof.
  apply concat_one_line; [done|]. apply subject_lines_are_lines, lines_of_are_lines.
Qed.

Lemma printable_one_line s : printable s = true -> one_line s = true.
Proof.
  induction s as [|a s IH]; [done|]. cbn [printable one_line].
  intros [[Ha _]%andb_prop Hs]%andb_prop. rewrite (IH Hs), andb_true_r.
  apply negb_true_iff, bool_decide_eq_false_2. intros ->. discriminate.
Qed.

Lemma trim_start_one_line s : one_line s = true -> one_line (trim_start s) = true.
Proof.
  induction s as [|a s IH]; [done|]. cbn [trim_start]. destruct (is_space a); [|done].
  cbn [one_line]. intros [_ Hs]%andb_prop. auto.
Qed.

Lemma trim_end_one_line s : one_line s = true -> one_line (trim_end s) = true.
Proof.
  induction s as [|a s IH]; [done|]. cbn [one_line trim_end].
  intros [Ha Hs]%andb_prop. specialize (IH Hs).
  destruct (trim_end s) as [|b t].
  - destruct (is_space a); [done|]. cbn [one_line]. by rewrite Ha.
  - cbn [one_line] in *. by rewrite Ha, IH.
Qed.

Lemma trim_one_line s : one_line s = true -> one_line (trim s) = true.
Proof. intros H. by apply trim_end_one_line, trim_start_one_line. Qed.

Lemma substring_one_line n s :
  one_line s = true -> one_line (String.substring 0 n s) = true.
Proof.
  revert s. induction n as [|n IH]; intros [|a s]; cbn [String.substring one_line]; try done.
  intros [Ha Hs]%andb_prop. by rewrite Ha, IH.
Qed.

(* ===================================================================== *)
(** * Rolling back                                                       *)
(* ===================================================================== *)

Lemma trim_end_newline s : trim_end (s ++ newline) = trim_end s.
Proof.
  induction s as [|a s IH]; [done|].
  change (trim_end (String a (s ++ newline)) = trim_end (String a s)).
  cbn [trim_end]. by rewrite IH.
Qed.

Lemma trim_newline s : trim (s ++ newline) = trim s.
Proof.
  unfold trim. induction s as [|a s IH]; [done|].
  change (trim_end (trim_start (String a (s ++ newline))) = trim_end (trim_start (String a s))).
  cbn [trim_start]. destruct (is_space a); [exact IH|].
  exact (trim_end_newline (String a s)).
Qed.

Lemma substring_length_le n s : (String.length (String.substring 0 n s) <= n)%nat.
Proof.
  revert s. induction n as [|n IH]; intros s.
  - destruct s; cbn; lia.
  - destruct s as [|a s]; cbn [String.substring String.length]; [lia|].
    specialize (IH s). lia.
Qed.

Section RollbackClean.
Variables (w : world) (id : Z) (h : nat) (row : document_row) (r : repo).
Variables (target : commit) (c c0 : string).
Hypothesis Hquiet : faults w = [].
Hypothesis Hrow : documents (db w) !! id = Some row.
Hypothesis Hrepo : storage w !! id = Some r.
Hypothesis Hgit : git_dir r = true.
Hypothesis Hfind : find_commit h r = Some target.
Hypothesis Htree : tree target !! fs_path row = Some c.
Hypothesis Hfile : worktree r !! fs_path row = Some c0.
Hypothesis Hhead : head_tree r !! fs_path row = Some c0.

Let revert_commit : commit :=
  {| hash := fresh_hash r;
     message := git_cleanup
                  ("Revert to: " ++ String.substring 0 50 (trim (subject (message target))));
     tree := <[fs_path row := c]> (index r) |}.

Let rolled_back : repo :=
  {| git_dir := true;
     worktree := <[fs_path row := c]> (worktree r);
     index := <[fs_path row := c]> (index r);
     commits := revert_commit :: commits r |}.

Lemma rollback_clean :
  exists w',
    run (rollback id h) w = (Ok (json Success), w') /\
    storage w' = <[id := rolled_back]> (storage w) /\
    db w' = db w /\ gitLocks w' = gitLocks w /\ faults w' = [].
Proof.
  assert (exists c1 l, commits r = c1 :: l) as (c1 & l & Hcommits).
  { unfold find_commit in Hfind. destruct (commits r); [discriminate|eauto]. }
  assert (Hshow : git_show_file h (fs_path row) r = Some c).
  { unfold git_show_file. rewrite Hfind. exact Htree. }
  unfold rollback.
  quiet_call. rewrite Hrow. cbv beta iota zeta.
  cbn [run bind try_catch call exec]. rewrite Hrepo.
  rewrite bool_decide_eq_true_2 by eauto.
  quiet_call. rewrite Hrepo, Hgit, Hcommits.
  quiet_call. rewrite Hgit, Hshow. cbn [of_option].
  cbn [run bind try_catch call exec storage set_storage]. rewrite lookup_insert_eq, Hfile.
  rewrite bool_decide_eq_true_2 by eauto.
  quiet_call. cbn [mbind option_bind]. rewrite Hfile. cbn [of_option].
  quiet_call.
  set (r1 := write_file (fs_path row) c r).
  quiet_call. replace (git_dir r1) with true by (symmetry; exact Hgit).
  replace (git_show_subject h r1) with (Some (subject (message target) ++ newline)).
  2:{ unfold git_show_subject. replace (find_commit h r1) with (find_commit h r) by done.
      by rewrite Hfind. }
  cbn [of_option].
  quiet_call. rewrite trim_newline. replace (git_dir r1) with true by (symmetry; exact Hgit).
  unfold git_add. replace (worktree r1 !! fs_path row) with (Some c)
    by (subst r1; cbn [worktree write_file]; by rewrite lookup_insert_eq).
  set (r2 := {| git_dir := _ |}).
  quiet_call. replace (git_dir r2) with true by (symmetry; exact Hgit).
  cbn [bind]. rewrite includes_modified, includes_not_added.
  assert (Hh2 : head_tree r2 !! fs_path row = Some c0) by exact Hhead.
  assert (Hi2 : index r2 !! fs_path row = Some c).
  { subst r2. cbn [index]. by rewrite lookup_insert_eq. }
  assert (Hw2 : worktree r2 !! fs_path row = Some c).
  { subst r2 r1. cbn [worktree write_file]. by rewrite lookup_insert_eq. }
  assert (Hmod : is_modified r2 (fs_path row) = negb (bool_decide (c0 = c))).
  { unfold is_modified, staged_code, unstaged_code. rewrite Hh2, Hi2, Hw2.
    rewrite (bool_decide_eq_true_2 (c = c)) by done. by destruct (bool_decide (c0 = c)). }
  assert (Hna : is_not_added r2 (fs_path row) = false).
  { unfold is_not_added, unstaged_code. rewrite Hi2, Hw2. by destruct (bool_decide (c = c)). }
  rewrite Hmod, Hna, orb_false_r, orb_diag.
  assert (Hcommit : forall msg allow_empty,
             allow_empty = true \/ c0 <> c ->
             git_commit msg allow_empty r2 =
             ({| git_dir := git_dir r2; worktree := worktree r2; index := index r2;
                 commits := {| hash := fresh_hash r2; message := git_cleanup msg;
                               tree := index r2 |}
                            :: commits r2 |}, Some (fresh_hash r2))).
  { intros msg allow_empty Hor. unfold git_commit.
    destruct Hor as [-> | Hne]; [done|].
    rewrite (bool_decide_eq_false_2 (index r2 = head_tree r2)); [by rewrite orb_true_r|].
    intros Heq. rewrite Heq in Hi2. congruence. }
  assert (Hend : forall w0, faults w0 = [] -> storage w0 = <[id := r2]> (storage w) ->
                            db w0 = db w -> gitLocks w0 = gitLocks w ->
                            forall allow_empty, allow_empty = true \/ c0 <> c ->
             exists w',
               run (x <- call (GitCommit id ("Revert to: " ++
                                  String.substring 0 50 (trim (subject (message target))))
                                  allow_empty) ;;
                    Ret (json Success))%prog w0 = (Ok (json Success), w') /\
               storage w' = <[id := rolled_back]> (storage w) /\
               db w' = db w /\ gitLocks w' = gitLocks w /\ faults w' = []).
  { intros w0 Hq0 Hs0 Hd0 Hl0 allow_empty Hor.
    cbn [run bind try_catch call exec]. unfold fallible, in_repo.
    rewrite pop_fault_quiet by done. rewrite Hs0, lookup_insert_eq.
    replace (git_dir r2) with true by (symmetry; exact Hgit).
    rewrite Hcommit by done. named_commit. cbn [run].
    eexists. split; [reflexivity|].
    cbn [storage db gitLocks faults set_storage]. rewrite Hs0, insert_insert_eq.
    split; [|done]. f_equal. subst rolled_back revert_commit r2 r1.
    cbn [git_dir worktree index commits write_file fresh_hash]. by rewrite Hgit. }
  destruct (bool_decide (c0 = c)) eqn:Hsame; cbn [negb].
  - rewrite run_try_catch.
    edestruct Hend as (w' & -> & Hres); [| | | |by left|by exists w'];
      cbn [faults storage db gitLocks set_storage]; try done.
    by rewrite !insert_insert_eq.
  - apply bool_decide_eq_false_1 in Hsame. rewrite run_try_catch.
    edestruct Hend as (w' & -> & Hres); [| | | |by right|by exists w'];
      cbn [faults storage db gitLocks set_storage]; try done.
    by rewrite !insert_insert_eq.
Qed.
End RollbackClean.

(* ===================================================================== *)
(** * A save and a request on another document                           *)
(* ===================================================================== *)

Section Foreign.
Variable id : Z.

Lemma exec_foreign X (c : cmd X) w r w1 :
  exec c w = (r, w1) -> classify id (event_of c r) = Nothing ->
  gitLocks w1 !! id = gitLocks w !! id.
Proof. intros He Hc. rewrite (exec_lookup id _ _ _ _ _ He). by rewrite Hc. Qed.

Lemma alone_foreign X (c : cmd X) w r w1 ph :
  exec c w = (r, w1) -> classify id (event_of c r) = Nothing ->
  alone id ph w -> alone id ph w1.
Proof.
  intros He Hc. pose proof (exec_foreign _ _ _ _ _ He Hc) as Hl.
  destruct ph as [| |[]| |]; cbn [alone]; congruence.
Qed.

(** The task that saves, while it has the event loop. *)
Lemma run_sync_disciplined t (p : prog response) :
  forall ph w p' w' tr,
    disciplined id ph p -> alone id ph w -> run_sync t p w = (p', w', tr) ->
    exists ph', disciplined id ph' p' /\ alone id ph' w'.
Proof.
  induction p as [res|e|X c k IH]; intros ph w p' w' tr Hd Hal Hr.
  - injection Hr as <- <- _. by exists ph.
  - destruct Hd.
  - cbn [run_sync] in Hr. destruct (awaited c).
    + injection Hr as <- <- _. by exists ph.
    + destruct (exec c w) as [r w1] eqn:He.
      destruct (run_sync t (k r) w1) as [[p1 w2] tr1] eqn:Hr1.
      injection Hr as <- <- _.
      cbn [disciplined] in Hd. destruct Hd as (_ & _ & Hok & Herr).
      assert (exists ph1, next ph (classify id (event_of c r)) = Some ph1 /\
                          disciplined id ph1 (k r)) as (ph1 & Hn & Hd1).
      { destruct r as [x|e].
        - specialize (Hok x). destruct (next _ _) as [ph1|]; [|contradiction]. eauto.
        - specialize (Herr (exec_err _ _ _ _ _ He) e). rewrite event_of_err.
          cbn [classify]. destruct (next _ _) as [ph1|]; [|contradiction]. eauto. }
      eapply IH; [exact Hd1| |exact Hr1]. by eapply alone_step.
Qed.

Lemma resume_disciplined t (p : prog response) ph w p' w' tr :
  disciplined id ph p -> alone id ph w -> resume t p w = (p', w', tr) ->
  exists ph', disciplined id ph' p' /\ alone id ph' w'.
Proof.
  destruct p as [res|e|X c k]; cbn [resume]; intros Hd Hal Hr.
  - injection Hr as <- <- _. by exists ph.
  - destruct Hd.
  - destruct (exec c w) as [r w1] eqn:He.
    destruct (run_sync t (k r) w1) as [[p1 w2] tr1] eqn:Hr1.
    injection Hr as <- <- _.
    cbn [disciplined] in Hd. destruct Hd as (_ & _ & Hok & Herr).
    assert (exists ph1, next ph (classify id (event_of c r)) = Some ph1 /\
                        disciplined id ph1 (k r)) as (ph1 & Hn & Hd1).
    { destruct r as [x|e].
      - specialize (Hok x). destruct (next _ _) as [ph1|]; [|contradiction]. eauto.
      - specialize (Herr (exec_err _ _ _ _ _ He) e). rewrite event_of_err.
        cbn [classify]. destruct (next _ _) as [ph1|]; [|contradiction]. eauto. }
    eapply run_sync_disciplined; [exact Hd1| |exact Hr1]. by eapply alone_step.
Qed.

(** The other task, while it has the event loop. *)
Lemma run_sync_foreign A t (p : prog A) :
  forall ph w p' w' tr,
    foreign id p -> alone id ph w -> run_sync t p w = (p', w', tr) ->
    foreign id p' /\ alone id ph w'.
Proof.
  induction p as [a|e|X c k IH]; intros ph w p' w' tr Hf Hal Hr.
  - by injection Hr as <- <- _.
  - by injection Hr as <- <- _.
  - cbn [run_sync] in Hr. destruct (awaited c).
    + by injection Hr as <- <- _.
    + destruct (exec c w) as [r w1] eqn:He.
      destruct (run_sync t (k r) w1) as [[p1 w2] tr1] eqn:Hr1.
      injection Hr as <- <- _. destruct (Hf r) as [Hc Hk].
      eapply IH; [exact Hk| |exact Hr1]. by eapply alone_foreign.
Qed.

Lemma resume_foreign A t (p : prog A) ph w p' w' tr :
  foreign id p -> alone id ph w -> resume t p w = (p', w', tr) ->
  foreign id p' /\ alone id ph w'.
Proof.
  destruct p as [a|e|X c k]; cbn [resume]; intros Hf Hal Hr.
  - by injection Hr as <- <- _.
  - by injection Hr as <- <- _.
  - destruct (exec c w) as [r w1] eqn:He.
    destruct (run_sync t (k r) w1) as [[p1 w2] tr1] eqn:Hr1.
    injection Hr as <- <- _. destruct (Hf r) as [Hc Hk].
    eapply run_sync_foreign; [exact Hk| |exact Hr1]. by eapply alone_foreign.
Qed.

(** Task [t] saves document [id], the other task leaves the document
    alone: task [t] goes through the phases as if it ran alone. *)
Lemma interleave_alone sched t :
  forall c ph,
    disciplined id ph (task t c) -> foreign id (task (other t) c) -> alone id ph (state c) ->
    exists ph', disciplined id ph' (task t (interleave sched c).1) /\
                alone id ph' (state (interleave sched c).1).
Proof.
  induction sched as [|t' sched IH]; intros c ph Hd Hf Hal; [by exists ph|].
  cbn [interleave]. destruct (turn t' c) as [c1 tr1] eqn:Ht.
  destruct (interleave sched c1) as [c2 tr2] eqn:Hi. cbn [fst].
  specialize (IH c1). rewrite Hi in IH. cbn [fst] in IH.
  destruct t, t'; cbn [turn task other] in *.
  - destruct (resume First (first c) (state c)) as [[p w] tr'] eqn:Hr.
    injection Ht as <- _. cbn [first second state] in IH.
    destruct (resume_disciplined _ _ _ _ _ _ _ Hd Hal Hr) as (ph1 & Hd1 & Hal1).
    by apply (IH ph1).
  - destruct (resume Second (second c) (state c)) as [[p w] tr'] eqn:Hr.
    injection Ht as <- _. cbn [first second state] in IH.
    destruct (resume_foreign _ _ _ _ _ _ _ _ Hf Hal Hr) as (Hf1 & Hal1).
    by apply (IH ph).
  - destruct (resume First (first c) (state c)) as [[p w] tr'] eqn:Hr.
    injection Ht as <- _. cbn [first second state] in IH.
    destruct (resume_foreign _ _ _ _ _ _ _ _ Hf Hal Hr) as (Hf1 & Hal1).
    by apply (IH ph).
  - destruct (resume Second (second c) (state c)) as [[p w] tr'] eqn:Hr.
    injection Ht as <- _. cbn [first second state] in IH.
    destruct (resume_disciplined _ _ _ _ _ _ _ Hd Hal Hr) as (ph1 & Hd1 & Hal1).
    by apply (IH ph1).
Qed.
End Foreign.

Ltac foreign_step :=
  first
    [ progress (cbn [foreign bind try_catch call event_of classify])
    | split
    | intros ?
    | exact eq_refl
    | exact I
    | rewrite decide_False by done
    | match goal with
      | |- context [match ?x with _ => _ end] => is_var x; destruct x
      | |- context [if ?x then _ else _] => destruct x
      end ].

Lemma handler_foreign id q : elsewhere id q -> foreign id (handler q).
Proof.
  destruct q; cbn [elsewhere handler]; intros Hne; try contradiction;
    unfold getContent, history, rollback, share, save, save_locked, getUserDocumentRole;
    repeat foreign_step.
Qed.

Lemma answer_not_queued id ph (p : prog response) w res :
  disciplined id ph p -> alone id ph w -> answer p = Some res ->
  body res <> SuccessQueued /\ gitLocks w !! id = None.
Proof.
  destruct p as [res'| |]; cbn [answer]; intros Hd Hal [= ->]; cbn [disciplined] in Hd.
  destruct ph as [| |[]| |]; cbn [alone] in Hal; try contradiction; by split.
Qed.

(* ===================================================================== *)
(** * Accounts, the list of documents, and deleting                       *)
(* ===================================================================== *)

Section SiteFacts.
Import Site.

Lemma largest_id_ge (accounts : gmap string Z) name i :
  accounts !! name = Some i -> i <= largest_id accounts.
Proof.
  unfold largest_id. revert name i.
  induction accounts as [|k x m Hk IH] using map_ind; intros name i Hl.
  - by rewrite lookup_empty in Hl.
  - rewrite map_fold_insert_L; [| intros; lia | done].
    destruct (decide (k = name)) as [->|Hne].
    + rewrite lookup_insert_eq in Hl. injection Hl as ->. lia.
    + rewrite lookup_insert_ne in Hl by done. specialize (IH _ _ Hl). lia.
Qed.

Lemma same_data_refl s : same_data s s.
Proof. by repeat split. Qed.

Lemma same_data_pop s b w :
  pop_fault (world_of s) = (b, w) -> same_data s (with_world w s).
Proof. intros Hp. destruct (pop_fault_same _ _ _ Hp) as (? & ? & ?). by repeat split. Qed.

Lemma with_world_quiet s :
  faults (world_of s) = [] -> pop_fault (world_of s) = (false, world_of s) /\
                              with_world (world_of s) s = s.
Proof. intros Hq. split; [by apply pop_fault_quiet|by destruct s]. Qed.

Lemma failing_quiet A e (act : site -> result A * site) s :
  faults (world_of s) = [] -> failing e act s = act s.
Proof.
  intros Hq. unfold failing. destruct (with_world_quiet s Hq) as [-> ->]. done.
Qed.

Lemma failing_cases A e (act : site -> result A * site) s r s' :
  failing e act s = (r, s') ->
  exists s0, same_data s s0 /\ (r = Err e /\ s' = s0 \/ act s0 = (r, s')).
Proof.
  unfold failing. destruct (pop_fault (world_of s)) as [[] w] eqn:Hp; intros H.
  - injection H as <- <-. eexists. split; [by eapply same_data_pop|by left].
  - eexists. split; [by eapply same_data_pop|by right].
Qed.
End SiteFacts.

(* ===================================================================== *)
(** * The text of a statement                                            *)
(* ===================================================================== *)

Section Statements.
Import Db.

Lemma replace_parameters_digits d :
  all_digits d = true ->
  forall rest, replace_parameters true (d ++ rest) = replace_parameters true rest.
Proof.
  induction d as [|a d IH]; intros Hd rest; [done|].
  cbn [all_digits] in Hd. apply andb_prop in Hd as [Ha Hd].
  change (replace_parameters true (String a (d ++ rest)) = replace_parameters true rest).
  cbn [replace_parameters]. rewrite Ha. cbn [andb]. by apply IH.
Qed.

(** Behind a match, text that no digit starts is converted as from the
    start. *)
Lemma replace_parameters_resume rest :
  starts_with_digit rest = false ->
  replace_parameters true rest = replace_parameters false rest.
Proof.
  destruct rest as [|a rest]; [done|]. cbn [starts_with_digit replace_parameters].
  intros ->. by rewrite andb_false_r.
Qed.

Lemma is_digit_dollar : is_digit dollar = false.
Proof. reflexivity. Qed.

Lemma replace_parameters_app b before after :
  replace_parameters b (before ++ String dollar after) =
  replace_parameters b before ++ replace_parameters false (String dollar after).
Proof.
  revert b. induction before as [|a before IH]; intros b.
  - change (replace_parameters b (String dollar after) =
            replace_parameters false (String dollar after)).
    cbn [replace_parameters]. by rewrite is_digit_dollar, andb_false_r.
  - change (replace_parameters b (String a (before ++ String dollar after)) =
            replace_parameters b (String a before) ++
              replace_parameters false (String dollar after)).
    cbn [replace_parameters].
    assert (Hs : starts_with_digit (before ++ String dollar after) = starts_with_digit before).
    { by destruct before. }
    rewrite Hs.
    destruct (b && is_digit a); [apply IH|].
    destruct (bool_decide (a = dollar) && starts_with_digit before);
      cbn [String.append]; by rewrite IH.
Qed.

Lemma replace_parameters_no_digit b text :
  starts_with_digit text = false -> starts_with_digit (replace_parameters b text) = false.
Proof.
  destruct text as [|a rest]; [done|]. cbn [starts_with_digit replace_parameters].
  intros Ha. rewrite Ha, andb_false_r.
  by destruct (bool_decide (a = dollar) && starts_with_digit rest).
Qed.

Lemma replace_parameters_again b text :
  replace_parameters false (replace_parameters b text) = replace_parameters b text.
Proof.
  revert b. induction text as [|a rest IH]; intros b; [done|].
  cbn [replace_parameters]. destruct (b && is_digit a); [apply IH|].
  destruct (bool_decide (a = dollar) && starts_with_digit rest) eqn:Hmatch.
  - cbn [replace_parameters andb]. by rewrite IH.
  - cbn [replace_parameters andb].
    replace (bool_decide (a = dollar) && starts_with_digit (replace_parameters false rest))
      with false; [by rewrite IH|].
    symmetry. apply andb_false_iff. apply andb_false_iff in Hmatch as [Ha|Hd]; [by left|right].
    by apply replace_parameters_no_digit.
Qed.
End Statements.

(* ===================================================================== *)
(** * The debounced function                                             *)
(* ===================================================================== *)

Section DebounceFacts.
Import Editor.
Context {A : Type}.
Variable wait : nat.
Implicit Types (s : @closure A) (t : @timer A).

Lemma clearTimeout_one_timer s : one_timer s -> clearTimeout (timeout s) (timers s) = [].
Proof.
  intros [-> | (t & -> & ->)].
  - by destruct (timeout s).
  - cbn [clearTimeout]. rewrite filter_cons, decide_False by (intros H; by apply H). done.
Qed.

Lemma executedFunction_one_timer now a s :
  one_timer s ->
  one_timer (executedFunction wait now a s) /\
  pending (executedFunction wait now a s) = [(now + wait, a)%nat] /\
  calls (executedFunction wait now a s) = calls s.
Proof.
  intros Hs. unfold executedFunction, pending. cbn [timers timeout calls].
  rewrite (clearTimeout_one_timer _ Hs). split; [|done].
  right. eexists. split; reflexivity.
Qed.

Lemma tick_no_timer now s : timers s = [] -> tick now s = s.
Proof. unfold tick. by intros ->. Qed.

Lemma tick_early now s t :
  timers s = [t] -> (now < due t)%nat -> tick now s = s.
Proof.
  unfold tick. intros Ht Hd. rewrite Ht. cbn [length run_timers]. rewrite Ht.
  cbn [next_due]. by rewrite (proj2 (Nat.leb_gt _ _) Hd).
Qed.

Lemma tick_due now s t :
  timers s = [t] -> (due t <= now)%nat ->
  timers (tick now s) = [] /\ calls (tick now s) = (now, args t) :: calls s /\
  timeout (tick now s) = timeout s.
Proof.
  unfold tick. intros Ht Hd. rewrite Ht. cbn [length run_timers]. rewrite Ht.
  cbn [next_due]. rewrite (proj2 (Nat.leb_le _ _) Hd).
  unfold later. cbn [timers calls timeout]. rewrite Ht.
  rewrite filter_cons, decide_False by (intros H; by apply H).
  rewrite filter_nil. split; [|done]. by destruct (timeout s).
Qed.

Lemma tick_one_timer now s : one_timer s -> one_timer (tick now s).
Proof.
  intros [Hs | (t & Ht & Hto)].
  - rewrite tick_no_timer by done. by left.
  - destruct (Nat.le_gt_cases (due t) now) as [Hd|Hd].
    + left. by apply (tick_due now s t).
    + rewrite (tick_early now s t) by done. right. by exists t.
Qed.

Lemma play_snoc events e s : play wait (events ++ [e]) s = step wait (play wait events s) e.
Proof. unfold play. by rewrite foldl_app. Qed.

Lemma play_one_timer events : forall s, one_timer s -> one_timer (play wait events s).
Proof.
  induction events as [|e events IH]; intros s Hs; [done|].
  cbn [play foldl]. apply IH. destruct e as [now a|now]; cbn [step].
  - by apply executedFunction_one_timer.
  - by apply tick_one_timer.
Qed.

Lemma fresh_one_timer : one_timer (@fresh_closure A).
Proof. by left. Qed.

(** A burst of calls makes no call of [func]. *)
Lemma play_invokes (burst : list (nat * A)) s :
  calls (play wait ((fun ta => Invoke ta.1 ta.2) <$> burst) s) = calls s.
Proof.
  revert s. induction burst as [|[t a] burst IH]; intros s; [done|].
  cbn [fmap list_fmap play foldl step fst snd]. unfold play in IH. by rewrite IH.
Qed.
End DebounceFacts.

(* ===================================================================== *)
(** * The colour of a cursor label                                       *)
(* ===================================================================== *)

Section CursorFacts.
Import Editor.

Lemma string_of_uint_digits d : Db.all_digits (NilEmpty.string_of_uint d) = true.
Proof. induction d; cbn [NilEmpty.string_of_uint Db.all_digits]; [done|by rewrite IHd..]. Qed.

Lemma to_uint_nonnil n : Nat.to_uint n <> Decimal.Nil.
Proof.
  rewrite <- (Unsigned.of_to n) at 1. rewrite Unsigned.to_of.
  unfold Decimal.unorm. by destruct (Decimal.nzhead _).
Qed.

Lemma decimal_digits n : Db.digits (decimal n).
Proof.
  split; [|apply string_of_uint_digits].
  unfold decimal. pose proof (to_uint_nonnil n). by destruct (Nat.to_uint n).
Qed.

Lemma parse_digits_of_uint d :
  forall acc, parse_digits acc (NilEmpty.string_of_uint d) = Nat.of_uint_acc d acc.
Proof.
  induction d; intros acc; cbn [NilEmpty.string_of_uint Nat.of_uint_acc parse_digits];
    [done|..];
    change (Db.is_digit _) with true; cbv iota; rewrite IHd; f_equal;
    rewrite Nat.tail_mul_spec; simpl (_ - 48)%nat; lia.
Qed.

Lemma parseInt_decimal n : parseInt (decimal n) = n.
Proof.
  unfold parseInt, decimal. rewrite parse_digits_of_uint.
  change (Nat.of_uint (Nat.to_uint n) = n). apply Unsigned.of_to.
Qed.

Lemma some_digits_app d rest :
  Db.all_digits d = true -> Db.starts_with_digit rest = false ->
  some_digits (d ++ rest) = (d, rest).
Proof.
  intros Hd Hrest. induction d as [|a d IH].
  - destruct rest as [|b rest]; [done|]. cbn [Db.starts_with_digit] in Hrest.
    change (some_digits (String b rest) = ("", String b rest)).
    cbn [some_digits]. by rewrite Hrest.
  - cbn [Db.all_digits] in Hd. apply andb_prop in Hd as [Ha Hd].
    change (some_digits (String a (d ++ rest)) = (String a d, rest)).
    cbn [some_digits]. by rewrite Ha, IH.
Qed.

Lemma number_app d rest :
  Db.digits d -> Db.starts_with_digit rest = false -> number (d ++ rest) = Some (d, rest).
Proof.
  intros [Hne Hd] Hrest. unfold number. rewrite some_digits_app by done.
  by rewrite bool_decide_eq_false_2.
Qed.

Lemma digit_no_space a : Db.is_digit a = true -> is_space a = false.
Proof. destruct a as [[] [] [] [] [] [] [] []]; try discriminate; reflexivity. Qed.

Lemma spaces_number d rest : Db.digits d -> spaces (" " ++ d ++ rest) = d ++ rest.
Proof.
  intros [Hne Hd]. destruct d as [|a d]; [done|].
  cbn [Db.all_digits] in Hd. apply andb_prop in Hd as [Ha _].
  change (spaces (String (Ascii.ascii_of_nat 32) (String a (d ++ rest))) = String a (d ++ rest)).
  cbn [spaces]. replace (is_space (Ascii.ascii_of_nat 32)) with true by reflexivity.
  by rewrite (digit_no_space a Ha).
Qed.

Lemma hsl_here_cursorColor hue saturation lightness :
  hsl_here (cursorColor hue saturation lightness) = Some (decimal lightness).
Proof.
  unfold hsl_here, cursorColor.
  change (literal "hsl(" ("hsl(" ++ ?s)) with (Some s). cbn [mbind option_bind].
  rewrite number_app; [|apply decimal_digits|done]. cbn [mbind option_bind].
  change (literal "," (", " ++ ?s)) with (Some (" " ++ s)). cbn [mbind option_bind].
  rewrite spaces_number by apply decimal_digits.
  rewrite number_app; [|apply decimal_digits|done]. cbn [mbind option_bind].
  change (literal "%," ("%, " ++ ?s)) with (Some (" " ++ s)). cbn [mbind option_bind].
  rewrite spaces_number by apply decimal_digits.
  rewrite number_app; [|apply decimal_digits|done]. cbn [mbind option_bind].
  done.
Qed.
End CursorFacts.

(* ===================================================================== *)
(** * Two saves of one document                                          *)
(* ===================================================================== *)

(** ** A save on its own, when nothing fails *)

Lemma save_quiet w id content userId row r c0 :
  faults w = [] -> saving w id = false ->
  may_not_write (role_of (db w) userId id) = false ->
  documents (db w) !! id = Some row -> storage w !! id = Some r -> git_dir r = true ->
  index r !! fs_path row = Some c0 -> head_tree r !! fs_path row = Some c0 ->
  exists w' r',
    run (save id content userId) w = (Ok (json Success), w') /\
    storage w' !! id = Some r' /\
    worktree r' !! fs_path row = Some content /\
    head_tree r' !! fs_path row = Some content /\
    (if bool_decide (content = c0) then commits r' = commits r
     else exists new, commits r' = new :: commits r /\
                      message new = "Update document" /\
                      tree new !! fs_path row = Some content).
Proof.
  intros Hq Hfree Hrole Hrow Hrepo Hgit Hindex Hhead.
  unfold save. rewrite run_bind, (getUserDocumentRole_quiet _ _ _ Hq), Hrole.
  rewrite run_bind, run_call. cbn [exec]. rewrite Hfree.
  rewrite run_bind, run_call. cbn [exec].
  unfold save_locked.
  quiet_call. rewrite Hrow. cbv beta iota zeta.
  quiet_call. rewrite Hrepo.
  set (r1 := write_file (fs_path row) content r).
  cbn [run bind try_catch call exec storage set_storage]. rewrite lookup_insert_eq.
  rewrite bool_decide_eq_true_2 by eauto.
  quiet_call. replace (git_dir r1) with true by (symmetry; exact Hgit).
  cbn [bind]. rewrite includes_modified, includes_not_added.
  assert (Hw1 : worktree r1 !! fs_path row = Some content).
  { subst r1. cbn [worktree write_file]. by rewrite lookup_insert_eq. }
  assert (Hmod : is_modified r1 (fs_path row) = negb (bool_decide (content = c0))).
  { unfold is_modified, staged_code, unstaged_code.
    replace (head_tree r1) with (head_tree r) by done.
    replace (index r1) with (index r) by done.
    rewrite Hhead, Hindex, Hw1. rewrite (bool_decide_eq_true_2 (c0 = c0)) by done.
    destruct (decide (content = c0)) as [->|Hne].
    - by rewrite !bool_decide_eq_true_2.
    - rewrite (bool_decide_eq_false_2 (c0 = content)) by congruence.
      by rewrite bool_decide_eq_false_2. }
  assert (Hna : is_not_added r1 (fs_path row) = false).
  { unfold is_not_added, unstaged_code. replace (index r1) with (index r) by done.
    rewrite Hindex, Hw1. by destruct (bool_decide (c0 = content)). }
  rewrite Hmod, Hna, orb_false_r.
  destruct (bool_decide (content = c0)) eqn:Hsame; cbn [negb].
  - apply bool_decide_eq_true_1 in Hsame. subst c0.
    cbn [run bind try_catch call exec]. eexists _, r1. split; [reflexivity|].
    cbn [storage set_storage set_gitLocks]. rewrite !lookup_insert_eq.
    split; [done|]. split; [done|]. split; [exact Hhead|done].
  - apply bool_decide_eq_false_1 in Hsame.
    quiet_call. replace (git_dir r1) with true by (symmetry; exact Hgit).
    unfold git_add. rewrite Hw1.
    set (r2 := {| git_dir := _ |}).
    quiet_call. replace (git_dir r2) with true by (symmetry; exact Hgit).
    unfold git_commit. cbn [orb].
    rewrite (bool_decide_eq_false_2 (index r2 = head_tree r2)).
    2:{ intros Heq. assert (index r2 !! fs_path row = Some content) as Hi2
          by (subst r2; cbn [index]; by rewrite lookup_insert_eq).
        rewrite Heq in Hi2. replace (head_tree r2) with (head_tree r) in Hi2 by done.
        congruence. }
    cbn [negb]. named_commit.
    cbn [run bind try_catch call exec]. eexists _, _. split; [reflexivity|].
    cbn [storage set_storage set_gitLocks]. rewrite !lookup_insert_eq.
    split; [done|]. subst r2 r1. cbn [worktree index head_tree commits tree write_file].
    rewrite !lookup_insert_eq. split; [done|]. split; [done|].
    eexists. split; [reflexivity|]. cbn [message tree]. by rewrite lookup_insert_eq.
Qed.

(** ** A request that has not taken the lock *)

Section Coalescing.
Variable id : Z.

(** When nothing fails, a call that looks leaves the system as it is. *)
Lemma exec_looking X (c : cmd X) w r w1 :
  reading c = true -> faults w = [] -> exec c w = (r, w1) -> w1 = w.
Proof.
  intros Hc Hq He. destruct (exec_reading _ _ _ _ _ Hc He) as (Hd & Hs & Hl).
  pose proof (exec_quiet _ _ _ _ _ Hq He) as Hq1.
  destruct w, w1. cbn [db storage gitLocks faults] in *. congruence.
Qed.

Lemma exec_taking X (c : cmd X) w r w1 :
  taking id c = true -> exec c w = (r, w1) -> event_of c r = LockTaken id.
Proof.
  destruct c; try discriminate. cbn [taking]. intros ->%bool_decide_eq_true_1.
  cbn [exec]. by intros [= <- <-].
Qed.

Ltac waiting_step :=
  first
    [ progress (cbn [waiting bind try_catch call reading taking])
    | rewrite bool_decide_eq_true_2 by done
    | split
    | intros ?
    | exact eq_refl
    | exact I
    | match goal with
      | |- context [match ?x with _ => _ end] => is_var x; destruct x
      | |- context [if ?x then _ else _] => destruct x
      end ].

Lemma save_waiting content userId : waiting id (save id content userId).
Proof. unfold save, getUserDocumentRole. repeat waiting_step. Qed.

Lemma run_sync_run A t (p : prog A) :
  forall w p' w' tr, run_sync t p w = (p', w', tr) -> run p' w' = run p w.
Proof.
  induction p as [a|e|X c k IH]; intros w p' w' tr Hr; cbn [run_sync] in Hr;
    try (by injection Hr as <- <- <-).
  destruct (awaited c); [by injection Hr as <- <- <-|].
  destruct (exec c w) as [r w1] eqn:He.
  destruct (run_sync t (k r) w1) as [[p1 w2] tr1] eqn:Hr1.
  injection Hr as <- <- <-. cbn [run]. rewrite He. by eapply IH.
Qed.

(** A turn is a part of the run of the request. *)
Lemma resume_run A t (p : prog A) w p' w' tr :
  resume t p w = (p', w', tr) -> run p' w' = run p w.
Proof.
  destruct p as [a|e|X c k]; cbn [resume]; try (by intros [= <- <- <-]).
  destruct (exec c w) as [r w1] eqn:He.
  destruct (run_sync t (k r) w1) as [[p1 w2] tr1] eqn:Hr1.
  intros [= <- <- <-]. cbn [run]. rewrite He. by eapply run_sync_run.
Qed.

Lemma run_sync_quiet A t (p : prog A) :
  forall w p' w' tr, faults w = [] -> run_sync t p w = (p', w', tr) -> faults w' = [].
Proof.
  induction p as [a|e|X c k IH]; intros w p' w' tr Hq Hr; cbn [run_sync] in Hr;
    try (by injection Hr as <- <- <-).
  destruct (awaited c); [by injection Hr as <- <- <-|].
  destruct (exec c w) as [r w1] eqn:He.
  destruct (run_sync t (k r) w1) as [[p1 w2] tr1] eqn:Hr1.
  injection Hr as <- <- <-. eapply IH; [|exact Hr1]. by eapply exec_quiet.
Qed.

Lemma resume_quiet A t (p : prog A) w p' w' tr :
  faults w = [] -> resume t p w = (p', w', tr) -> faults w' = [].
Proof.
  intros Hq. destruct p as [a|e|X c k]; cbn [resume]; try (by intros [= <- <- <-]).
  destruct (exec c w) as [r w1] eqn:He.
  destruct (run_sync t (k r) w1) as [[p1 w2] tr1] eqn:Hr1.
  intros [= <- <- <-]. eapply run_sync_quiet; [|exact Hr1]. by eapply exec_quiet.
Qed.

Lemma run_sync_waiting A t (p : prog A) :
  forall w p' w' tr,
    waiting id p -> faults w = [] -> run_sync t p w = (p', w', tr) ->
    (t, LockTaken id) ∈ tr \/ (w' = w /\ waiting id p').
Proof.
  induction p as [a|e|X c k IH]; intros w p' w' tr Hw Hq Hr; cbn [run_sync] in Hr;
    try (injection Hr as <- <- <-; by right).
  destruct (awaited c); [injection Hr as <- <- <-; by right|].
  destruct (exec c w) as [r w1] eqn:He.
  destruct (run_sync t (k r) w1) as [[p1 w2] tr1] eqn:Hr1.
  injection Hr as <- <- <-. cbn [waiting] in Hw.
  destruct (taking id c) eqn:Ht.
  - left. rewrite (exec_taking _ _ _ _ _ Ht He). apply list_elem_of_here.
  - destruct Hw as [Hread Hk].
    assert (w1 = w) as -> by (by eapply exec_looking).
    destruct (IH r _ _ _ _ (Hk r) Hq Hr1) as [Hin|Hsame]; [left|by right].
    by apply list_elem_of_further.
Qed.

(** A turn of a request that has not taken the lock, when nothing fails:
    it takes the lock, or it leaves the system as it is. *)
Lemma resume_waiting A t (p : prog A) w p' w' tr :
  waiting id p -> faults w = [] -> resume t p w = (p', w', tr) ->
  (t, LockTaken id) ∈ tr \/ (w' = w /\ waiting id p').
Proof.
  intros Hw Hq. destruct p as [a|e|X c k]; cbn [resume];
    try (intros [= <- <- <-]; by right).
  destruct (exec c w) as [r w1] eqn:He.
  destruct (run_sync t (k r) w1) as [[p1 w2] tr1] eqn:Hr1.
  intros [= <- <- <-]. cbn [waiting] in Hw.
  destruct (taking id c) eqn:Ht.
  - left. rewrite (exec_taking _ _ _ _ _ Ht He). apply list_elem_of_here.
  - destruct Hw as [Hread Hk].
    assert (w1 = w) as -> by (by eapply exec_looking).
    destruct (run_sync_waiting _ _ _ _ _ _ _ (Hk r) Hq Hr1) as [Hin|Hsame]; [left|by right].
    by apply list_elem_of_further.
Qed.

(** While one of two requests has not taken the lock and nothing fails,
    the other runs as if it were alone. *)
Lemma interleave_waiting t sched :
  forall c c' tr,
    interleave sched c = (c', tr) -> faults (state c) = [] -> waiting id (task t c) ->
    (t, LockTaken id) ∉ tr ->
    run (task (other t) c') (state c') = run (task (other t) c) (state c).
Proof.
  induction sched as [|t0 sched IH]; intros c c' tr Hi Hq Hw Hnot.
  - by injection Hi as <- <-.
  - cbn [interleave] in Hi.
    destruct (turn t0 c) as [c1 tr1] eqn:Ht.
    destruct (interleave sched c1) as [c2 tr2] eqn:Hi2.
    injection Hi as <- <-.
    assert (Hn1 : (t, LockTaken id) ∉ tr1) by (intros H; apply Hnot, elem_of_app; by left).
    assert (Hn2 : (t, LockTaken id) ∉ tr2) by (intros H; apply Hnot, elem_of_app; by right).
    unfold turn in Ht.
    destruct t0, t; cbn [task other] in *;
      destruct (resume _ _ (state c)) as [[p w1] tr0] eqn:Hr; injection Ht as <- <-.
    + destruct (resume_waiting _ _ _ _ _ _ _ Hw Hq Hr) as [Hin|[-> Hw1]]; [done|].
      by rewrite (IH _ _ _ Hi2).
    + rewrite (IH _ _ _ Hi2); cbn [task first second state other];
        [by eapply resume_run|by eapply resume_quiet|done|done].
    + rewrite (IH _ _ _ Hi2); cbn [task first second state other];
        [by eapply resume_run|by eapply resume_quiet|done|done].
    + destruct (resume_waiting _ _ _ _ _ _ _ Hw Hq Hr) as [Hin|[-> Hw1]]; [done|].
      by rewrite (IH _ _ _ Hi2).
Qed.

(** A request that ends outside the lock or coalesced has never taken
    it. *)
Lemma monitor_never_took tr :
  forall m m' t, monitor id m tr = Some m' -> passive (get t m') = true ->
                 (t, LockTaken id) ∉ tr.
Proof.
  induction tr as [|[t' e] tr IH]; intros m m' t Hm Hp Hin.
  - by apply elem_of_nil in Hin.
  - apply monitor_cons in Hm as (ph' & Hn & _ & Hm).
    apply elem_of_cons in Hin as [[= <- <-]|Hin]; [|by eapply IH].
    rewrite classify_taken in Hn.
    assert (passive (get t (set t ph' m)) = false) as Ha.
    { rewrite get_set_same.
      destruct (get t m) as [| |[]| |]; cbn [next] in Hn; try discriminate;
        by injection Hn as <-. }
    pose proof (monitor_active _ _ _ _ _ Hm Ha). congruence.
Qed.
End Coalescing.

(** ** Two saves in flight *)

(** C4 as stated does not hold: of two saves in flight together, the one
    that tests the lock after the other has released it is a save of its
    own, and the two make two commits. *)
Lemma two_saves_two_commits : ~ never_two_commits 1 twin_start.
Proof.
  intros H.
  specialize (H [First; First; First; First; First; Second; Second; Second; Second; Second]).
  vm_compute in H. lia.
Qed.

(** The run of that schedule: u1's two saves are in flight from the start,
    the second waits for its permission query while the first runs from
    its lock test to its release; no test of the lock finds it taken, and
    each of the two makes its commit. *)
Example saves_one_after_the_other :
  let sched := [First; First; First; First; First;
                Second; Second; Second; Second; Second] in
  overlapped 1 (interleave sched twin_start).2 = false /\
  exclusive 1 None (interleave sched twin_start).2 = true /\
  answer (first (interleave sched twin_start).1) = Some (json Success) /\
  answer (second (interleave sched twin_start).1) = Some (json Success) /\
  commits_created 1 (interleave sched twin_start).2 = 2%nat /\
  contents (state (interleave sched twin_start).1) 1 =
    [Some "Bye"; Some "Hello World"; Some "Hello"; Some ""].
Proof. vm_compute. repeat split. Qed.

(** C4, amended.  Two saves of the same document, started while no save
    is in flight, under any schedule.  Whatever I/O fails: along the run
    the lock is used exclusively, so that a save never writes, stages or
    commits while the other holds the lock, and a test of the lock finds
    it taken exactly when the other save holds it; the save that finds it
    taken is answered { success: true, queued: true } at once and has done
    nothing to the file or the repository; when that happened, the run
    has created at most one commit; and the history grows by the commits
    the run created.  When, besides, no call fails, both users may write
    and the document's file is staged as the head has it, and one of the
    saves found the lock taken: the other save, once answered, is
    answered { success: true }, the file and the head hold its content,
    and the run has created exactly one commit, "Update document", if that
    content differs from the head's before, and none if it is the same. *)
Theorem single_flight_save (sched : list task_id) (w : world) (id : Z)
    (content1 content2 : string) (userId1 userId2 : Z) :
  saving w id = false ->
  let start := {| first := save id content1 userId1;
                  second := save id content2 userId2;
                  state := w |} in
  let finish := (interleave sched start).1 in
  let tr := (interleave sched start).2 in
  exclusive id None tr = true /\
  (forall t, (t, LockSeen id true) ∈ tr ->
             answer (task t finish) = Some (json SuccessQueued) /\ idle id t tr = true) /\
  (overlapped id tr = true -> (commits_created id tr <= 1)%nat) /\
  length (commits_of (state finish) id) = (length (commits_of w id) + commits_created id tr)%nat /\
  (forall t row r c0,
     faults w = [] ->
     may_not_write (role_of (db w) userId1 id) = false ->
     may_not_write (role_of (db w) userId2 id) = false ->
     documents (db w) !! id = Some row -> storage w !! id = Some r -> git_dir r = true ->
     index r !! fs_path row = Some c0 -> head_tree r !! fs_path row = Some c0 ->
     (t, LockSeen id true) ∈ tr ->
     is_Some (answer (task (other t) finish)) ->
     let content := match t with First => content2 | Second => content1 end in
     answer (task (other t) finish) = Some (json Success) /\
     commits_created id tr = (if bool_decide (content = c0) then 0 else 1)%nat /\
     exists r',
       storage (state finish) !! id = Some r' /\
       worktree r' !! fs_path row = Some content /\
       head_tree r' !! fs_path row = Some content /\
       (content <> c0 ->
        exists new, commits r' = new :: commits r /\ message new = "Update document" /\
                    tree new !! fs_path row = Some content)).
Proof.
  intros Hfree start finish tr.
  destruct (interleave sched start) as [c' tr'] eqn:Hrun.
  subst finish tr. cbn [fst snd].
  assert (Hk : kept id (Outside, Outside) start).
  { split; [|split]; cbn [fst snd first second state start].
    - unfold settled. cbn [fst snd holding]. by rewrite Hfree.
    - apply save_disciplined.
    - apply save_disciplined. }
  destruct (interleave_monitored id sched _ _ _ _ Hk Hrun) as (m' & Hm & Hs & Hd1 & Hd2).
  assert (Hseen : forall t, (t, LockSeen id true) ∈ tr' -> task t c' = Ret (json SuccessQueued) /\
                                                        get t m' = Coalesced).
  { intros t Hin. pose proof (monitor_seen id _ _ _ _ Hm Hin) as Hc. split; [|done].
    apply (disciplined_coalesced id). destruct t; cbn [get task] in *; by rewrite <- Hc. }
  pose proof (interleave_commits id sched _ _ _ Hrun) as Hlen.
  split; [|split; [|split; [|split]]].
  - exact (monitor_exclusive id _ _ _ Hm eq_refl).
  - intros t Hin. destruct (Hseen t Hin) as [Ht Hc]. split.
    + by rewrite Ht.
    + apply (monitor_idle id _ _ _ _ Hm). by rewrite Hc.
  - intros Ho. apply overlapped_seen in Ho as [t Hin].
    destruct (Hseen t Hin) as [_ Hc].
    pose proof (monitor_potential id _ _ _ Hm) as Hp. cbn [fst snd potential] in Hp.
    destruct t; cbn [get] in Hc; rewrite Hc in Hp; cbn [potential] in Hp; lia.
  - exact Hlen.
  - intros t row r c0 Hq Hrole1 Hrole2 Hrow Hrepo Hgit Hindex Hhead Hin [res Hres].
    set (content := match t with First => content2 | Second => content1 end).
    destruct (Hseen t Hin) as [_ Hc].
    assert (Hnot : (t, LockTaken id) ∉ tr').
    { apply (monitor_never_took id _ _ _ _ Hm). by rewrite Hc. }
    assert (Hw : waiting id (task t start)) by (destruct t; apply save_waiting).
    pose proof (interleave_waiting id t sched _ _ _ Hrun Hq Hw Hnot) as Hsame.
    assert (exists userId, task (other t) start = save id content userId /\
                           may_not_write (role_of (db w) userId id) = false)
      as (userId & Htask & Hrole) by (destruct t; eauto).
    destruct (save_quiet w id content userId row r c0 Hq Hfree Hrole Hrow Hrepo Hgit
                Hindex Hhead) as (w' & r' & Hsave & Hr' & Hfile & Hhead' & Hcommits).
    rewrite Htask in Hsame. cbn [state start] in Hsame. rewrite Hsave in Hsame.
    destruct (task (other t) c') as [res'| |]; try discriminate.
    injection Hres as <-. injection Hsame as -> Hstate.
    rewrite Hstate in Hlen |- *.
    split; [done|].
    unfold commits_of in Hlen. subst start. cbn [state] in Hlen. rewrite Hr', Hrepo in Hlen.
    split.
    + destruct (bool_decide (content = c0)).
      * rewrite Hcommits in Hlen. lia.
      * destruct Hcommits as (new & Hnew & _). rewrite Hnew in Hlen.
        cbn [length] in Hlen. lia.
    + exists r'. split; [done|]. split; [done|]. split; [done|].
      intros Hne. by rewrite bool_decide_eq_false_2 in Hcommits.
Qed.

Lemma single_flight_save_witness :
  saving saved 1 = false /\
  exclusive 1 None (interleave twin_schedule twin_start).2 = true /\
  answer (second (interleave twin_schedule twin_start).1) = Some (json SuccessQueued) /\
  answer (first (interleave twin_schedule twin_start).1) = Some (json Success) /\
  commits_created 1 (interleave twin_schedule twin_start).2 = 1%nat.
Proof.
  split; [reflexivity|].
  destruct (single_flight_save twin_schedule saved 1 "Hello World" "Bye" 1 1 eq_refl)
    as (Hex & Hseen & _ & _ & Hone).
  assert (Hin : (Second, LockSeen 1 true) ∈ (interleave twin_schedule twin_start).2).
  { vm_compute. apply list_elem_of_In. simpl. tauto. }
  split; [exact Hex|]. split; [exact (proj1 (Hseen Second Hin))|].
  destruct (Hone Second {| name := "Notes"; path := "/"; fs_path := filename; owner_id := 1 |}
              (default empty_dir (storage saved !! 1)) "Hello")
    as (Hanswer & Hcount & _);
    [vm_compute; reflexivity..|exact Hin|vm_compute; eauto|].
  split; [exact Hanswer|]. etrans; [exact Hcount|reflexivity].
Defined.
(* ===================================================================== *)
(** * The storage and the handlers of accounts, list and delete          *)
(* ===================================================================== *)

Ltac site_fault w1 Hs :=
  match goal with
  | |- context [pop_fault ?w] =>
      let Hp := fresh "Hp" in
      destruct (pop_fault w) as [[] w1] eqn:Hp;
      destruct (pop_fault_same _ _ _ Hp) as (_ & Hs & _)
  end.

Lemma register_storage s username password :
  storage (Site.world_of (Site.register username password s).2) = storage (Site.world_of s).
Proof.
  unfold Site.register, Site.try_catch, Site.bind, Site.insert_user, Site.failing, Site.ret.
  site_fault w1 Hs; [exact Hs|].
  cbv zeta. cbn [Site.world_of Site.with_world].
  by destruct (bool_decide _).
Qed.

Lemma login_storage s username password :
  storage (Site.world_of (Site.login username password s).2) = storage (Site.world_of s).
Proof.
  unfold Site.login, Site.try_catch, Site.bind, Site.select_user, Site.failing, Site.ret.
  site_fault w1 Hs; [exact Hs|].
  cbn [Site.world_of Site.with_world Site.passwords].
  destruct (users (db w1) !! username); [|exact Hs].
  destruct (Site.passwords s !! username); [|exact Hs].
  by destruct (bool_decide _).
Qed.

Lemma listDocuments_storage s userId :
  storage (Site.world_of (Site.listDocuments userId s).2) = storage (Site.world_of s).
Proof.
  unfold Site.listDocuments, Site.try_catch, Site.bind, Site.select_documents, Site.failing,
    Site.ret.
  by site_fault w1 Hs.
Qed.

(** What a delete does to the storage: nothing, and then a request that
    is answered { success: true } found no directory to remove; or the
    directory of the document is gone. *)
Lemma deleteDocument_storage s id :
  (storage (Site.world_of (Site.deleteDocument id s).2) = storage (Site.world_of s) /\
   ((Site.deleteDocument id s).1 = Ok (Site.json (Site.Plain Success)) ->
    storage (Site.world_of s) !! id = None)) \/
  storage (Site.world_of (Site.deleteDocument id s).2) = delete id (storage (Site.world_of s)).
Proof.
  unfold Site.deleteDocument, Site.try_catch, Site.bind, Site.lift.
  rewrite run_call. cbn [exec]. unfold fallible.
  destruct (pop_fault (Site.world_of s)) as [[] w1] eqn:Hp1;
    destruct (pop_fault_same _ _ _ Hp1) as (Hd1 & Hs1 & _).
  { left. by split. }
  destruct (documents (db w1) !! id) as [row|]; [|left; by split].
  rewrite run_call. cbn [exec Site.world_of Site.with_world].
  destruct (storage w1 !! id) as [r|] eqn:Hdir.
  - rewrite bool_decide_eq_true_2 by eauto.
    unfold Site.rmSync, Site.delete_document, Site.failing. cbn [Site.world_of Site.with_world].
    destruct (pop_fault w1) as [[] w2] eqn:Hp2;
      destruct (pop_fault_same _ _ _ Hp2) as (_ & Hs2 & _);
      cbn [snd fst Site.world_of Site.with_world Site.ret].
    { left. split; [by rewrite Hs2|discriminate]. }
    destruct (pop_fault (set_storage (delete id) w2)) as [[] w3] eqn:Hp3;
      destruct (pop_fault_same _ _ _ Hp3) as (_ & Hs3 & _);
      right; cbn [snd Site.world_of Site.with_world Site.ret storage set_db]; rewrite Hs3;
      cbn [storage set_storage]; by rewrite Hs2, Hs1.
  - rewrite bool_decide_eq_false_2 by apply is_Some_None.
    unfold Site.ret, Site.delete_document, Site.failing. cbn [Site.world_of Site.with_world].
    destruct (pop_fault w1) as [[] w2] eqn:Hp2;
      destruct (pop_fault_same _ _ _ Hp2) as (_ & Hs2 & _);
      left; cbn [snd fst Site.world_of Site.with_world storage set_db];
      (split; [by rewrite Hs2|]); [discriminate|intros _; by rewrite <- Hs1].
Qed.

(* ===================================================================== *)
(** * Further properties of the handlers                                 *)
(* ===================================================================== *)

(** ** Every request *)

(** X1.  Every request is answered: whatever the state and whichever calls
    fail, the handler ends with a response, and no exception leaves it.
    The status is 200, 403, 404 or 500 and the body goes with it: JSON
    data with 200, the text "Doc not found" or the error "User not found"
    with 404, the forbidden message with 403, an error message with
    500. *)
Theorem every_request_is_answered (q : request) (w : world) :
  exists res w', run (handler q) w = (Ok res, w') /\ fits res.
Proof.
  destruct (run_catches _ (handler q) w (handler_catches q)) as (res & w' & Hrun).
  exists res, w'. split; [exact Hrun|].
  apply (run_always _ fits (handler q) w res w'); [|exact Hrun].
  destruct q; cbn [handler];
    unfold createDocument, initDocumentRepo, getContent, history, rollback, share,
      save, save_locked, getUserDocumentRole;
    repeat fits_step.
Qed.

(** X2.  Reading the content, the history or a role writes nothing: the
    database, the storage and the lock map are the same after the request,
    whichever calls fail. *)
Theorem reads_change_nothing (w : world) (id userId : Z) :
  unchanged w (run (getContent id userId) w).2 /\
  unchanged w (run (history id) w).2 /\
  unchanged w (run (getUserDocumentRole userId id) w).2.
Proof.
  split; [|split]; apply run_reads_only.
  - apply getContent_reads.
  - apply history_reads.
  - apply getUserDocumentRole_reads.
Qed.

(** X3.  Only deleting a document removes commits.  The handlers of
    create, content, history, rollback, share and save never remove or
    rewrite a commit: after one of them the history of every document is
    its history before with at most one new commit on top, and none for
    a read or a share; with two of them on the event loop, under any
    schedule, it is the history before with at most one new commit on top
    for each request that may commit.  Register, login and the list of
    documents leave the storage as it is.  Deleting a document leaves the
    history of every other document as it is; the history of the deleted
    one is afterwards as before or gone, and gone when the request is
    answered { success: true }.  All this holds whichever calls fail. *)
Theorem history_only_grows (q : request) (w : world) (id : Z) :
  (exists new, commits_of (run (handler q) w).2 id = (new ++ commits_of w id)%list /\
               (length new <= commit_budget q)%nat) /\
  (forall sched q',
     exists new,
       commits_of (state (interleave sched {| first := handler q; second := handler q';
                                              state := w |}).1) id
         = (new ++ commits_of w id)%list /\
       (length new <= commit_budget q + commit_budget q')%nat) /\
  (forall s username password userId,
     storage (Site.world_of (Site.register username password s).2)
       = storage (Site.world_of s) /\
     storage (Site.world_of (Site.login username password s).2)
       = storage (Site.world_of s) /\
     storage (Site.world_of (Site.listDocuments userId s).2)
       = storage (Site.world_of s)) /\
  (forall s deleted,
     (id <> deleted ->
      commits_of (Site.world_of (Site.deleteDocument deleted s).2) id
        = commits_of (Site.world_of s) id) /\
     (commits_of (Site.world_of (Site.deleteDocument deleted s).2) deleted
        = commits_of (Site.world_of s) deleted \/
      commits_of (Site.world_of (Site.deleteDocument deleted s).2) deleted = []) /\
     ((Site.deleteDocument deleted s).1 = Ok (Site.json (Site.Plain Success)) ->
      commits_of (Site.world_of (Site.deleteDocument deleted s).2) deleted = [])).
Proof.
  split; [|split; [|split]].
  - apply run_commits_at_most, handler_commits_at_most.
  - intros sched q'.
    apply (interleave_commits_at_most id sched
             {| first := handler q; second := handler q'; state := w |});
      apply handler_commits_at_most.
  - intros s username password userId.
    split; [apply register_storage|]. split; [apply login_storage|apply listDocuments_storage].
  - intros s deleted. unfold commits_of.
    destruct (deleteDocument_storage s deleted) as [[Hs Hnone]|Hs]; rewrite Hs.
    + split; [done|]. split; [by left|]. intros Hok. by rewrite (Hnone Hok).
    + split; [intros Hne; by rewrite lookup_delete_ne|].
      rewrite lookup_delete_eq. split; [by right|done].
Qed.

(** X4.  One document, one file.  From a state in which every row names
    document.md, the table holds one row at most, and every directory of
    the storage has no other file than document.md in its working tree,
    index and snapshots, two requests under any schedule, whichever calls
    fail, lead to such a state again.  The system before the first request
    is such a state. *)
Theorem one_document_one_file (sched : list task_id) (q1 q2 : request) (w : world) :
  single_file w ->
  single_file (state (interleave sched {| first := handler q1; second := handler q2;
                                          state := w |}).1).
Proof.
  intros Hw.
  apply (interleave_single_file sched {| first := handler q1; second := handler q2; state := w |});
    [apply handler_keeps_to_document..|exact Hw].
Qed.

Lemma one_document_one_file_witness :
  single_file (state (interleave [First; Second; First; Second; First; Second]
                        {| first := handler (PostDocument "Notes" 1);
                           second := handler (PostDocument "Plans" 2);
                           state := fresh |}).1).
Proof.
  apply one_document_one_file.
  split; [|split]; intros *; cbn [fresh db documents storage]; by rewrite lookup_empty.
Defined.

(** ** The lock of a document *)

(** X5.  Only a save of the same document makes a save wait.  A save of
    a document whose lock is free, on the event loop with a read, a
    share, or a save or a rollback sent for another document id, under
    any schedule and whichever calls fail, is never answered as queued,
    and once it is answered the lock of its document is free again,
    whether the save has the first or the second place.  (With one
    document in the table at most, a request for another id is one that
    the server turns down.) *)
Theorem save_is_not_held_up
    (sched : list task_id) (w : world) (id : Z) (content : string) (userId : Z) (q : request) :
  gitLocks w !! id = None -> elsewhere id q ->
  (forall res,
     let finish := (interleave sched {| first := save id content userId;
                                        second := handler q; state := w |}).1 in
     answer (first finish) = Some res ->
     body res <> SuccessQueued /\ gitLocks (state finish) !! id = None) /\
  (forall res,
     let finish := (interleave sched {| first := handler q;
                                        second := save id content userId; state := w |}).1 in
     answer (second finish) = Some res ->
     body res <> SuccessQueued /\ gitLocks (state finish) !! id = None).
Proof.
  intros Hfree Hq. split; intros res finish Hres; subst finish.
  - destruct (interleave_alone id sched First
                {| first := save id content userId; second := handler q; state := w |} Outside)
      as (ph & Hd & Hal); cbn [task other first second state].
    + apply save_disciplined.
    + by apply handler_foreign.
    + exact Hfree.
    + by eapply answer_not_queued.
  - destruct (interleave_alone id sched Second
                {| first := handler q; second := save id content userId; state := w |} Outside)
      as (ph & Hd & Hal); cbn [task other first second state].
    + apply save_disciplined.
    + by apply handler_foreign.
    + exact Hfree.
    + by eapply answer_not_queued.
Qed.

(** A save of document 1 with a share of it in flight, and with a save
    sent for document 2, which does not exist. *)
Lemma save_is_not_held_up_witness :
  (exists res,
     answer (first (interleave [First; Second; First; Second; First; Second; First; First]
                      {| first := save 1 "Hello World" 1;
                         second := handler (PostShare 1 "u2" "writer");
                         state := saved |}).1) = Some res /\
     body res <> SuccessQueued) /\
  (exists res,
     answer (first (interleave twin_schedule
                      {| first := save 1 "Hello World" 1;
                         second := handler (PostSave 2 "Bye" 1);
                         state := saved |}).1) = Some res /\
     body res <> SuccessQueued).
Proof.
  split.
  - exists (json Success). split; [vm_compute; reflexivity|].
    destruct (save_is_not_held_up
                [First; Second; First; Second; First; Second; First; First]
                saved 1 "Hello World" 1 (PostShare 1 "u2" "writer"))
      as [Hfirst _]; [reflexivity|exact I|].
    apply (Hfirst (json Success)). vm_compute. reflexivity.
  - exists (json Success). split; [vm_compute; reflexivity|].
    destruct (save_is_not_held_up twin_schedule saved 1 "Hello World" 1 (PostSave 2 "Bye" 1))
      as [Hfirst _]; [reflexivity|discriminate|].
    apply (Hfirst (json Success)). vm_compute. reflexivity.
Defined.

(** ** Creating a document *)

(** X6.  While a document exists, no document can be created: its row
    holds the file name document.md, the column is UNIQUE, and every
    create inserts that name.  The request is answered 500 and nothing is
    written, whichever calls fail. *)
Theorem create_fails_while_a_document_exists
    (w : world) (name : string) (userId i : Z) (row : document_row) :
  documents (db w) !! i = Some row -> fs_path row = filename ->
  exists e w',
    run (createDocument name userId) w = (Ok (status_json 500 (Error e)), w') /\
    unchanged w w'.
Proof.
  intros Hrow Hpath. by eapply createDocument_taken.
Qed.

Lemma create_fails_while_a_document_exists_witness :
  exists e w',
    run (createDocument "Plans" 2) created = (Ok (status_json 500 (Error e)), w') /\
    unchanged created w'.
Proof.
  apply (create_fails_while_a_document_exists created "Plans" 2 1
           {| name := "Notes"; path := "/"; fs_path := filename; owner_id := 1 |});
    reflexivity.
Defined.

(** X7.  A create is not undone.  When its insert has gone through, the
    row is in the table whatever happens next: the answer is 200 or 500,
    and a create that failed on the way has left its row, with the file
    name that every later create will ask for; no later create succeeds
    while the row is there. *)
Theorem failed_create_leaves_its_row
    (w : world) (name : string) (userId : Z) (ahead : list bool) :
  let id := documents_seq (db w) + 1 in
  let row := {| Model.name := name; path := "/"; fs_path := filename; owner_id := userId |} in
  faults w = false :: ahead ->
  fs_path_taken (db w) filename = false ->
  documents (db w) !! id = None ->
  exists res w',
    run (createDocument name userId) w = (Ok res, w') /\
    (http_status res = 200%nat \/ http_status res = 500%nat) /\
    documents (db w') !! id = Some row /\
    (forall name' userId',
       exists e w'', run (createDocument name' userId') w'
                     = (Ok (status_json 500 (Error e)), w'')).
Proof.
  intros id row Hfaults Hfree Hid.
  assert (Hrun : exists res w',
            run (createDocument name userId) w = (Ok res, w') /\
            (http_status res = 200%nat \/ http_status res = 500%nat) /\
            documents (db w') !! id = Some row).
  { unfold createDocument. rewrite run_try_catch, run_bind, run_call.
    cbn [exec]. unfold fallible, pop_fault. rewrite Hfaults. cbv beta iota zeta.
    cbn [db set_faults fs_path]. fold id. rewrite Hfree.
    rewrite bool_decide_eq_false_2 by (rewrite Hid; apply is_Some_None).
    match goal with
    | |- context [run ?p ?w1] =>
        pose proof (run_documents_kept _ p id row w1) as Hkept;
        destruct (run p w1) as [[res|e] w2] eqn:Hrest
    end.
    - eexists _, _. split; [reflexivity|].
      split; [|apply Hkept; cbn [db set_db documents]; apply lookup_insert_eq].
      left. refine (run_always _ (fun res => http_status res = 200%nat) _ _ _ _ _ Hrest).
      unfold initDocumentRepo. repeat always_step.
    - cbn [run]. eexists _, _. split; [reflexivity|].
      split; [by right|]. apply Hkept. cbn [db set_db documents]. apply lookup_insert_eq. }
  destruct Hrun as (res & w' & Hrun & Hstatus & Hrow).
  exists res, w'. split; [exact Hrun|]. split; [exact Hstatus|]. split; [exact Hrow|].
  intros name' userId'.
  destruct (createDocument_taken w' name' userId' id row Hrow eq_refl) as (e & w'' & H & _).
  by exists e, w''.
Qed.

Lemma failed_create_leaves_its_row_witness :
  exists w',
    run (createDocument "Notes" 1) (set_faults [false; true] fresh)
      = (Ok (status_json 500 (Error "EIO")), w') /\
    documents (db w') !! 1 =
      Some {| name := "Notes"; path := "/"; fs_path := filename; owner_id := 1 |} /\
    exists e w'', run (createDocument "Plans" 2) w' = (Ok (status_json 500 (Error e)), w'').
Proof.
  destruct (failed_create_leaves_its_row (set_faults [false; true] fresh) "Notes" 1 [true])
    as (res & w' & Hrun & _ & Hrow & Hnext); [vm_compute; reflexivity..|].
  exists w'. split; [|split; [exact Hrow|apply Hnext]].
  rewrite Hrun. f_equal. f_equal.
  assert (Hres : (run (createDocument "Notes" 1) (set_faults [false; true] fresh)).1
                 = Ok (status_json 500 (Error "EIO"))) by (vm_compute; reflexivity).
  rewrite Hrun in Hres. by injection Hres.
Defined.

(** X8.  Where a create can succeed and no call fails, the new document
    can be read at once: its creator is its owner, its content is empty,
    and its history is the one commit "Create document <name>", listed
    without the blanks at the end of the name, which git drops; for a
    name that does not end in a blank the message is the text in full.
    Stated for names of printable ASCII. *)
Theorem create_then_read (w : world) (name : string) (userId : Z) :
  let id := documents_seq (db w) + 1 in
  let row := {| Model.name := name; path := "/"; fs_path := filename; owner_id := userId |} in
  printable name = true ->
  faults w = [] ->
  fs_path_taken (db w) filename = false ->
  documents (db w) !! id = None ->
  storage w !! id = None ->
  permissions (db w) !! (id, userId) = None ->
  exists w',
    run (createDocument name userId) w = (Ok (json (DocumentJson id row)), w') /\
    run (getUserDocumentRole userId id) w' = (Ok (Some "owner"), w') /\
    run (getContent id userId) w' = (Ok (json (ContentJson "" (Some "owner"))), w') /\
    run (history id) w' =
      (Ok (json (HistoryJson [ {| hash := 1; message := rtrim ("Create document " ++ name);
                                  tree := {[ filename := "" ]} |} ])), w') /\
    (name <> "" -> rtrim name = name ->
     rtrim ("Create document " ++ name) = "Create document " ++ name).
Proof.
  intros id row Hname Hq Hpath Hid Hdir Hperm.
  destruct (createDocument_quiet w name userId Hq Hpath Hid Hdir Hperm)
    as (w' & Hrun & Hrow & _ & Hrepo).
  fold id in Hrun, Hrow, Hrepo. fold row in Hrun, Hrow.
  assert (Hq' : faults w' = []).
  { pose proof (run_quiet _ (createDocument name userId) w Hq) as H. by rewrite Hrun in H. }
  assert (Hrole : role_of (db w') userId id = Some "owner").
  { unfold role_of. rewrite Hrow. cbn [owner_id row]. by rewrite bool_decide_eq_true_2. }
  assert (Hline : one_line ("Create document " ++ name) = true).
  { rewrite one_line_app. by rewrite (printable_one_line _ Hname). }
  exists w'. split; [exact Hrun|]. split; [|split; [|split]].
  - by rewrite (getUserDocumentRole_quiet _ _ _ Hq'), Hrole.
  - rewrite (getContent_quiet _ _ _ _ Hq' Hrow), Hrole, Hrepo. reflexivity.
  - rewrite (history_quiet _ _ _ _ Hq' Hrow Hrepo) by done.
    unfold created_repo, log_entry. cbn [commits fmap list_fmap hash message tree].
    by rewrite (subject_stored _ Hline), (git_cleanup_one_line _ Hline).
  - intros Hne Hclean. by apply rtrim_app.
Qed.

Lemma create_then_read_witness :
  exists w',
    run (createDocument "Notes" 1) fresh =
      (Ok (json (DocumentJson 1 {| name := "Notes"; path := "/"; fs_path := filename;
                                   owner_id := 1 |})), w') /\
    run (getContent 1 1) w' = (Ok (json (ContentJson "" (Some "owner"))), w') /\
    run (history 1) w' =
      (Ok (json (HistoryJson [ {| hash := 1; message := "Create document Notes";
                                  tree := {[ filename := "" ]} |} ])), w').
Proof.
  destruct (create_then_read fresh "Notes" 1) as (w' & Hrun & _ & Hcontent & Hhistory & _);
    try reflexivity.
  exists w'. split; [exact Hrun|]. split; [exact Hcontent|exact Hhistory].
Defined.

(** ** Reading *)

(** X9.  The content is served to whoever asks.  When no call fails, the
    answer for an existing document is the content of its file, or the
    empty string when the file or the directory is missing, together with
    the requester's role, which is null for a requester without any; the
    handler refuses nobody. *)
Theorem getContent_serves_any_requester (w : world) (id : Z) (row : document_row) :
  faults w = [] -> documents (db w) !! id = Some row ->
  forall userId,
    run (getContent id userId) w =
      (Ok (json (ContentJson (default "" (storage w !! id ≫= fun r => worktree r !! fs_path row))
                             (role_of (db w) userId id))), w).
Proof. intros Hq Hrow userId. by apply getContent_quiet. Qed.

Lemma getContent_serves_any_requester_witness :
  run (getContent 1 3) shared = (Ok (json (ContentJson "Hello" None)), shared).
Proof.
  apply (getContent_serves_any_requester shared 1
           {| name := "Notes"; path := "/"; fs_path := filename; owner_id := 1 |}
           eq_refl eq_refl 3).
Defined.

(** X10.  A document that has no row.  Reading its content or its history
    and rolling it back are answered 404 "Doc not found", or 500 when the
    query itself failed; saving it is answered 403, because a missing
    document gives no role.  None of the four writes anything. *)
Theorem missing_document (w : world) (id : Z) :
  documents (db w) !! id = None ->
  let not_found (p : prog response) :=
    exists res w', run p w = (Ok res, w') /\
                   (res = status_send 404 "Doc not found" \/ http_status res = 500%nat) /\
                   unchanged w w' in
  (forall userId, not_found (getContent id userId)) /\
  not_found (history id) /\
  (forall hash, not_found (rollback id hash)) /\
  (forall content userId,
     exists w', run (save id content userId) w =
                  (Ok (status_json 403 (Error forbidden_message)), w') /\
                unchanged w w').
Proof.
  intros Hrow not_found. subst not_found. cbv beta.
  split; [|split; [|split]].
  - intros userId. by apply not_found_first.
  - by apply not_found_first.
  - intros hash. by apply not_found_first.
  - intros content userId. apply save_forbidden. unfold role_of. by rewrite Hrow.
Qed.

Lemma missing_document_witness :
  exists res w', run (rollback 1 1) fresh = (Ok res, w') /\
                 (res = status_send 404 "Doc not found" \/ http_status res = 500%nat) /\
                 unchanged fresh w'.
Proof.
  destruct (missing_document fresh 1 eq_refl) as (_ & _ & Hrollback & _).
  apply Hrollback.
Defined.

(** ** Saving *)

(** X11.  A save is refused unless the database gives the requester the
    role owner or writer.  Whichever calls fail, the answer is 403 with
    nothing written (not the file, not the lock), or the requester is an
    owner or a writer of the document; a failed role query counts as no
    role.  When no call fails, an owner or a writer is not answered 403. *)
Theorem save_refuses_non_writers (w : world) (id : Z) (content : string) (userId : Z) :
  exists res w',
    run (save id content userId) w = (Ok res, w') /\
    (res = status_json 403 (Error forbidden_message) /\ unchanged w w' \/
     role_of (db w) userId id = Some "owner" \/ role_of (db w) userId id = Some "writer") /\
    (faults w = [] ->
     role_of (db w) userId id = Some "owner" \/ role_of (db w) userId id = Some "writer" ->
     http_status res <> 403%nat).
Proof.
  destruct (run_catches _ _ w (handler_catches (PostSave id content userId)))
    as (res & w' & Hrun).
  cbn [handler] in Hrun. exists res, w'. split; [exact Hrun|].
  destruct (getUserDocumentRole_run w userId id) as (role & w0 & Hr & Hrole & Hsame).
  split.
  - unfold save in Hrun. rewrite run_bind, Hr in Hrun.
    destruct (may_not_write role) eqn:Hno.
    + injection Hrun as <- <-. by left.
    + right. apply may_write_role in Hno. destruct Hrole as [-> | ->]; [|done].
      by destruct Hno.
  - intros Hq Hw. unfold save in Hrun.
    rewrite run_bind, (getUserDocumentRole_quiet _ _ _ Hq) in Hrun.
    assert (Hm : may_not_write (role_of (db w) userId id) = false)
      by (by destruct Hw as [-> | ->]).
    rewrite Hm in Hrun.
    rewrite run_bind, run_call in Hrun. cbn [exec] in Hrun.
    destruct (saving w id); [by injection Hrun as <- _|].
    rewrite run_bind, run_call in Hrun. cbn [exec] in Hrun.
    refine (run_always _ (fun res => http_status res <> 403%nat) _ _ _ _ _ Hrun).
    unfold save_locked. repeat always_step.
Qed.

(** X12.  A save that runs from its first call to its answer with no
    step of another request in between, and is answered { success: true
    }, has written the content: the document's file holds it, and it is
    what a read gives back; and when the head commit had the file, the
    head commit after the save has it with the saved content, the
    history being the one before or the one before with a commit "Update
    document" on top.  This holds whichever calls failed on the way.
    (With a rollback between its steps it does not hold, as the rollback
    does not look at the lock.) *)
Theorem save_success_is_durable (w w' : world) (id : Z) (content : string) (userId : Z) :
  run (save id content userId) w = (Ok (json Success), w') ->
  exists row r r',
    documents (db w) !! id = Some row /\ storage w !! id = Some r /\
    storage w' !! id = Some r' /\
    worktree r' !! fs_path row = Some content /\
    (is_Some (head_tree r !! fs_path row) -> head_tree r' !! fs_path row = Some content) /\
    (commits r' = commits r \/
     exists new, commits r' = new :: commits r /\ message new = "Update document" /\
                 tree new !! fs_path row = Some content) /\
    (faults w' = [] ->
     forall reader, run (getContent id reader) w' =
                      (Ok (json (ContentJson content (role_of (db w) reader id))), w')).
Proof.
  intros Hrun.
  destruct (save_success _ _ _ _ _ Hrun) as (row & r & r' & Hrow & Hr & Hr' & Hd & Hw & Hh & Hc).
  exists row, r, r'. repeat (split; [assumption|]).
  intros Hq reader.
  rewrite (getContent_quiet w' id reader row Hq) by (by rewrite Hd).
  rewrite Hr', Hd. cbn [mbind option_bind]. by rewrite Hw.
Qed.

Lemma save_success_is_durable_witness :
  exists r', storage saved !! 1 = Some r' /\
             worktree r' !! filename = Some "Hello" /\
             head_tree r' !! filename = Some "Hello".
Proof.
  destruct (save_success_is_durable created saved 1 "Hello" 1 eq_refl)
    as (row & r & r' & Hrow & Hr & Hr' & Hw & Hh & _).
  injection Hrow as <-. injection Hr as <-.
  exists r'. split; [exact Hr'|]. split; [exact Hw|].
  apply Hh. by exists "".
Defined.

(** ** Rolling back *)

(** X13.  A rollback that runs with no step of another request in
    between and without a failing call, in a repository whose file is as
    the head commit has it, to a commit that has the file, the restored
    content and the messages of the commits being ASCII text: the answer
    is { success: true }; the history is the one before with one commit
    on top, whose snapshot has the file with the content of the target
    commit and whose message is "Revert to: " and the first fifty
    characters of the target's subject (the lines of its first
    paragraph, joined by blanks), without white space at its end, 61
    characters at most; a read gives the restored content back, and the
    history request lists the new commit first, with that message. *)
Theorem rollback_restores_and_records
    (w : world) (id : Z) (h : nat) (row : document_row) (r : repo)
    (target : commit) (c c0 : string) :
  faults w = [] ->
  documents (db w) !! id = Some row ->
  storage w !! id = Some r ->
  git_dir r = true ->
  Forall (fun past => ascii_text (message past) = true) (commits r) ->
  find_commit h r = Some target ->
  tree target !! fs_path row = Some c ->
  ascii_text c = true ->
  worktree r !! fs_path row = Some c0 ->
  head_tree r !! fs_path row = Some c0 ->
  exists w' new,
    run (rollback id h) w = (Ok (json Success), w') /\
    commits_of w' id = new :: commits r /\
    tree new !! fs_path row = Some c /\
    message new =
      rtrim ("Revert to: " ++ String.substring 0 50 (trim (subject (message target)))) /\
    (String.length (message new) <= 61)%nat /\
    (forall reader, run (getContent id reader) w' =
                      (Ok (json (ContentJson c (role_of (db w) reader id))), w')) /\
    run (history id) w' = (Ok (json (HistoryJson (new :: (log_entry <$> commits r)))), w').
Proof.
  intros Hq Hrow Hrepo Hgit _ Hfind Htree _ Hfile Hhead.
  destruct (rollback_clean w id h row r target c c0 Hq Hrow Hrepo Hgit Hfind Htree
              Hfile Hhead) as (w' & Hrun & Hs & Hd & Hl & Hq').
  set (text := "Revert to: " ++ String.substring 0 50 (trim (subject (message target)))) in *.
  assert (Hline : one_line text = true).
  { unfold text. rewrite one_line_app.
    by rewrite substring_one_line by apply trim_one_line, subject_is_one_line. }
  rewrite (git_cleanup_one_line _ Hline) in Hs.
  eexists w', _. split; [exact Hrun|].
  assert (Hr' : storage w' !! id = Some _) by (rewrite Hs; apply lookup_insert_eq).
  split; [|split; [|split; [|split; [|split]]]].
  - unfold commits_of. rewrite Hr'. reflexivity.
  - cbn [tree]. apply lookup_insert_eq.
  - reflexivity.
  - cbn [message]. etrans; [apply rtrim_length|]. unfold text.
    change (S (S (S (S (S (S (S (S (S (S (S (String.length
      (String.substring 0 50 (trim (subject (message target))))))))))))))) <= 61)%nat.
    pose proof (substring_length_le 50 (trim (subject (message target)))). lia.
  - intros reader. rewrite (getContent_quiet w' id reader row Hq') by (by rewrite Hd).
    rewrite Hr', Hd. cbn [mbind option_bind worktree]. by rewrite lookup_insert_eq.
  - rewrite (history_quiet w' id row _ Hq' ltac:(by rewrite Hd) Hr') by done.
    cbn [commits fmap list_fmap]. unfold log_entry at 1. cbn [hash message tree].
    rewrite subject_one_line by (by apply rtrim_one_line). by rewrite rtrim_idem.
Qed.

Lemma rollback_restores_and_records_witness :
  exists w' new,
    run (rollback 1 1) saved = (Ok (json Success), w') /\
    commits_of w' 1 = new :: commits_of saved 1 /\
    tree new !! filename = Some "" /\
    message new = "Revert to: Create document Notes".
Proof.
  destruct (rollback_restores_and_records saved 1 1
              {| name := "Notes"; path := "/"; fs_path := filename; owner_id := 1 |}
              (default empty_dir (storage saved !! 1))
              {| hash := 1; message := "Create document Notes"; tree := {[ filename := "" ]} |}
              "" "Hello")
    as (w' & new & Hrun & Hc & Ht & Hm & _); try reflexivity.
  { vm_compute. repeat constructor. }
  exists w', new. split; [exact Hrun|]. split; [exact Hc|]. split; [exact Ht|exact Hm].
Defined.

(** ** Sharing *)

(** X14.  Sharing a document with a known user who has no grant on it
    yet, with one of the roles owner, writer and reader, when no call
    fails: the answer is { success: true }, the grant is the one row added
    to the table, and it is the role the server gives that user from then
    on, unless the user owns the document.  The handler asks neither who
    sends the request nor whether the document exists. *)
Theorem share_grants (w : world) (id : Z) (username role : string) (u : Z) :
  faults w = [] ->
  users (db w) !! username = Some u ->
  role_allowed role = true ->
  permissions (db w) !! (id, u) = None ->
  exists w',
    run (share id username role) w = (Ok (json Success), w') /\
    permissions (db w') = <[(id, u) := role]> (permissions (db w)) /\
    documents (db w') = documents (db w) /\
    storage w' = storage w /\ gitLocks w' = gitLocks w /\
    (forall row, documents (db w) !! id = Some row -> owner_id row <> u ->
                 run (getUserDocumentRole u id) w' = (Ok (Some role), w')) /\
    (forall userId documentId, (documentId, userId) <> (id, u) ->
                 role_of (db w') userId documentId = role_of (db w) userId documentId).
Proof.
  intros Hq Hu Hrole Hnone. eexists. split; [by apply share_quiet|].
  cbn [db set_db permissions documents storage gitLocks].
  repeat (split; [reflexivity|]). split.
  - intros row Hrow Ho. rewrite getUserDocumentRole_quiet by done.
    unfold role_of. cbn [db set_db permissions documents]. rewrite Hrow.
    rewrite bool_decide_eq_false_2 by done. by rewrite lookup_insert_eq.
  - intros userId documentId Hne. unfold role_of. cbn [db set_db permissions documents].
    destruct (documents (db w) !! documentId) as [row|]; [|done].
    destruct (bool_decide (owner_id row = userId)); [done|].
    by rewrite lookup_insert_ne.
Qed.

Lemma share_grants_witness :
  exists w', run (share 1 "u2" "reader") saved = (Ok (json Success), w') /\
             run (getUserDocumentRole 2 1) w' = (Ok (Some "reader"), w').
Proof.
  destruct (share_grants saved 1 "u2" "reader" 2) as (w' & Hrun & _ & _ & _ & _ & Hrole & _);
    try reflexivity.
  exists w'. split; [exact Hrun|].
  apply (Hrole {| name := "Notes"; path := "/"; fs_path := filename; owner_id := 1 |});
    [reflexivity|discriminate].
Defined.

(** X15.  What a share refuses.  For a user name that is not in the table
    the answer is 404 "User not found"; for a role other than owner,
    writer and reader the insert fails the CHECK of the column and the
    answer is 500, or 404 when the user is unknown as well; a failed query
    gives 500.  In every case nothing is written. *)
Theorem share_refuses (w : world) (id : Z) (username role : string) :
  (users (db w) !! username = None ->
   exists res w', run (share id username role) w = (Ok res, w') /\
                  (res = status_json 404 (Error "User not found") \/ http_status res = 500%nat) /\
                  unchanged w w') /\
  (role_allowed role = false ->
   exists res w', run (share id username role) w = (Ok res, w') /\
                  (http_status res = 404%nat \/ http_status res = 500%nat) /\
                  unchanged w w').
Proof. split; [apply share_unknown_user|apply share_role_refused]. Qed.

Lemma share_refuses_witness :
  (exists res w', run (share 1 "nobody" "reader") saved = (Ok res, w') /\
                  (res = status_json 404 (Error "User not found") \/ http_status res = 500%nat) /\
                  unchanged saved w') /\
  (exists res w', run (share 1 "u2" "editor") saved = (Ok res, w') /\
                  (http_status res = 404%nat \/ http_status res = 500%nat) /\
                  unchanged saved w').
Proof.
  split.
  - by apply (share_refuses saved 1 "nobody" "reader").
  - by apply (share_refuses saved 1 "u2" "editor").
Defined.

(** X23.  A grant cannot be changed by sharing again.  For a user who
    has a row of [permissions] for the document, as its creator has, the
    share is answered 500 whatever the role asked for, and nothing is
    written: the statement gets three values for the four parameters
    that db.js makes of it, and the update of the role fails. *)
Theorem share_cannot_change_a_grant
    (w : world) (id : Z) (username role : string) (u : Z) (granted : string) :
  users (db w) !! username = Some u ->
  permissions (db w) !! (id, u) = Some granted ->
  exists e w',
    run (share id username role) w = (Ok (status_json 500 (Error e)), w') /\
    unchanged w w' /\
    role_of (db w') u id = role_of (db w) u id.
Proof.
  intros Hu Hgranted.
  assert (Hend : forall w0, unchanged w w0 -> role_of (db w0) u id = role_of (db w) u id).
  { intros w0 (Hd & _). by rewrite Hd. }
  unfold share. fault_call w1 Hp1.
  { eexists _, _. split; [reflexivity|]. split; [done|]. by apply Hend. }
  rewrite Hd, Hu. cbn [run bind try_catch].
  assert (Hu1 : unchanged w w1) by done.
  fault_call w2 Hp2.
  { eexists _, _. split; [reflexivity|].
    assert (unchanged w w2) by (eapply unchanged_trans; [exact Hu1|done]). by split; [|apply Hend]. }
  assert (Hu2 : unchanged w w2) by (eapply unchanged_trans; [exact Hu1|done]).
  fault_call w3 Hp3.
  { eexists _, _. split; [reflexivity|].
    assert (unchanged w w3) by (eapply unchanged_trans; [exact Hu2|done]). by split; [|apply Hend]. }
  assert (Hu3 : unchanged w w3) by (eapply unchanged_trans; [exact Hu2|done]).
  cbv zeta. destruct Hu3 as (Hd3 & Hs3 & Hl3). rewrite Hd3.
  destruct (negb (role_allowed role)); cbn [run bind try_catch];
    [|rewrite bool_decide_eq_true_2 by (rewrite Hgranted; eauto); cbn [run bind try_catch]];
    (eexists _, _; split; [reflexivity|]; split; [done|]; by apply Hend).
Qed.

Lemma share_cannot_change_a_grant_witness :
  permissions (db saved) !! (1, 1) = Some "owner" /\
  exists e w',
    run (share 1 "u1" "reader") saved = (Ok (status_json 500 (Error e)), w') /\
    unchanged saved w'.
Proof.
  split; [vm_compute; reflexivity|].
  destruct (share_cannot_change_a_grant saved 1 "u1" "reader" 1 "owner")
    as (e & w' & Hrun & Hsame & _); [vm_compute; reflexivity..|].
  exists e, w'. split; [exact Hrun|exact Hsame].
Defined.

(** ** Accounts *)

(** X16.  Registering a user name that is free, when no call fails: the
    account gets an id that no account has, and the user is logged in
    with the registered password, and only with it; a second registration
    of the name, with whatever password, is answered 400 and changes
    nothing. *)
Theorem register_then_login (s : Site.site) (username password : string) :
  faults (Site.world_of s) = [] ->
  users (db (Site.world_of s)) !! username = None ->
  exists id s',
    Site.register username password s = (Ok (Site.json (Site.UserJson id username)), s') /\
    (forall name, users (db (Site.world_of s)) !! name <> Some id) /\
    users (db (Site.world_of s')) = <[username := id]> (users (db (Site.world_of s))) /\
    Site.login username password s' = (Ok (Site.json (Site.UserJson id username)), s') /\
    (forall attempt, attempt <> password ->
       Site.login username attempt s' =
         (Ok (Site.status_json 401 (Site.Plain (Error "Invalid credentials"))), s')) /\
    (forall again,
       Site.register username again s' =
         (Ok (Site.status_json 400 (Site.Plain (Error "Username likely taken"))), s')).
Proof.
  intros Hq Hfree.
  set (id := Z.max (Site.users_seq s) (Site.largest_id (users (db (Site.world_of s)))) + 1).
  eexists id, _. split; [|split; [|split; [|split; [|split]]]].
  - unfold Site.register, Site.try_catch, Site.bind, Site.insert_user.
    rewrite failing_quiet by done. cbv beta zeta.
    rewrite bool_decide_eq_false_2 by (rewrite Hfree; apply is_Some_None).
    reflexivity.
  - intros name Hl. apply largest_id_ge in Hl. subst id. lia.
  - reflexivity.
  - unfold Site.login, Site.try_catch, Site.bind, Site.select_user.
    rewrite failing_quiet by done. cbn [Site.world_of Site.passwords db set_db users].
    rewrite !lookup_insert_eq. by rewrite bool_decide_eq_true_2.
  - intros attempt Hne.
    unfold Site.login, Site.try_catch, Site.bind, Site.select_user.
    rewrite failing_quiet by done. cbn [Site.world_of Site.passwords db set_db users].
    rewrite !lookup_insert_eq. rewrite bool_decide_eq_false_2 by congruence. done.
  - intros again.
    unfold Site.register, Site.try_catch, Site.bind, Site.insert_user.
    rewrite failing_quiet by done. cbv beta zeta.
    cbn [Site.world_of db set_db users]. rewrite lookup_insert_eq.
    rewrite bool_decide_eq_true_2 by eauto. done.
Qed.

Lemma register_then_login_witness :
  exists id s',
    Site.register "u4" "secret" {| Site.world_of := fresh; Site.passwords := ∅; Site.users_seq := 3 |}
      = (Ok (Site.json (Site.UserJson id "u4")), s') /\
    Site.login "u4" "secret" s' = (Ok (Site.json (Site.UserJson id "u4")), s').
Proof.
  destruct (register_then_login
              {| Site.world_of := fresh; Site.passwords := ∅; Site.users_seq := 3 |}
              "u4" "secret")
    as (id & s' & Hreg & _ & _ & Hlogin & _); [vm_compute; reflexivity..|].
  exists id, s'. split; [exact Hreg|exact Hlogin].
Defined.

(** X17.  A login is answered 200 only for a user name of the table and
    the password stored with it, and then with the id of that account;
    every login is answered, and none writes anything.  This holds
    whichever calls fail. *)
Theorem login_needs_the_password (s : Site.site) (username password : string) :
  exists r s',
    Site.login username password s = (Ok r, s') /\
    Site.same_data s s' /\
    (Site.code r = 200%nat ->
     exists id, users (db (Site.world_of s)) !! username = Some id /\
                Site.passwords s !! username = Some password /\
                Site.content r = Site.UserJson id username).
Proof.
  unfold Site.login, Site.try_catch, Site.bind, Site.select_user.
  match goal with |- context [Site.failing ?e ?act s] =>
    destruct (Site.failing e act s) as [r0 s0] eqn:Hf end.
  apply failing_cases in Hf as (s1 & Hsame & [[-> ->] | Hact]).
  { eexists _, _. split; [reflexivity|]. split; [exact Hsame|]. discriminate. }
  injection Hact as <- <-.
  pose proof Hsame as (Hd & _ & _ & Hp & _).
  rewrite Hd, Hp.
  destruct (users (db (Site.world_of s)) !! username) as [id|];
    [|eexists _, _; split; [reflexivity|]; split; [exact Hsame|discriminate]].
  destruct (Site.passwords s !! username) as [stored|];
    [|eexists _, _; split; [reflexivity|]; split; [exact Hsame|discriminate]].
  destruct (bool_decide (stored = password)) eqn:Hpw;
    eexists _, _; (split; [reflexivity|]); (split; [exact Hsame|]); [|discriminate].
  apply bool_decide_eq_true_1 in Hpw. subst. intros _. by exists id.
Qed.

(** ** The list of documents *)

(** X18.  The list and the role check agree.  When no call fails, a
    document is in the list of a user exactly when [getUserDocumentRole]
    gives the user a role on it, and it is listed with that role; the
    request writes nothing. *)
Theorem list_agrees_with_roles (s : Site.site) (userId : Z) :
  faults (Site.world_of s) = [] ->
  exists rows,
    Site.listDocuments userId s = (Ok (Site.json (Site.DocumentsJson rows)), s) /\
    forall id row role,
      rows !! id = Some (row, role) <->
      documents (db (Site.world_of s)) !! id = Some row /\
      run (getUserDocumentRole userId id) (Site.world_of s) = (Ok (Some role), Site.world_of s).
Proof.
  intros Hq. eexists. split.
  - unfold Site.listDocuments, Site.try_catch, Site.bind, Site.select_documents.
    by rewrite failing_quiet.
  - intros id row role. rewrite (getUserDocumentRole_quiet _ _ _ Hq).
    unfold Site.listed, role_of. rewrite map_lookup_imap.
    destruct (documents (db (Site.world_of s)) !! id) as [row'|]; cbn [mbind option_bind].
    2:{ split; [discriminate|]. by intros [? _]. }
    destruct (bool_decide (owner_id row' = userId)).
    + split; [by intros [= <- <-]|]. intros [[= <-] [= <-]]. done.
    + destruct (permissions (db (Site.world_of s)) !! (id, userId)) as [role'|];
        cbn [fmap option_fmap option_map].
      * split; [by intros [= <- <-]|]. intros [[= <-] [= <-]]. done.
      * split; [discriminate|]. intros [_ [=]].
Qed.

Lemma list_agrees_with_roles_witness :
  exists rows,
    Site.listDocuments 2 {| Site.world_of := shared; Site.passwords := ∅; Site.users_seq := 3 |}
      = (Ok (Site.json (Site.DocumentsJson rows)),
         {| Site.world_of := shared; Site.passwords := ∅; Site.users_seq := 3 |}) /\
    rows !! 1 = Some ({| name := "Notes"; path := "/"; fs_path := filename; owner_id := 1 |},
                      "reader").
Proof.
  destruct (list_agrees_with_roles
              {| Site.world_of := shared; Site.passwords := ∅; Site.users_seq := 3 |} 2)
    as (rows & Hrun & Hrows); [vm_compute; reflexivity|].
  exists rows. split; [exact Hrun|]. apply Hrows. split; vm_compute; reflexivity.
Defined.

(** ** Deleting a document *)

(** X19.  Deleting a document, when no call fails: the row and the
    directory of the document are gone and those of other documents are
    as before; nobody has a role on the document any more and no list
    shows it; and when it was the only document, its file name is free
    for the next create.  A document that has no row is answered 404 (500
    when the query failed) and nothing is written.  The handler does not
    ask who sends the request. *)
Theorem delete_removes_the_document (s : Site.site) (id : Z) :
  (forall row,
     faults (Site.world_of s) = [] ->
     documents (db (Site.world_of s)) !! id = Some row ->
     exists s',
       Site.deleteDocument id s = (Ok (Site.json (Site.Plain Success)), s') /\
       documents (db (Site.world_of s')) = delete id (documents (db (Site.world_of s))) /\
       storage (Site.world_of s') = delete id (storage (Site.world_of s)) /\
       (forall userId, run (getUserDocumentRole userId id) (Site.world_of s')
                       = (Ok None, Site.world_of s')) /\
       (forall userId, Site.listed (db (Site.world_of s')) userId !! id = None) /\
       ((forall j row', documents (db (Site.world_of s)) !! j = Some row' -> j = id) ->
        fs_path_taken (db (Site.world_of s')) filename = false)) /\
  (documents (db (Site.world_of s)) !! id = None ->
   exists r s',
     Site.deleteDocument id s = (Ok r, s') /\
     (r = Site.status_json 404 (Site.Plain (Error "Doc not found")) \/ Site.code r = 500%nat) /\
     Site.same_data s s').
Proof.
  split.
  - intros row Hq Hrow.
    assert (Hstep : exists s',
      Site.deleteDocument id s = (Ok (Site.json (Site.Plain Success)), s') /\
      db (Site.world_of s') = {| documents := delete id (documents (db (Site.world_of s)));
                                 permissions := permissions (db (Site.world_of s));
                                 users := users (db (Site.world_of s));
                                 documents_seq := documents_seq (db (Site.world_of s)) |} /\
      storage (Site.world_of s') = delete id (storage (Site.world_of s)) /\
      faults (Site.world_of s') = []).
    { unfold Site.deleteDocument, Site.try_catch, Site.bind, Site.lift.
      rewrite run_call. cbn [exec]. unfold fallible. rewrite pop_fault_quiet by done.
      rewrite Hrow. rewrite run_call. cbn [exec Site.world_of Site.with_world].
      destruct (storage (Site.world_of s) !! id) as [r|] eqn:Hdir.
      - rewrite bool_decide_eq_true_2 by eauto.
        unfold Site.rmSync, Site.delete_document.
        rewrite failing_quiet by done. rewrite failing_quiet by done.
        eexists. split; [reflexivity|]. done.
      - rewrite bool_decide_eq_false_2 by apply is_Some_None.
        unfold Site.ret, Site.delete_document. rewrite failing_quiet by done.
        eexists. split; [reflexivity|]. cbn [Site.world_of Site.with_world db storage set_db].
        split; [done|]. split; [|done]. symmetry. by apply delete_id. }
    destruct Hstep as (s' & Hrun & Hd & Hs & Hq').
    assert (Hdocs : documents (db (Site.world_of s')) !! id = None).
    { rewrite Hd. cbn [documents]. apply lookup_delete_eq. }
    exists s'. split; [exact Hrun|]. split; [by rewrite Hd|]. split; [exact Hs|].
    split; [|split].
    + intros userId. rewrite getUserDocumentRole_quiet by done.
      unfold role_of. by rewrite Hdocs.
    + intros userId. unfold Site.listed. rewrite map_lookup_imap. by rewrite Hdocs.
    + intros Honly. unfold fs_path_taken. apply bool_decide_eq_false_2.
      intros Hex. apply Exists_exists in Hex as ([j row'] & Hin & _).
      apply elem_of_map_to_list in Hin. rewrite Hd in Hin. cbn [documents] in Hin.
      apply lookup_delete_Some in Hin as [Hne Hl]. apply Hne. symmetry. by eapply Honly.
  - intros Hrow.
    unfold Site.deleteDocument, Site.try_catch, Site.bind, Site.lift.
    rewrite run_call. cbn [exec]. unfold fallible.
    destruct (pop_fault (Site.world_of s)) as [[] w1] eqn:Hp;
      pose proof (same_data_pop _ _ _ Hp) as Hsame.
    + eexists _, _. split; [reflexivity|]. split; [by right|exact Hsame].
    + destruct (pop_fault_same _ _ _ Hp) as (Hd & _). rewrite Hd, Hrow.
      eexists _, _. split; [reflexivity|]. split; [by left|exact Hsame].
Qed.

Lemma delete_removes_the_document_witness :
  exists s',
    Site.deleteDocument 1 {| Site.world_of := saved; Site.passwords := ∅; Site.users_seq := 3 |}
      = (Ok (Site.json (Site.Plain Success)), s') /\
    fs_path_taken (db (Site.world_of s')) filename = false.
Proof.
  destruct (delete_removes_the_document
              {| Site.world_of := saved; Site.passwords := ∅; Site.users_seq := 3 |} 1)
    as [Hdelete _].
  destruct (Hdelete {| name := "Notes"; path := "/"; fs_path := filename; owner_id := 1 |})
    as (s' & Hrun & _ & _ & _ & _ & Hfree); [vm_compute; reflexivity..|].
  exists s'. split; [exact Hrun|]. apply Hfree.
  intros j row'. cbn [Site.world_of].
  destruct (decide (j = 1)) as [->|Hne]; [done|].
  replace (documents (db saved)) with
    ({[ 1 := {| name := "Notes"; path := "/"; fs_path := filename; owner_id := 1 |} ]}
       : gmap Z document_row) by (vm_compute; reflexivity).
  rewrite lookup_singleton_ne by done. discriminate.
Defined.

(** ** The statements *)

(** X20.  [query] rewrites a numbered parameter to a question mark
    whatever its number: the text before and the text behind a parameter
    are rewritten on their own, so that the values are bound in the order
    in which the parameters appear; and the rewritten text has no numbered
    parameter left, rewriting it again changes nothing. *)
Theorem numbered_parameters_become_positional (before d after : string) :
  Db.digits d -> Db.starts_with_digit after = false ->
  Db.sql (before ++ "$" ++ d ++ after) = Db.sql before ++ "?" ++ Db.sql after /\
  Db.sql (Db.sql (before ++ "$" ++ d ++ after)) = Db.sql (before ++ "$" ++ d ++ after).
Proof.
  intros [Hne Hd] Hafter. split; [|apply replace_parameters_again].
  unfold Db.sql.
  change (before ++ "$" ++ d ++ after) with (before ++ String Db.dollar (d ++ after)).
  rewrite replace_parameters_app. f_equal.
  cbn [Db.replace_parameters andb].
  assert (Db.starts_with_digit (d ++ after) = true) as ->.
  { destruct d as [|a d]; [done|]. cbn [Db.all_digits] in Hd.
    by apply andb_prop in Hd as [Ha _]. }
  rewrite bool_decide_eq_true_2 by done. cbn [andb].
  change ("?" ++ Db.replace_parameters false after)
    with (String Db.question_mark (Db.replace_parameters false after)).
  f_equal. rewrite replace_parameters_digits by done.
  by apply replace_parameters_resume.
Qed.

Lemma numbered_parameters_become_positional_witness :
  Db.digits "1" /\
  Db.sql ("SELECT role FROM permissions WHERE document_id = " ++ "$" ++ "1" ++
          " AND user_id = $2") =
    Db.sql "SELECT role FROM permissions WHERE document_id = " ++ "?" ++
    Db.sql " AND user_id = $2".
Proof.
  assert (Hd : Db.digits "1") by (split; [discriminate|reflexivity]).
  split; [exact Hd|].
  exact (proj1 (numbered_parameters_become_positional
                  "SELECT role FROM permissions WHERE document_id = " "1"
                  " AND user_id = $2" Hd eq_refl)).
Defined.

(** The upsert of the share handler names its third value twice; the
    rewritten statement asks for four values, and the handler passes
    three, so the value of the update is left unbound.  For a pair that
    has a row the update runs, with NULL for the role, and fails, as
    [Lang.exec] has it. *)
Example share_statement_values :
  Db.sql Db.share_statement =
    "INSERT INTO permissions (document_id, user_id, role) VALUES (?, ?, ?) ON CONFLICT (document_id, user_id) DO UPDATE SET role = ?" /\
  Db.question_marks (Db.sql Db.share_statement) = 4%nat.
Proof. split; vm_compute; reflexivity. Qed.

(** ** The editor *)

(** X21.  The debounced function, after any sequence of calls and turns
    of the event loop: at most one of its timers is set; a call leaves
    one timer, due [wait] after the call and holding the arguments of
    that call, and calls [func] not; a turn of the event loop calls
    [func] exactly when the timer is due, once, with the arguments of the
    last call, and leaves no timer.  So a burst of calls followed by a
    turn at least [wait] after the last of them makes one call of [func],
    with the last arguments. *)
Theorem debounce_runs_the_last_call {A : Type} (wait : nat) (events : list (@Editor.event A)) :
  let s := Editor.play wait events Editor.fresh_closure in
  (Editor.pending s = [] \/ exists d a, Editor.pending s = [(d, a)]) /\
  (forall now a,
     Editor.pending (Editor.executedFunction wait now a s) = [(now + wait, a)%nat] /\
     Editor.calls (Editor.executedFunction wait now a s) = Editor.calls s) /\
  (forall now,
     match Editor.pending s with
     | [(d, a)] =>
         if Nat.leb d now
         then Editor.pending (Editor.tick now s) = [] /\
              Editor.calls (Editor.tick now s) = (now, a) :: Editor.calls s
         else Editor.tick now s = s
     | _ => Editor.tick now s = s
     end) /\
  (forall burst t a now,
     (t + wait <= now)%nat ->
     Editor.calls (Editor.play wait
                     (events ++ ((fun ta => Editor.Invoke ta.1 ta.2) <$> burst) ++
                      [Editor.Invoke t a; Editor.Tick now])
                     Editor.fresh_closure)
     = (now, a) :: Editor.calls s).
Proof.
  intros s.
  assert (Hs : Editor.one_timer s) by apply play_one_timer, fresh_one_timer.
  split; [|split; [|split]].
  - destruct Hs as [Hs | (t & Ht & _)]; unfold Editor.pending; rewrite ?Hs, ?Ht; eauto.
  - intros now a. by apply executedFunction_one_timer.
  - intros now. destruct Hs as [Hs | (t & Ht & _)]; unfold Editor.pending.
    + rewrite Hs. by apply tick_no_timer.
    + rewrite Ht. cbn [fmap list_fmap].
      destruct (Nat.leb (Editor.due t) now) eqn:Hd.
      * apply Nat.leb_le in Hd. destruct (tick_due now s t Ht Hd) as (H1 & H2 & _).
        by rewrite H1.
      * apply Nat.leb_gt in Hd. by apply (tick_early now s t).
  - intros burst t a now Hnow.
    unfold Editor.play. rewrite !foldl_app.
    fold (Editor.play wait events Editor.fresh_closure). fold s.
    match goal with |- context [foldl _ s ?l] => fold (Editor.play wait l s) end.
    set (s1 := Editor.play wait _ s).
    assert (Hs1 : Editor.one_timer s1) by by apply play_one_timer.
    assert (Hc1 : Editor.calls s1 = Editor.calls s) by apply play_invokes.
    cbn [foldl Editor.step].
    destruct (executedFunction_one_timer wait t a s1 Hs1) as (Ho & Hp & Hc).
    destruct Ho as [Ho | (tm & Htm & _)].
    { unfold Editor.pending in Hp. by rewrite Ho in Hp. }
    unfold Editor.pending in Hp. rewrite Htm in Hp. injection Hp as Hdue Hargs.
    destruct (tick_due now _ tm Htm) as (_ & H2 & _); [lia|].
    by rewrite H2, Hargs, Hc, Hc1.
Qed.

(** Three edits within a minute of each other and the event loop a minute
    after the third, with the time in seconds: one save, of the third. *)
Example autosave_after_a_burst :
  Editor.calls (Editor.play 60
                  [Editor.Invoke 0 "a"; Editor.Tick 1; Editor.Invoke 20 "ab";
                   Editor.Tick 60; Editor.Invoke 70 "abc"; Editor.Tick 130;
                   Editor.Tick 200]
                  Editor.fresh_closure)
  = [(130%nat, "abc")].
Proof. vm_compute. reflexivity. Qed.

(** X22.  The lightness that [render] reads back from a colour of
    [openDocument] is the lightness that was written into it: the text of
    the label is black when the lightness is above 60 and white
    otherwise.  The colours [openDocument] draws have a lightness from 50
    to 59, so their labels have white text. *)
Theorem label_text_colour (hue saturation lightness : nat) :
  Editor.textColor (Some (Editor.cursorColor hue saturation lightness)) =
    (if Nat.ltb 60 lightness then "#000" else "#fff") /\
  (forall r, (r < 10)%nat ->
     Editor.textColor (Some (Editor.cursorColor hue saturation (50 + r))) = "#fff").
Proof.
  assert (Hcolour : forall l,
            Editor.textColor (Some (Editor.cursorColor hue saturation l)) =
              (if Nat.ltb 60 l then "#000" else "#fff")).
  { intros l. unfold Editor.textColor.
    pose proof (hsl_here_cursorColor hue saturation l) as Hhere.
    set (c := Editor.cursorColor hue saturation l) in *.
    assert (Hc : exists rest, c = String (Ascii.ascii_of_nat 104)
                                   (String (Ascii.ascii_of_nat 115)
                                      (String (Ascii.ascii_of_nat 108)
                                         (String (Ascii.ascii_of_nat 40) rest))))
      by (eexists; reflexivity).
    destruct Hc as [rest Hc].
    rewrite bool_decide_eq_false_2 by (by rewrite Hc).
    assert (Hp : String.prefix "hsl" c = true) by (rewrite Hc; reflexivity).
    assert (Hm : Editor.hslMatch c = Some (Editor.decimal l)).
    { rewrite Hc in *. cbn [Editor.hslMatch]. by rewrite Hhere. }
    by rewrite Hp, Hm, parseInt_decimal. }
  split; [apply Hcolour|].
  intros r Hr. rewrite Hcolour.
  destruct (Nat.ltb_spec 60 (50 + r)); [lia|done].
Qed.

Example label_of_a_cursor :
  Editor.cursorColor 210 85 54 = "hsl(210, 85%, 54%)" /\
  Editor.textColor (Some "hsl(210, 85%, 54%)") = "#fff" /\
  Editor.textColor (Some "hsl(60, 100%, 75%)") = "#000" /\
  Editor.textColor (Some "#8ab4f8") = "#fff" /\
  Editor.textColor None = "#fff".
Proof. vm_compute. repeat split. Qed.
